(** * Aegean source finder: a shallow embedding of [aegean.py] and
      [AegeanTools/fits_image.py], and the properties of its island
      segmentation, parameter estimation, fitting and catalogue assembly.

    Python floats and numpy [float64] values are IEEE binary64 numbers and
    are embedded as Rocq's primitive floats, so that NaN, infinities and
    rounding behave as they do in the program.  Python integers are [Z].
    Python exceptions and [sys.exit] are results of the [res] monad. *)

From Stdlib Require Import ZArith Floats Lia String Ascii DecimalString.
From stdpp Require Import base tactics option list.
Import ListNotations.

Local Open Scope Z_scope.

(** ** Results of Python computations *)

Inductive exn : Type :=
  | SysExit | IndexError | TypeError | ValueError | KeyError
  | ZeroDivisionError | OverflowError.

(** [OutOfFuel] is not a Python outcome: it is what a bounded loop of the
    embedding returns when its bound is too small.  The theorems below show
    that the bounds chosen are never exhausted. *)
Inductive res (A : Type) : Type :=
  | Ok (a : A)
  | Raise (e : exn)
  | OutOfFuel.
Arguments Ok {A} a.
Arguments Raise {A} e.
Arguments OutOfFuel {A}.

Definition bind {A B} (m : res A) (f : A -> res B) : res B :=
  match m with
  | Ok a => f a
  | Raise e => Raise e
  | OutOfFuel => OutOfFuel
  end.

Notation "x <- m ; k" := (bind m (fun x => k))
  (at level 20, m at level 100, k at level 200, only parsing).
Notation "' pat <- m ; k" := (bind m (fun x => match x with pat => k end))
  (at level 20, pat pattern, m at level 100, k at level 200, only parsing).

Fixpoint res_mapM {A B} (f : A -> res B) (l : list A) : res (list B) :=
  match l with
  | [] => Ok []
  | a :: l => b <- f a ; bs <- res_mapM f l ; Ok (b :: bs)
  end.

(** ** Python numbers *)

Module Py.

(** [min(a, b)] and [max(a, b)] on two floats: the first argument is kept
    unless the second is strictly smaller (resp. larger). *)
Definition min (a b : float) : float := if (b <? a)%float then b else a.
Definition max (a b : float) : float := if (a <? b)%float then b else a.

(** Truth value of a float: everything but zero (NaN included). *)
Definition truthy (x : float) : bool := negb (x =? 0)%float.

(** Conversion of a Python integer to a float. *)
Definition of_int (z : Z) : float :=
  SF2Prim (binary_normalize prec emax z 0 false).

(** [int(x)]: truncation toward zero; NaN and infinities raise. *)
Definition int (x : float) : res Z :=
  match Prim2SF x with
  | S754_zero _ => Ok 0
  | S754_infinity _ => Raise OverflowError
  | S754_nan => Raise ValueError
  | S754_finite s m e =>
      let a := if (0 <=? e)%Z then Z.pos m * 2 ^ e
               else Z.pos m / 2 ^ (- e) in
      Ok (if s then - a else a)
  end.

(** [round(x)] of Python 2: to the nearest integer, halves away from
    zero, as a float. *)
Definition round (x : float) : float :=
  match Prim2SF x with
  | S754_finite s m e =>
      if (0 <=? e)%Z then x
      else
        let twice := Z.pos m / 2 ^ (- e - 1) in
        let a := (twice + 1) / 2 in
        if (a =? 0)%Z then (if s then (-0)%float else 0%float)
        else of_int (if s then - a else a)
  | _ => x
  end.

End Py.

(** ** numpy arrays of two dimensions

    A dense row-major buffer with its shape.  [a[x, y]] reads cell
    [x * cols + y]; a negative index counts from the end, as in numpy, and an
    index outside [-n, n) raises [IndexError]. *)

Record ndarray (A : Type) : Type := NdArray {
  nd_rows : nat;
  nd_cols : nat;
  nd_buf : list A
}.
Arguments NdArray {A} _ _ _.
Arguments nd_rows {A} _.
Arguments nd_cols {A} _.
Arguments nd_buf {A} _.

Definition pixel : Type := Z * Z.

Definition nd_wf {A} (a : ndarray A) : Prop :=
  length (nd_buf a) = (nd_rows a * nd_cols a)%nat.

Definition nd_shape {A} (a : ndarray A) : Z * Z :=
  (Z.of_nat (nd_rows a), Z.of_nat (nd_cols a)).

Definition nd_full {A} (rows cols : nat) (v : A) : ndarray A :=
  NdArray rows cols (replicate (rows * cols) v).

Definition py_index (i : Z) (n : nat) : option nat :=
  if 0 <=? i then (if i <? Z.of_nat n then Some (Z.to_nat i) else None)
  else if - Z.of_nat n <=? i then Some (Z.to_nat (i + Z.of_nat n))
  else None.

Definition nd_offset {A} (a : ndarray A) (p : pixel) : option nat :=
  match py_index p.1 (nd_rows a), py_index p.2 (nd_cols a) with
  | Some i, Some j => Some (i * nd_cols a + j)%nat
  | _, _ => None
  end.

Definition nd_get {A} (a : ndarray A) (p : pixel) : res A :=
  match nd_offset a p with
  | Some k => match nd_buf a !! k with
              | Some v => Ok v
              | None => Raise IndexError
              end
  | None => Raise IndexError
  end.

Definition nd_set {A} (a : ndarray A) (p : pixel) (v : A) : res (ndarray A) :=
  match nd_offset a p with
  | Some k => if decide (k < length (nd_buf a))%nat
              then Ok (NdArray (nd_rows a) (nd_cols a) (<[k := v]> (nd_buf a)))
              else Raise IndexError
  | None => Raise IndexError
  end.

(** Row-major list of all index pairs of a [rows] x [cols] array: the order
    in which [np.where] reports hits. *)
Definition nd_indices (rows cols : nat) : list pixel :=
  x ← seq 0 rows; y ← seq 0 cols; [(Z.of_nat x, Z.of_nat y)].

(** Normalisation of one bound of a slice [lo:hi] on an axis of length [n]. *)
Definition slice_bound (i : Z) (n : nat) : Z :=
  let i := if i <? 0 then i + Z.of_nat n else i in
  Z.max 0 (Z.min i (Z.of_nat n)).

Definition slice_len (lo hi : Z) (n : nat) : nat :=
  Z.to_nat (slice_bound hi n - slice_bound lo n).

(** [a[x0:x1, y0:y1]] *)
Definition nd_slice {A} (a : ndarray A) (x0 x1 y0 y1 : Z) : ndarray A :=
  let r0 := Z.to_nat (slice_bound x0 (nd_rows a)) in
  let c0 := Z.to_nat (slice_bound y0 (nd_cols a)) in
  let r := slice_len x0 x1 (nd_rows a) in
  let c := slice_len y0 y1 (nd_cols a) in
  NdArray r c
    (i ← seq r0 r; take c (drop (i * nd_cols a + c0) (nd_buf a))).

(** ** Flags *)

Definition PEAKED : Z := 1.
Definition QUEUED : Z := 2.
Definition VISITED : Z := 4.

Definition FITERRSMALL : Z := 1.
Definition FITERR : Z := 2.
Definition FIXED2PSF : Z := 4.
Definition FIXEDCIRCULAR : Z := 8.
Definition NOTFIT : Z := 16.

(** [s & FLAG] as a truth value. *)
Definition has_flag (s flag : Z) : bool := negb (Z.land s flag =? 0).

(** ** class Island: list2map *)

Module Island.

(** [list2map(self, pixlist)]: the bounding box of the listed pixels, filled
    with NaN except at the listed pixels, which take their value from
    [self.pixels].  [min] of an empty list raises [ValueError]. *)
Definition list2map (self_pixels : ndarray float) (pixlist : list pixel)
  : res (ndarray float * Z * Z * Z * Z) :=
  match pixlist with
  | [] => Raise ValueError
  | p0 :: ps =>
      let xmin := foldl Z.min p0.1 (fst <$> ps) in
      let xmax := foldl Z.max p0.1 (fst <$> ps) in
      let ymin := foldl Z.min p0.2 (snd <$> ps) in
      let ymax := foldl Z.max p0.2 (snd <$> ps) in
      let box := nd_slice self_pixels xmin (xmax + 1) ymin (ymax + 1) in
      let blank := nd_full (nd_rows box) (nd_cols box) nan in
      pixels <- foldl (fun acc p =>
                        pixels <- acc ;
                        v <- nd_get self_pixels p ;
                        nd_set pixels (p.1 - xmin, p.2 - ymin) v)
                     (Ok blank) pixlist;
      Ok (pixels, xmin, xmax, ymin, ymax)
  end.

(** [map2list(self, map)]: the tuples [(map[x, y], x, y)], row by row. *)
Definition map2list (map : ndarray float) : res (list (float * Z * Z)) :=
  res_mapM (fun p => v <- nd_get map p ; Ok (v, p.1, p.2))
           (nd_indices (nd_rows map) (nd_cols map)).

(** [get_pixlist(self, clip)]: the tuples of the pixels above [clip], in the
    order in which [np.where] reports them. *)
Definition get_pixlist (self_pixels : ndarray float) (clip : float)
  : res (list (float * Z * Z)) :=
  let indices :=
    filter (fun p => match nd_get self_pixels p with
                     | Ok v => (clip <? v)%float
                     | _ => false
                     end = true)
           (nd_indices (nd_rows self_pixels) (nd_cols self_pixels)) in
  res_mapM (fun p => v <- nd_get self_pixels p ; Ok (v, p.1, p.2)) indices.

End Island.

(** ** Flood fill *)

(** One of the four guarded blocks of [explore]: [new] joins the queue when it
    is not QUEUED yet and its signal to noise reaches [cutoffratio].  The
    second test is not evaluated when the first fails. *)
Definition explore_one (data rmsimg : ndarray float) (cutoffratio : float)
    (sq : ndarray Z * list pixel) (new : pixel) : res (ndarray Z * list pixel) :=
  let '(status, queue) := sq in
  s <- nd_get status new ;
  if has_flag s QUEUED then Ok (status, queue)
  else
    d <- nd_get data new ;
    r <- nd_get rmsimg new ;
    if (cutoffratio <=? d / r)%float then
      status' <- nd_set status new (Z.lor s QUEUED) ;
      Ok (status', queue ++ [new])
    else Ok (status, queue).

(** The neighbours [explore] looks at, in its order, each under its guard. *)
Definition neighbours (bounds : Z * Z) (p : pixel) : list pixel :=
  let '(x, y) := p in
  (if 0 <? x then [(x - 1, y)] else []) ++
  (if x <? bounds.1 then [(x + 1, y)] else []) ++
  (if 0 <? y then [(x, y - 1)] else []) ++
  (if y <? bounds.2 then [(x, y + 1)] else []).

(** [explore(data, rmsimg, status, queue, bounds, cutoffratio, pixel)]; the
    status map and the queue it mutates are returned.  [queue] is the part of
    the caller's queue not yet iterated over. *)
Definition explore (data rmsimg : ndarray float) (status : ndarray Z)
    (queue : list pixel) (bounds : Z * Z) (cutoffratio : float) (p : pixel)
  : res (ndarray Z * list pixel) :=
  if (p.1 <? 0) || (p.2 <? 0) then Raise SysExit
  else
    foldl (fun acc new => sq <- acc ; explore_one data rmsimg cutoffratio sq new)
          (Ok (status, queue)) (neighbours bounds p).

(** The loop [for pixel in queue] of [flood].  Python's iteration over a list
    that grows visits the appended items too; [queue] here is what remains to
    be visited. *)
Fixpoint flood_loop (fuel : nat) (data rmsimg : ndarray float) (bounds : Z * Z)
    (cutoffratio : float) (status : ndarray Z) (queue : list pixel)
    (blob : list pixel) : res (list pixel * ndarray Z) :=
  match queue with
  | [] => Ok (blob, status)
  | p :: queue =>
      match fuel with
      | O => OutOfFuel
      | S fuel =>
          s <- nd_get status p ;
          if has_flag s VISITED then
            flood_loop fuel data rmsimg bounds cutoffratio status queue blob
          else
            status <- nd_set status p (Z.lor s VISITED) ;
            sq <- explore data rmsimg status queue bounds cutoffratio p ;
            flood_loop fuel data rmsimg bounds cutoffratio sq.1 sq.2
                       (blob ++ [p])
      end
  end.

(** [flood(data, rmsimg, status, bounds, peak, cutoffratio)]: the blob grown
    from [peak], with the status map it leaves.  Every pixel enters the queue
    once at most, so one more step than the map has cells is enough. *)
Definition flood (data rmsimg : ndarray float) (status : ndarray Z)
    (bounds : Z * Z) (peak : pixel) (cutoffratio : float)
  : res (list pixel * ndarray Z) :=
  s <- nd_get status peak ;
  if has_flag s VISITED then Ok ([], status)
  else
    status <- nd_set status peak (Z.lor s QUEUED) ;
    flood_loop (S (length (nd_buf status))) data rmsimg bounds cutoffratio
               status [peak] [].

(** Signal to noise tests of the segmenter. *)
Definition snr_gt (data rmsimg : ndarray float) (clip : float) (p : pixel) : bool :=
  match nd_get data p, nd_get rmsimg p with
  | Ok d, Ok r => (clip <? d / r)%float
  | _, _ => false
  end.

Definition snr_ge (data rmsimg : ndarray float) (clip : float) (p : pixel) : bool :=
  match nd_get data p, nd_get rmsimg p with
  | Ok d, Ok r => (clip <=? d / r)%float
  | _, _ => false
  end.

(** Python's order on the tuples [(flux, x, y)]: the first components that
    differ decide. *)
Definition peak_lt (a b : float * Z * Z) : bool :=
  let '(fa, xa, ya) := a in
  let '(fb, xb, yb) := b in
  if negb (fa =? fb)%float then (fa <? fb)%float
  else if negb (xa =? xb) then xa <? xb
  else ya <? yb.

(** [peaks.sort(reverse=True)]: a stable sort into descending order.  The
    tuples carry distinct coordinates and no NaN flux, so they are totally
    ordered and every stable sort yields this list. *)
Fixpoint insert_desc (a : float * Z * Z) (l : list (float * Z * Z)) :=
  match l with
  | [] => [a]
  | b :: l' => if peak_lt a b then b :: insert_desc a l' else a :: l
  end.

Definition sort_desc (l : list (float * Z * Z)) : list (float * Z * Z) :=
  foldr insert_desc [] l.

(** What one pass of the loop over [peaks] of [gen_flood_wrap] yields, each
    island with the blob it was made from, and the status map at the end. *)
Definition island_box : Type := (ndarray float * Z * Z * Z * Z)%type.

Fixpoint flood_peaks (data rmsimg : ndarray float) (bounds : Z * Z)
    (outerclip : float) (expand : bool) (status : ndarray Z)
    (peaks : list pixel) : res (list (list pixel * island_box) * ndarray Z) :=
  match peaks with
  | [] => Ok ([], status)
  | peak :: peaks =>
      bs <- flood data rmsimg status bounds peak outerclip ;
      let '(blob, status) := bs in
      if (1 <=? length blob)%nat then
        if expand then Raise SysExit
        else
          isle <- Island.list2map data blob ;
          rest <- flood_peaks data rmsimg bounds outerclip expand status peaks ;
          Ok ((blob, isle) :: rest.1, rest.2)
      else flood_peaks data rmsimg bounds outerclip expand status peaks
  end.

(** Elementwise operands must have one shape (broadcasting of unit axes is not
    modelled: the callers pass maps of the image's shape). *)
Definition same_shape {A B} (a : ndarray A) (b : ndarray B) : bool :=
  (nd_rows a =? nd_rows b)%nat && (nd_cols a =? nd_cols b)%nat.

(** The body of [gen_flood_wrap]: the status map starts at PEAKED where the
    signal to noise exceeds [innerclip], the peaks are flooded from the
    brightest down.  The value is what the generator yields, each island next
    to its blob, and the final status map.  The status bytes never exceed 7,
    so the [uint8] arithmetic does not wrap. *)
Definition gen_flood_wrap_trace (data rmsimg : ndarray float)
    (innerclip : float) (outerclip : option float) (expand : bool)
  : res (list (list pixel * island_box) * ndarray Z) :=
  let outerclip := default innerclip outerclip in
  if negb (same_shape data rmsimg) then Raise ValueError
  else
    let hot := filter (fun p => snr_gt data rmsimg innerclip p = true)
                      (nd_indices (nd_rows data) (nd_cols data)) in
    let status :=
      NdArray (nd_rows data) (nd_cols data)
        ((fun p => if snr_gt data rmsimg innerclip p then 0 + PEAKED else 0 + 0)
           <$> nd_indices (nd_rows data) (nd_cols data)) in
    peaks <- res_mapM (fun p => v <- nd_get data p ; Ok (v, p.1, p.2)) hot ;
    if (length peaks =? 0)%nat then Ok ([], status)
    else
      let peaks := (fun t : float * Z * Z => (t.1.2, t.2)) <$> sort_desc peaks in
      let bounds := (Z.of_nat (nd_rows data) - 1, Z.of_nat (nd_cols data) - 1) in
      flood_peaks data rmsimg bounds outerclip expand status peaks.

(** [gen_flood_wrap(data, rmsimg, innerclip, outerclip, expand)]: the islands
    the generator yields, in order. *)
Definition gen_flood_wrap (data rmsimg : ndarray float)
    (innerclip : float) (outerclip : option float) (expand : bool)
  : res (list island_box) :=
  '(yields, _) <- gen_flood_wrap_trace data rmsimg innerclip outerclip expand ;
  Ok (snd <$> yields).

(** ** Python numbers that are an int or a float

    The arguments of [Beam] are numbers of the FITS header or the defaults
    of [FitsImage.__init__]: Python [int]s or [float]s.  Python 2 divides
    two ints to their integer quotient, and every division by zero
    raises. *)

Inductive num : Type :=
  | PyInt (z : Z)
  | PyFloat (x : float).

(** [abs(n)] *)
Definition num_abs (n : num) : num :=
  match n with
  | PyInt z => PyInt (Z.abs z)
  | PyFloat x => PyFloat (abs x)
  end.

(** The float that arithmetic with a float turns [n] into: an int is
    rounded to the nearest float, and one that is too large for a float
    raises. *)
Definition num_float (n : num) : res float :=
  match n with
  | PyInt z => if is_infinity (Py.of_int z) then Raise OverflowError
               else Ok (Py.of_int z)
  | PyFloat x => Ok x
  end.


(** [a / b] of Python 2: the floor quotient of two ints; as soon as one
    operand is a float, both are taken as floats, the dividend first, and
    divided as floats.  A zero divisor raises in both cases. *)
Definition num_div (a b : num) : res num :=
  match a, b with
  | PyInt x, PyInt y =>
      if y =? 0 then Raise ZeroDivisionError else Ok (PyInt (x / y))
  | _, _ =>
      x <- num_float a ;
      y <- num_float b ;
      if (y =? 0)%float then Raise ZeroDivisionError else Ok (PyFloat (x / y))
  end.



(** ** class Beam (fits_image.py) *)

Module Beam.

(** The beam as the rest of the program reads it: its attributes enter
    float arithmetic only, where an int counts as the float of its value. *)
Record t : Type := Make {
  a : float;
  b : float;
  pa : float;
  aspect : float
}.

(** What the constructor stores: Python numbers, ints or floats as the
    caller gave them. *)
Record attrs : Type := Attrs {
  self_a : num;
  self_b : num;
  self_pa : num;
  self_aspect : num
}.

(** [Beam.__init__(self, a, b, pa)]: the attributes are assigned in the
    order of the source, the division coming last. *)
Definition __init__ (a b pa : num) : res attrs :=
  let self_a := num_abs a in
  let self_b := num_abs b in
  let self_pa := pa in
  self_aspect <- num_div (num_abs a) (num_abs b) ;
  Ok (Attrs self_a self_b self_pa self_aspect).

(** The attributes as floats. *)
Definition read (self : attrs) : res t :=
  a <- num_float (self_a self) ;
  b <- num_float (self_b self) ;
  pa <- num_float (self_pa self) ;
  aspect <- num_float (self_aspect self) ;
  Ok (Make a b pa aspect).

End Beam.

(** ** Fit parameters *)

(** One dictionary of the [parinfo] list.  The key ['flags'] is present in
    the entries of dx, dy and pa only. *)
Record parinfo_entry : Type := ParInfo {
  value : float;
  fixed : bool;
  parname : string;
  limits : float * float;
  limited : bool * bool;
  flags : option Z
}.

(** What the fitting code reads of an [mpfit] object, and [DummyMP]. *)
Record MP : Type := MkMP {
  params : list float;
  perror : option (list float);
  errmsg : string
}.

Definition DummyMP (parinfo : list parinfo_entry) (perror : option (list float)) : MP :=
  MkMP (value <$> parinfo) perror
       "There is no error, I just didn't bother fitting anything!".

(** Functions of the libraries the program imports (math, numpy, scipy,
    mpfit, convert): they are parameters of the embedding. *)
Record Lib : Type := MkLib {
  cos : float -> float;
  sin : float -> float;
  log : float -> float;
  convolve : ndarray float -> ndarray Z -> ndarray float;
  scoreatpercentile : list float -> float -> res float;
  median : list float -> res float;
  mpfit : ndarray float -> ndarray float -> list parinfo_entry -> res MP;
  dec2hms : float -> string;
  dec2dms : float -> string
}.

(** [np.pi], [1.05] and [1.34896] as the binary64 numbers Python reads. *)
Definition np_pi : float := 0x1.921fb54442d18p+1%float.
Definition c1_05 : float := 0x1.0cccccccccccdp+0%float.
Definition c1_34896 : float := 0x1.5955714b9cb68p+0%float.

Definition item {A} (l : list A) (k : nat) : res A :=
  match l !! k with
  | Some v => Ok v
  | None => Raise IndexError
  end.

(** [float(x)] of an array: the array must hold one value. *)
Definition scalar {A} (l : list A) : res A :=
  match l with
  | [v] => Ok v
  | _ => Raise TypeError
  end.

(** [data[np.where(data==data)].ravel()]: the values that are not NaN. *)
Definition finite_values (data : ndarray float) : list float :=
  filter (fun v => (v =? v)%float = true) (nd_buf data).

(** [.max()] of a one-dimensional array without NaN. *)
Definition np_max (l : list float) : res float :=
  match l with
  | [] => Raise ValueError
  | v :: l => Ok (foldl (fun m w => if (m <? w)%float then w else m) v l)
  end.

(** [np.where(summit == amp)] as a list of index pairs. *)
Definition np_where_eq (summit : ndarray float) (amp : float) : list pixel :=
  filter (fun p => match nd_get summit p with
                   | Ok w => (w =? amp)%float
                   | _ => false
                   end = true)
         (nd_indices (nd_rows summit) (nd_cols summit)).

Definition str_of_nat (i : nat) : string :=
  DecimalString.NilZero.string_of_uint (Nat.to_uint i).

(** [s.split(":")[-1]] *)
Fixpoint last_field (s acc : string) : string :=
  match s with
  | EmptyString => acc
  | String c s' =>
      if Ascii.eqb c ":" then last_field s' EmptyString
      else last_field s' (acc ++ String c EmptyString)
  end.

(** [src['parname'].split(":")[-1] in ['dy','dx','pa']] *)
Definition is_shape_par (src : parinfo_entry) : bool :=
  let f := last_field (parname src) EmptyString in
  String.eqb f "dy" || String.eqb f "dx" || String.eqb f "pa".

(** ** Parameter estimates *)

Section Estimate.
Variable lib : Lib.

Definition fwhm2cc : float := (1 / (2 * sqrt (2 * log lib 2)))%float.

(** The body of the loop over the summits of [estimate_parinfo]: the six
    entries of summit number [i]. *)
Definition estimate_summit (rmsimg : ndarray float) (beam : Beam.t)
    (is_flag : Z) (i : nat) (s : island_box) : res (list parinfo_entry) :=
  let '(summit, xmin, xmax, ymin, ymax) := s in
  let xo_lim := ((Beam.a beam * cos lib (Beam.pa beam)
                  + Beam.b beam * sin lib (Beam.pa beam)) / 2)%float in
  let yo_lim := ((Beam.a beam * sin lib (Beam.pa beam)
                  + Beam.b beam * cos lib (Beam.pa beam)) / 2)%float in
  let summit_flag := is_flag in
  amp <- np_max (finite_values summit) ;
  let peak := (fun p : pixel => (p.1 + xmin, p.2 + ymin)) <$> np_where_eq summit amp in
  noise <- res_mapM (nd_get rmsimg) peak ;
  amp_min <- scalar ((fun r => 4 * r)%float <$> noise) ;
  amp_max <- scalar ((fun r => amp * c1_05 + 3 * r)%float <$> noise) ;
  match peak with
  | [(xo, yo)] =>
      let xo := Py.of_int xo in
      let yo := Py.of_int yo in
      let xo_min := Py.min (Py.of_int xmin) (xo - xo_lim)%float in
      let xo_max := Py.max (Py.of_int xmax) (xo + xo_lim)%float in
      let flat := (xo_min =? xo_max)%float in
      let xo_min := if flat then (xo_min - 0.5)%float else xo_min in
      let xo_max := if flat then (xo_max + 0.5)%float else xo_max in
      let yo_min := Py.min (Py.of_int ymin) (yo - yo_lim)%float in
      let yo_max := Py.max (Py.of_int ymax) (yo + yo_lim)%float in
      let flat := (xo_min =? xo_max)%float in
      let xo_min := if flat then (xo_min - 0.5)%float else xo_min in
      let xo_max := if flat then (xo_max + 0.5)%float else xo_max in
      let dx := (Py.max (Beam.b beam) (Py.of_int (xmax - xmin + 1) * sqrt 2)
                 * fwhm2cc)%float in
      let dx_min := (Beam.b beam * fwhm2cc)%float in
      let dx_max := Py.max dx (Py.of_int (xmax - xmin + 1 + 1) * sqrt 2 * fwhm2cc)%float in
      let dx_min := Py.min dx_min dx_max in
      let dy := (Py.max (Beam.a beam) (Py.of_int (ymax - ymin + 1) * sqrt 2)
                 * fwhm2cc)%float in
      let dy_min := (Beam.a beam * fwhm2cc)%float in
      let dy_max := Py.max dy (Py.of_int (ymax - ymin + 1 + 1) * sqrt 2 * fwhm2cc)%float in
      let dy_min := Py.min dy_min dy_max in
      let summit_flag :=
        if (dy_min =? dy_max)%float || (dx_min =? dx_max)%float
        then Z.lor summit_flag FIXED2PSF else summit_flag in
      let dx := if has_flag summit_flag FIXED2PSF
                then (Beam.b beam * fwhm2cc)%float else dx in
      let dy := if has_flag summit_flag FIXED2PSF
                then (Beam.a beam * fwhm2cc)%float else dy in
      let pa := 0%float in
      let flag := summit_flag in
      let name k := (str_of_nat i ++ k)%string in
      Ok [ ParInfo amp false (name ":amp"%string) (amp_min, amp_max) (true, true) None;
           ParInfo xo false (name ":xo"%string) (xo_min, xo_max) (true, true) None;
           ParInfo yo false (name ":yo"%string) (yo_min, yo_max) (true, true) None;
           ParInfo dx (0 <? Z.land flag FIXED2PSF) (name ":dx"%string) (dx_min, dx_max)
                   (true, true) (Some flag);
           ParInfo dy (0 <? Z.land flag FIXED2PSF) (name ":dy"%string) (dy_min, dy_max)
                   (true, true) (Some flag);
           ParInfo pa (0 <? Z.land flag FIXED2PSF) (name ":pa"%string) (- np_pi, np_pi)%float
                   (false, false) (Some flag) ]
  | _ => Raise TypeError
  end.

(** The island flag computed from the number of pixels that are not NaN. *)
Definition size_flag (data : ndarray float) : Z :=
  let non_nan_pix := Z.of_nat (length (finite_values data)) in
  if (4 <=? non_nan_pix) && (non_nan_pix <=? 6) then FIXED2PSF
  else if non_nan_pix <? 4 then FITERRSMALL
  else 0.

(** The test that sends an island down the single-summit path. *)
Definition tiny (data : ndarray float) : bool :=
  (Z.min (nd_shape data).1 (nd_shape data).2 <=? 2)
  || has_flag (size_flag data) FITERRSMALL.

(** [np.where(curve < -1*csigma, np.where(data-5*rmsimg > 0, data, -1), -1)] *)
Definition kappa_sigma (data rmsimg curve : ndarray float) (csigma : float)
  : res (ndarray float) :=
  if negb (same_shape data rmsimg && same_shape curve data) then Raise ValueError
  else
    Ok (NdArray (nd_rows data) (nd_cols data)
          ((fun t : float * float * float =>
              let '(c, d, r) := t in
              if (c <? -1 * csigma)%float
              then (if (0 <? d - 5 * r)%float then d else (-1)%float)
              else (-1)%float)
           <$> zip (zip (nd_buf curve) (nd_buf data)) (nd_buf rmsimg))).

(** The summits of an island: the island itself when it is tiny, else the
    blobs of its curvature mask. *)
Definition find_summits (data rmsimg curve : ndarray float) (csigma : float)
  : res (list island_box) :=
  if tiny data then
    Ok [ (data, 0, (nd_shape data).1, 0, (nd_shape data).2) ]
  else
    mask <- kappa_sigma data rmsimg curve csigma ;
    gen_flood_wrap mask (nd_full (nd_rows mask) (nd_cols mask) 1%float)
                   0%float None false.

Fixpoint estimate_summits (rmsimg : ndarray float) (beam : Beam.t) (is_flag : Z)
    (i : nat) (summits : list island_box) : res (list parinfo_entry) :=
  match summits with
  | [] => Ok []
  | s :: summits =>
      entries <- estimate_summit rmsimg beam is_flag i s ;
      rest <- estimate_summits rmsimg beam is_flag (S i) summits ;
      Ok (entries ++ rest)
  end.

(** [estimate_parinfo(data, rmsimg, curve, beam, csigma)] *)
Definition estimate_parinfo (data rmsimg curve : ndarray float) (beam : Beam.t)
    (csigma : option float) : res (list parinfo_entry) :=
  let csigma := match csigma with
                | Some c => if Py.truthy c then c else 0%float
                | None => 0%float
                end in
  if negb (same_shape data curve) then Raise SysExit
  else
    let is_flag := size_flag data in
    summits <- find_summits data rmsimg curve csigma ;
    estimate_summits rmsimg beam is_flag 0 summits.

End Estimate.

(** ** Fitting *)

Section Fit.
Variable lib : Lib.

(** First half of one pass of the loop of [multi_gauss] on component [i]:
    the angle is turned by pi/2 and, when the value at index 3 is below the
    value at index 4, the two axes (and their errors) are swapped and the
    angle is turned back. *)
Definition swap_axes (mp : MP) (i : nat) : res MP :=
  let k3 := (i * 6 + 3)%nat in
  let k4 := (i * 6 + 4)%nat in
  let k5 := (i * 6 + 5)%nat in
  let par := params mp in
  p5 <- item par k5 ;
  let par := <[k5 := (p5 + np_pi / 2)%float]> par in
  p3 <- item par k3 ;
  p4 <- item par k4 ;
  if (p3 <? p4)%float then
    let bla := p4 in
    let par := <[k4 := p3]> par in
    let par := <[k3 := bla]> par in
    err <- match perror mp with
           | None => Ok None
           | Some e =>
               bla <- item e k4 ;
               e3 <- item e k3 ;
               let e := <[k4 := e3]> e in
               Ok (Some (<[k3 := bla]> e))
           end ;
    p5 <- item par k5 ;
    Ok (MkMP (<[k5 := (p5 - np_pi / 2)%float]> par) err (errmsg mp))
  else Ok (MkMP par (perror mp) (errmsg mp)).

(** Second half: the angle loses [int(angle / 2 pi)] turns, then pi when it
    is above pi. *)
Definition wrap_angle (mp : MP) (i : nat) : res MP :=
  let k5 := (i * 6 + 5)%nat in
  let par := params mp in
  p5 <- item par k5 ;
  turns <- Py.int (p5 / (2 * np_pi))%float ;
  let par := <[k5 := (p5 - Py.of_int (turns * 2) * np_pi)%float]> par in
  p5 <- item par k5 ;
  let par := if (np_pi <? p5)%float then <[k5 := (p5 - np_pi)%float]> par else par in
  Ok (MkMP par (perror mp) (errmsg mp)).

(** One pass of the loop of [multi_gauss]: component [i] in canonical form. *)
Definition canonical (mp : MP) (i : nat) : res MP :=
  mp <- swap_axes mp i ;
  wrap_angle mp i.

Fixpoint canonical_loop (mp : MP) (js : list nat) : res MP :=
  match js with
  | [] => Ok mp
  | i :: js => mp <- canonical mp i ; canonical_loop mp js
  end.

(** [multi_gauss(data, rmsimg, parinfo)]: the solver, then the canonical
    form of every component. *)
Definition multi_gauss (data rmsimg : ndarray float) (parinfo : list parinfo_entry)
  : res (MP * list parinfo_entry) :=
  mp <- mpfit lib data rmsimg parinfo ;
  mp <- canonical_loop mp (seq 0 (length (params mp) / 6)) ;
  Ok (mp, parinfo).

End Fit.

(** ** Background and noise *)

(** [range(start, stop, step)] for a positive step. *)
Definition py_range (start stop step : Z) : list Z :=
  (fun k => start + Z.of_nat k * step) <$>
    seq 0 (Z.to_nat ((stop - start + step - 1) / step)).

(** [a[x0:x1, y0:y1] = v] *)
Definition nd_slice_fill {A} (arr : ndarray A) (x0 x1 y0 y1 : Z) (v : A) : ndarray A :=
  let r0 := slice_bound x0 (nd_rows arr) in
  let r1 := slice_bound x1 (nd_rows arr) in
  let c0 := slice_bound y0 (nd_cols arr) in
  let c1 := slice_bound y1 (nd_cols arr) in
  NdArray (nd_rows arr) (nd_cols arr)
    ((fun pw : pixel * A =>
        if (r0 <=? pw.1.1) && (pw.1.1 <? r1) && (c0 <=? pw.1.2) && (pw.1.2 <? c1)
        then v else pw.2)
     <$> zip (nd_indices (nd_rows arr) (nd_cols arr)) (nd_buf arr)).

Section Background.
Variable lib : Lib.

(** [rms_from_iqr(data)] *)
Definition rms_from_iqr (data : ndarray float) : res float :=
  p25 <- scoreatpercentile lib (finite_values data) 25%float ;
  p75 <- scoreatpercentile lib (finite_values data) 75%float ;
  let iqr := (p75 - p25)%float in
  Ok (iqr / c1_34896)%float.

(** [bkg_from_middle(data)] *)
Definition bkg_from_middle (data : ndarray float) : res float :=
  median lib (finite_values data).

(** [curvature(data)] *)
Definition curvature (data : ndarray float) : ndarray float :=
  convolve lib data (NdArray 3 3 [1; 1; 1; 1; -8; 1; 1; 1; 1]).

(** The mesh of [make_bkg_rms_image] along one axis of length [img]: the
    lower and the upper bounds of its boxes. *)
Definition mesh_bounds (img width : Z) : res (list (Z * Z)) :=
  let cen := img / 2 in
  if width =? 0 then Raise ZeroDivisionError
  else
    let start := (cen - width / 2) mod width in
    let stop := img - (img - start) mod width in
    let mins := [0] ++ py_range start stop width ++ [stop] in
    let maxs := [start] ++ py_range (start + width) (stop + 1) width ++ [img] in
    if img <=? width then Ok [(0, img)] else Ok (zip mins maxs).

(** The part of [make_bkg_rms_image] that runs when no noise level is
    forced: statistics box by box. *)
Definition tile_bkg_rms (data : ndarray float) (beam : Beam.t) (mesh_size : Z)
  : res (ndarray float * ndarray float) :=
  let img_y := Z.of_nat (nd_rows data) in
  let img_x := Z.of_nat (nd_cols data) in
  ex <- Py.int (Py.max (abs (cos lib (Beam.pa beam) * Beam.b beam))
                       (abs (sin lib (Beam.pa beam) * Beam.a beam)))%float ;
  ey <- Py.int (Py.max (abs (sin lib (Beam.pa beam) * Beam.b beam))
                       (abs (cos lib (Beam.pa beam) * Beam.a beam)))%float ;
  let width_x := mesh_size * ex in
  let width_y := mesh_size * ey in
  let blank := nd_full (nd_rows data) (nd_cols data) 0%float in
  xs <- mesh_bounds img_x width_x ;
  ys <- mesh_bounds img_y width_y ;
  foldl (fun acc box =>
           '(bkgimg, rmsimg) <- acc ;
           let '((xmin, xmax), (ymin, ymax)) := box in
           rms <- rms_from_iqr (nd_slice data ymin ymax xmin xmax) ;
           bkg <- bkg_from_middle (nd_slice data ymin ymax xmin xmax) ;
           Ok (nd_slice_fill bkgimg ymin ymax xmin xmax bkg,
               nd_slice_fill rmsimg ymin ymax xmin xmax rms))
        (Ok (blank, blank))
        (x ← xs; y ← ys; [(x, y)]).

(** [make_bkg_rms_image(data, beam, mesh_size, forced_rms)]: the pair
    [(bkgimg, rmsimg)].  [if forced_rms:] is Python's truth test: [None] and
    zero fail it. *)
Definition make_bkg_rms_image (data : ndarray float) (beam : Beam.t)
    (mesh_size : Z) (forced_rms : option float)
  : res (ndarray float * ndarray float) :=
  match forced_rms with
  | Some rms =>
      if Py.truthy rms then
        Ok (nd_full (nd_rows data) (nd_cols data) 0%float,
            nd_full (nd_rows data) (nd_cols data) (1 * rms)%float)
      else tile_bkg_rms data beam mesh_size
  | None => tile_bkg_rms data beam mesh_size
  end.

End Background.

(** [within(x, xm, xx)] *)
Definition within (x xm xx : float) : float := Py.min (Py.max x xm) xx.

(** ** The driver *)

(** What the driver reads of a [FitsImage]; [pix2sky] goes through the WCS
    library. *)
Record FitsImage : Type := MkFitsImage {
  get_pixels : ndarray float;
  beam : Beam.t;
  deg_per_pixel_x : float;
  pix2sky : float * float -> float * float
}.

Record OutputSource : Type := MkSource {
  island : Z;
  source : Z;
  background : float;
  local_rms : float;
  ra_str : string;
  ra : float;
  err_ra : float;
  dec_str : string;
  dec : float;
  err_dec : float;
  peak_flux : float;
  err_peak_flux : float;
  int_flux : float;
  err_int_flux : float;
  src_a : float;
  err_a : float;
  src_b : float;
  err_b : float;
  src_pa : float;
  err_pa : float;
  src_flags : Z
}.

(** The island flag: the flags of the first shape parameter that carries
    FITERRSMALL, else 0. *)
Fixpoint island_flag (parinfo : list parinfo_entry) : res Z :=
  match parinfo with
  | [] => Ok 0
  | src :: parinfo =>
      if is_shape_par src then
        match flags src with
        | None => Raise KeyError
        | Some f => if has_flag f FITERRSMALL then Ok f else island_flag parinfo
        end
      else island_flag parinfo
  end.

(** [src['flags'] |= NOTFIT] on every shape parameter. *)
Definition set_notfit (parinfo : list parinfo_entry) : res (list parinfo_entry) :=
  res_mapM (fun src =>
              if is_shape_par src then
                match flags src with
                | None => Raise KeyError
                | Some f =>
                    Ok (ParInfo (value src) (fixed src) (parname src) (limits src)
                                (limited src) (Some (Z.lor f NOTFIT)))
                end
              else Ok src) parinfo.

Section Driver.
Variable lib : Lib.

(** The choice between fitting and not fitting an island: the statement
    [if max_summits is not None and ...] followed by the statement
    [if is_flag & FITERRSMALL: ... else: ...].  The value is the final
    [(mp, info)]; what the first statement assigns to [mp] and [info] is
    kept in [skipped] and is overwritten by both branches of the second. *)
Definition fit_island (isle rms : ndarray float) (max_summits : option float)
    (parinfo : list parinfo_entry) : res (MP * list parinfo_entry) :=
  let num_summits := Z.of_nat (length parinfo) / 6 in
  is_flag <- island_flag parinfo ;
  '(parinfo, skipped) <-
    match max_summits with
    | Some m =>
        if (m <? Py.of_int num_summits)%float then
          parinfo <- set_notfit parinfo ;
          Ok (parinfo, Some (DummyMP parinfo None, parinfo))
        else Ok (parinfo, None)
    | None => Ok (parinfo, None)
    end ;
  if has_flag is_flag FITERRSMALL then
    parinfo <- set_notfit parinfo ;
    Ok (DummyMP parinfo None, parinfo)
  else multi_gauss lib isle rms parinfo.

(** The error vector as the loop over the components leaves it: a missing
    vector becomes zeros and sets [err]; every zero becomes -1. *)
Definition sentinel_errors (par : list float) (perr : option (list float)) (err : bool)
  : list float * bool :=
  let '(perr, err) :=
    match perr with
    | None => ((fun _ => 0%float) <$> par, true)
    | Some e => (e, err)
    end in
  ((fun e => if (e =? 0)%float then (-1)%float else e) <$> perr, err).

(** One pass of the loop [for j in range(len(params)/6)]: source [j] of the
    island, with the error vector and the [err] flag it leaves. *)
Definition report_source (img : FitsImage) (bkgimg rmsimg : ndarray float)
    (pix2arcsec cc2arcsec : float) (num_isle : Z) (i : ndarray float)
    (xmin ymin : Z) (par : list float) (info : list parinfo_entry)
    (perr : option (list float)) (err : bool) (j : nat)
  : res (OutputSource * list float * bool) :=
  let flags0 := 0 in
  let '(perr, err) := sentinel_errors par perr err in
  let flags0 := if err then Z.lor flags0 FITERR else flags0 in
  pa_info <- item info (j * 6 + 5) ;
  pa_flags <- from_option Ok (Raise KeyError) (flags pa_info) ;
  let flags0 := Z.lor flags0 pa_flags in
  p0 <- item par (j * 6) ;
  p1 <- item par (j * 6 + 1) ;
  p2 <- item par (j * 6 + 2) ;
  p3 <- item par (j * 6 + 3) ;
  p4 <- item par (j * 6 + 4) ;
  p5 <- item par (j * 6 + 5) ;
  e0 <- item perr (j * 6) ;
  e1 <- item perr (j * 6 + 1) ;
  e2 <- item perr (j * 6 + 2) ;
  e3 <- item perr (j * 6 + 3) ;
  e4 <- item perr (j * 6 + 4) ;
  e5 <- item perr (j * 6 + 5) ;
  let dec_pix := (p1 + Py.of_int xmin + 1)%float in
  let ra_pix := (p2 + Py.of_int ymin + 1)%float in
  let coords := pix2sky img (ra_pix, dec_pix) in
  let s_ra := coords.1 in
  let s_dec := coords.2 in
  let sky_err :=
    if (e1 <? 0)%float then ((-1)%float, (-1)%float)
    else
      let dec_err_pix := (dec_pix + within e1 (-1) (Py.of_int (nd_shape i).2))%float in
      let ra_err_pix := (ra_pix + within e2 (-1) (Py.of_int (nd_shape i).1))%float in
      let err_coords := pix2sky img (ra_err_pix, dec_err_pix) in
      (abs (s_ra - err_coords.1), abs (s_dec - err_coords.2)) in
  let s_err_ra := sky_err.1 in
  let s_err_dec := sky_err.2 in
  rx <- Py.int (Py.round ra_pix) ;
  ry <- Py.int (Py.round dec_pix) ;
  let x := Z.max (Z.min rx ((nd_shape bkgimg).2 - 1)) 0 in
  let y := Z.max (Z.min ry ((nd_shape bkgimg).1 - 1)) 0 in
  s_background <- nd_get bkgimg (y, x) ;
  s_local_rms <- nd_get rmsimg (y, x) ;
  let s_peak := p0 in
  let s_err_peak := e0 in
  let s_a := (p3 * cc2arcsec)%float in
  let s_err_a := if (0 <? e3)%float then (e3 * cc2arcsec)%float else e3 in
  let s_b := (p4 * cc2arcsec)%float in
  let s_err_b := if (0 <? e4)%float then (e4 * cc2arcsec)%float else e4 in
  let s_pa := (p5 * 180 / np_pi)%float in
  let s_err_pa := if (0 <? e5)%float then (e5 * (180 / np_pi))%float else e5 in
  let s_int := (s_peak * s_a * s_b
                / (Beam.a (beam img) * Beam.b (beam img) * (pix2arcsec * pix2arcsec)))%float in
  let s_err_int := (s_int * sqrt ((s_err_peak / s_peak) * (s_err_peak / s_peak)
                                  + (s_err_a / s_a) * (s_err_a / s_a)
                                  + (s_err_b / s_b) * (s_err_b / s_b)))%float in
  Ok (MkSource num_isle (Z.of_nat j) s_background s_local_rms
               (dec2hms lib s_ra) s_ra s_err_ra (dec2dms lib s_dec) s_dec s_err_dec
               s_peak s_err_peak s_int s_err_int
               s_a s_err_a s_b s_err_b s_pa s_err_pa flags0,
      perr, err).

Fixpoint report_sources (img : FitsImage) (bkgimg rmsimg : ndarray float)
    (pix2arcsec cc2arcsec : float) (num_isle : Z) (i : ndarray float)
    (xmin ymin : Z) (par : list float) (info : list parinfo_entry)
    (perr : option (list float)) (err : bool) (js : list nat)
  : res (list OutputSource) :=
  match js with
  | [] => Ok []
  | j :: js =>
      '(src, perr, err) <- report_source img bkgimg rmsimg pix2arcsec cc2arcsec
                             num_isle i xmin ymin par info perr err j ;
      rest <- report_sources img bkgimg rmsimg pix2arcsec cc2arcsec num_isle i
                xmin ymin par info (Some perr) err js ;
      Ok (src :: rest)
  end.

(** The body of the loop over the islands, for an island that is not
    skipped: its sources. *)
Definition island_sources (img : FitsImage) (dcurve bkgimg rmsimg : ndarray float)
    (pix2arcsec cc2arcsec : float) (max_summits : option float) (csigma : float)
    (num_isle : Z) (y : island_box) : res (list OutputSource) :=
  let '(i, xmin, xmax, ymin, ymax) := y in
  let isle := i in
  let icurve := nd_slice dcurve xmin (xmax + 1) ymin (ymax + 1) in
  let rms := nd_slice rmsimg xmin (xmax + 1) ymin (ymax + 1) in
  parinfo <- estimate_parinfo lib isle rms icurve (beam img) (Some csigma) ;
  '(mp, info) <- fit_island isle rms max_summits parinfo ;
  report_sources img bkgimg rmsimg pix2arcsec cc2arcsec num_isle i xmin ymin
    (params mp) info (perror mp) false (seq 0 (length (params mp) / 6)).

(** The loop over the islands: [len(i) <= 1] skips an island; [len] of a
    two-dimensional array is the length of its first axis. *)
Fixpoint islands_sources (img : FitsImage) (dcurve bkgimg rmsimg : ndarray float)
    (pix2arcsec cc2arcsec : float) (max_summits : option float) (csigma : float)
    (num_isle : Z) (ys : list island_box) : res (list OutputSource) :=
  match ys with
  | [] => Ok []
  | y :: ys =>
      if (Z.of_nat (nd_rows y.1.1.1.1) <=? 1) then
        islands_sources img dcurve bkgimg rmsimg pix2arcsec cc2arcsec
          max_summits csigma num_isle ys
      else
        let num_isle := num_isle + 1 in
        srcs <- island_sources img dcurve bkgimg rmsimg pix2arcsec cc2arcsec
                  max_summits csigma num_isle y ;
        rest <- islands_sources img dcurve bkgimg rmsimg pix2arcsec cc2arcsec
                  max_summits csigma num_isle ys ;
        Ok (srcs ++ rest)
  end.

(** [find_sources_in_image] from the loaded image on; the islands are taken
    from the generator before they are processed, which changes nothing as
    the generator touches no data that the processing reads or writes. *)
Definition find_sources_in_image (img : FitsImage) (rms max_summits csigma : option float)
    (innerclip outerclip : float) : res (list OutputSource) :=
  let data := get_pixels img in
  let dcurve := curvature lib data in
  '(bkgimg, rmsimg) <- make_bkg_rms_image lib data (beam img) 20 rms ;
  csigma <- match csigma with
            | None => rms_from_iqr lib dcurve
            | Some c => Ok c
            end ;
  let pix2arcsec := (abs (deg_per_pixel_x img) * 3600)%float in
  let cc2fwhm := (2 * sqrt (2 * log lib 2))%float in
  let cc2arcsec := (cc2fwhm * pix2arcsec)%float in
  ys <- gen_flood_wrap data rmsimg innerclip (Some outerclip) false ;
  islands_sources img dcurve bkgimg rmsimg pix2arcsec cc2arcsec max_summits
    csigma 0 ys.

End Driver.

(** ** A library to run closed examples with

    The theorems below hold for every [Lib].  To evaluate the program on
    concrete images one instance is needed: [cos] and [sin] are right at 0,
    the only beam angle the examples use, and [log] at 2, the only argument
    the program passes; the convolution reflects at the border; the median
    and the percentile score work on the sorted values; the solver moves no
    parameter and reports no errors. *)

Module Example.

Fixpoint insert_asc (v : float) (l : list float) : list float :=
  match l with
  | [] => [v]
  | w :: l' => if (w <? v)%float then w :: insert_asc v l' else v :: l
  end.

Definition sorted (l : list float) : list float := foldr insert_asc [] l.

Definition median (l : list float) : res float :=
  let s := sorted l in
  let n := length s in
  if (n =? 0)%nat then Ok nan
  else if Nat.even n then
    lo <- item s (n / 2 - 1) ;
    hi <- item s (n / 2) ;
    Ok ((lo + hi) / 2)%float
  else item s (n / 2).

Definition scoreatpercentile (l : list float) (per : float) : res float :=
  let s := sorted l in
  let idx := (per / 100 * Py.of_int (Z.of_nat (length s) - 1))%float in
  k <- Py.int idx ;
  let frac := (idx - Py.of_int k)%float in
  lo <- item s (Z.to_nat k) ;
  if (frac =? 0)%float then Ok lo
  else
    hi <- item s (Z.to_nat k + 1) ;
    Ok (lo + (hi - lo) * frac)%float.

Definition clamp (i : Z) (n : nat) : Z := Z.max 0 (Z.min i (Z.of_nat n - 1)).

Definition convolve (data : ndarray float) (kern : ndarray Z) : ndarray float :=
  NdArray (nd_rows data) (nd_cols data)
    ((fun p : pixel =>
        foldl (fun acc d : float =>  (acc + d)%float) 0%float
          (dx ← [-1; 0; 1]; dy ← [-1; 0; 1];
           match nd_get kern (1 - dx, 1 - dy),
                 nd_get data (clamp (p.1 + dx) (nd_rows data),
                              clamp (p.2 + dy) (nd_cols data)) with
           | Ok k, Ok v => [(Py.of_int k * v)%float]
           | _, _ => []
           end))
     <$> nd_indices (nd_rows data) (nd_cols data)).

Definition lib : Lib :=
  MkLib (fun _ => 1%float) (fun _ => 0%float)
        (fun _ => 0x1.62e42fefa39efp-1%float)
        convolve scoreatpercentile median
        (fun _ _ parinfo => Ok (MkMP (value <$> parinfo) None EmptyString))
        (fun _ => EmptyString) (fun _ => EmptyString).

(** The beam that [FitsImage.__init__] makes when the header names none:
    [Beam(3, 3, 0)], read as floats (a = b = 3, pa = 0, aspect = 1). *)
Definition beam : Beam.t :=
  Eval vm_compute in
    match o <- Beam.__init__ (PyInt 3) (PyInt 3) (PyInt 0) ; Beam.read o with
    | Ok beam => beam
    | _ => Beam.Make nan nan nan nan
    end.

(** An image whose sky coordinates are its pixel coordinates. *)
Definition image (pixels : ndarray float) : FitsImage :=
  MkFitsImage pixels beam 1%float (fun p => p).

End Example.

(** ** The claims that the program does not meet, as stated *)

(** Every member of a blob reaches the flood clip and its seed exceeds the
    seed clip. *)
Definition blob_clips_claim (data rmsimg : ndarray float)
    (innerclip outerclip : float) : Prop :=
  forall tr st,
    gen_flood_wrap_trace data rmsimg innerclip (Some outerclip) false = Ok (tr, st) ->
    forall y, y ∈ tr ->
      (forall p, p ∈ y.1 -> snr_ge data rmsimg outerclip p = true) /\
      (exists seed, head y.1 = Some seed /\ snr_gt data rmsimg innerclip seed = true).

(** A narrow or small island gets one summit, with FITERRSMALL on it. *)
Definition tiny_island_claim (lib : Lib) (data rmsimg curve : ndarray float)
    (beam : Beam.t) (csigma : option float) : Prop :=
  (Z.min (nd_shape data).1 (nd_shape data).2 <= 2 \/
   (length (finite_values data) < 4)%nat) ->
  exists parinfo,
    estimate_parinfo lib data rmsimg curve beam csigma = Ok parinfo /\
    length parinfo = 6%nat /\
    forall src, src ∈ parinfo -> is_shape_par src = true ->
      exists f, flags src = Some f /\ has_flag f FITERRSMALL = true.


(** ** The vocabulary of the proofs *)

(** A pixel inside an array of [rows] by [cols] cells, and its place in the
    buffer. *)
Definition inb (rows cols : nat) (p : pixel) : Prop :=
  0 <= p.1 < Z.of_nat rows /\ 0 <= p.2 < Z.of_nat cols.

Definition off (cols : nat) (p : pixel) : nat :=
  (Z.to_nat p.1 * cols + Z.to_nat p.2)%nat.

(** Number of cells whose QUEUED bit is clear: what a flood can still add to
    its queue. *)
Definition unq (l : list Z) : nat :=
  length (filter (fun s => has_flag s QUEUED = false) l).

Definition stq (st : ndarray Z) (p : pixel) : bool :=
  match nd_get st p with Ok s => has_flag s QUEUED | _ => false end.

Definition stv (st : ndarray Z) (p : pixel) : bool :=
  match nd_get st p with Ok s => has_flag s VISITED | _ => false end.

Section Invariants.
Variables (data rmsimg : ndarray float) (innerclip cutoff : float).

(** A status map of the shape of the image. *)
Definition shaped (st : ndarray Z) : Prop :=
  nd_wf st /\ nd_rows st = nd_rows data /\ nd_cols st = nd_cols data.

(** What holds of the status map, the queue still to visit and the blob
    during the flood grown from [peak], the earlier floods having produced
    the pixels [done]. *)
Record linv (done : list pixel) (peak : pixel) (st : ndarray Z)
    (queue blob : list pixel) : Prop := {
  l_shaped : shaped st;
  l_queued : forall p, inb (nd_rows data) (nd_cols data) p -> stq st p = true ->
               stv st p = true \/ p ∈ queue;
  l_queue : forall p, p ∈ queue ->
               inb (nd_rows data) (nd_cols data) p /\
               stq st p = true /\ stv st p = false;
  l_nodup_q : NoDup queue;
  l_visited : forall p, p ∈ done ++ blob <->
               inb (nd_rows data) (nd_cols data) p /\ stv st p = true;
  l_nodup : NoDup (done ++ blob);
  l_vq : forall p, inb (nd_rows data) (nd_cols data) p -> stv st p = true ->
               stq st p = true;
  l_snr : forall p, p ∈ blob ++ queue ->
               p = peak \/ snr_ge data rmsimg cutoff p = true;
  l_head : exists tl, blob ++ queue = peak :: tl
}.

(** What holds of the status map between two floods, [done] being the pixels
    of the blobs grown so far, in the order in which they were marked. *)
Record ginv (st : ndarray Z) (done : list pixel) : Prop := {
  g_shaped : shaped st;
  g_qv : forall p, inb (nd_rows data) (nd_cols data) p -> stq st p = true ->
               stv st p = true;
  g_vq : forall p, inb (nd_rows data) (nd_cols data) p -> stv st p = true ->
               stq st p = true;
  g_visited : forall p, p ∈ done <->
               inb (nd_rows data) (nd_cols data) p /\ stv st p = true;
  g_nodup : NoDup done
}.

(** A blob that the generator turns into an island: it starts with its seed,
    which passed the seed clip; every pixel after the seed passed the flood
    clip; the island is [list2map] of the blob. *)
Definition grown (y : list pixel * island_box) : Prop :=
  (exists seed tl, y.1 = seed :: tl /\
     snr_gt data rmsimg innerclip seed = true /\
     Forall (fun p => snr_ge data rmsimg cutoff p = true) tl) /\
  Island.list2map data y.1 = Ok y.2.

End Invariants.

(** The error vector is all sentinels once a missing vector went through the
    sentinel pass, and stays so. *)
Definition unfitted (perr : option (list float)) (err : bool) : Prop :=
  match perr with
  | None => True
  | Some e => Forall (fun v => v = (-1)%float) e /\ err = true
  end.

(** What the driver reports of a component whose errors are all undefined. *)
Definition unfitted_source (s : OutputSource) : Prop :=
  has_flag (src_flags s) FITERR = true /\
  err_ra s = (-1)%float /\ err_dec s = (-1)%float /\
  err_peak_flux s = (-1)%float /\ err_a s = (-1)%float /\
  err_b s = (-1)%float /\ err_pa s = (-1)%float.

(** ** The image file (fits_image.py and [load_pixels])

    The methods of [FitsImage] that work on the pixels, as functions of what
    they read of the object: the header values and the pixel array.  The
    header values are taken as floats; BLANK is an integer that a float
    holds exactly. *)

(** [1e-9] and [-9999999] as the binary64 numbers Python reads. *)
Definition c1e_9 : float := 0x1.12e0be826d695p-30%float.
Definition c_9999999 : float := (-0x1.312cfep+23)%float.

(** [FitsImage.wrangle_nans(self)] on the pixel array: the pixels that are
    within [1e-9] of the blank value become NaN. *)
Definition wrangle_nans (blank_hdr bscale bzero : float) (pixels : ndarray float)
  : ndarray float :=
  let blank := (blank_hdr * bscale + bzero)%float in
  NdArray (nd_rows pixels) (nd_cols pixels)
    ((fun v => if (abs (v - blank) <? c1e_9)%float then nan else v)
       <$> nd_buf pixels).

(** [FitsImage.get_background_rms(self)] when no value is cached yet. *)
Definition get_background_rms (lib : Lib) (hdu_data : ndarray float) : res float :=
  let data := filter (fun v => (c_9999999 <? v)%float = true) (nd_buf hdu_data) in
  p25 <- scoreatpercentile lib data 25%float ;
  p75 <- scoreatpercentile lib data 75%float ;
  let iqr := (p75 - p25)%float in
  Ok (iqr / c1_34896)%float.

(** [load_pixels(filename, region)] from the pixels of the file on: a region
    of four numbers is cut out, rows by its last two and columns by its
    first two; any other region leaves the pixels as they are. *)
Definition load_pixels (pixels : ndarray float) (region : option (list Z))
  : ndarray float :=
  match region with
  | Some [c; d; a; b] => nd_slice pixels a b c d
  | _ => pixels
  end.

(** ** More vocabulary: the shape of blobs *)

(** Two pixels that share a side. *)
Definition adjacent (p q : pixel) : Prop :=
  Z.abs (p.1 - q.1) + Z.abs (p.2 - q.2) = 1.

(** Every pixel of the list but the first shares a side with a pixel that
    comes before it. *)
Definition grown_from_seed (blob : list pixel) : Prop :=
  forall i q, blob !! i = Some q -> (0 < i)%nat ->
    exists j p, (j < i)%nat /\ blob !! j = Some p /\ adjacent p q.

(** A set of pixels that a flood at the clip [cutoff] cannot grow out of:
    it holds every pixel of the image that shares a side with one of its
    pixels and whose signal to noise reaches the clip. *)
Definition closed_under_growth (data rmsimg : ndarray float) (cutoff : float)
    (vis : list pixel) : Prop :=
  forall p q, p ∈ vis -> inb (nd_rows data) (nd_cols data) q -> adjacent p q ->
    snr_ge data rmsimg cutoff q = true -> q ∈ vis.

(** The status map that [gen_flood_wrap] starts from. *)
Definition initial_status (data rmsimg : ndarray float) (innerclip : float)
  : ndarray Z :=
  NdArray (nd_rows data) (nd_cols data)
    ((fun p => if snr_gt data rmsimg innerclip p then 0 + PEAKED else 0 + 0)
       <$> nd_indices (nd_rows data) (nd_cols data)).

(** ** More vocabulary: the parameters of one summit *)

(** The six dictionaries that the estimator appends for summit number [i]
    of an island whose size flag is [is_flag]: their names, which of them
    carry flags and which are held fixed. *)
Definition summit_entries (i : nat) (is_flag : Z) (g : list parinfo_entry) : Prop :=
  exists e_amp e_xo e_yo e_dx e_dy e_pa f,
    g = [e_amp; e_xo; e_yo; e_dx; e_dy; e_pa] /\
    (parname e_amp = (str_of_nat i ++ ":amp")%string /\
     parname e_xo = (str_of_nat i ++ ":xo")%string /\
     parname e_yo = (str_of_nat i ++ ":yo")%string /\
     parname e_dx = (str_of_nat i ++ ":dx")%string /\
     parname e_dy = (str_of_nat i ++ ":dy")%string /\
     parname e_pa = (str_of_nat i ++ ":pa")%string) /\
    (flags e_amp = None /\ flags e_xo = None /\ flags e_yo = None /\
     flags e_dx = Some f /\ flags e_dy = Some f /\ flags e_pa = Some f) /\
    (f = is_flag \/ f = Z.lor is_flag FIXED2PSF) /\
    (fixed e_amp = false /\ fixed e_xo = false /\ fixed e_yo = false /\
     fixed e_dx = has_flag f FIXED2PSF /\ fixed e_dy = has_flag f FIXED2PSF /\
     fixed e_pa = has_flag f FIXED2PSF) /\
    value e_pa = 0%float /\ limited e_pa = (false, false).

(** ** More vocabulary: boxes along an axis *)

(** The boxes follow one another from [lo] to [hi]: each starts where the
    one before it ends, and none has a negative extent. *)
Fixpoint tiles (lo : Z) (boxes : list (Z * Z)) (hi : Z) : Prop :=
  match boxes with
  | [] => lo = hi
  | box :: rest => box.1 = lo /\ box.1 <= box.2 /\ tiles box.2 rest hi
  end.

(** ** More vocabulary: the order of the seeds *)

(** A list of flux tuples in which no tuple is below one that follows it. *)
Fixpoint desc_sorted (l : list (float * Z * Z)) : Prop :=
  match l with
  | [] => True
  | a :: rest => Forall (fun b => peak_lt a b = false) rest /\ desc_sorted rest
  end.

(** The flux of the image at [q] is not above its flux at [p]. *)
Definition not_fainter (data : ndarray float) (p q : pixel) : Prop :=
  forall a b, nd_get data p = Ok a -> nd_get data q = Ok b -> (a <? b)%float = false.

(** A list of pixels along which the flux of the image never rises. *)
Fixpoint falling (data : ndarray float) (seeds : list pixel) : Prop :=
  match seeds with
  | [] => True
  | p :: rest => Forall (not_fainter data p) rest /\ falling data rest
  end.

(** ** More vocabulary: the errors of a source *)

(** The sentinel pass on one entry of the error vector. *)
Definition sentinel (e : float) : float :=
  if (e =? 0)%float then (-1)%float else e.

(** How the errors of peak flux, axes and angle of source [j] come from the
    error vector [pe]: the peak error is its entry; an axis or angle error is
    its entry, in the units of the catalogue when it is positive. *)
Definition reported (pe : list float) (cc2arcsec : float) (j : nat)
    (src : OutputSource) : Prop :=
  exists e0 e3 e4 e5,
    pe !! (j * 6)%nat = Some e0 /\ pe !! (j * 6 + 3)%nat = Some e3 /\
    pe !! (j * 6 + 4)%nat = Some e4 /\ pe !! (j * 6 + 5)%nat = Some e5 /\
    err_peak_flux src = e0 /\
    err_a src = (if (0 <? e3)%float then (e3 * cc2arcsec)%float else e3) /\
    err_b src = (if (0 <? e4)%float then (e4 * cc2arcsec)%float else e4) /\
    err_pa src = (if (0 <? e5)%float then (e5 * (180 / np_pi))%float else e5).

(** C9 as stated, on the sources of one island: a missing error vector
    flags every source FITERR, and no error that is put out is zero. *)
Definition no_zero_error_claim (lib : Lib) (img : FitsImage)
    (bkgimg rmsimg : ndarray float) (pix2arcsec cc2arcsec : float)
    (num_isle : Z) (i : ndarray float) (xmin ymin : Z) (par : list float)
    (info : list parinfo_entry) (perr : option (list float)) (js : list nat)
  : Prop :=
  forall srcs,
    report_sources lib img bkgimg rmsimg pix2arcsec cc2arcsec num_isle i xmin ymin
      par info perr false js = Ok srcs ->
    (perr = None -> Forall (fun s => has_flag (src_flags s) FITERR = true) srcs) /\
    Forall (fun s =>
              (err_ra s =? 0)%float = false /\ (err_dec s =? 0)%float = false /\
              (err_peak_flux s =? 0)%float = false /\
              (err_int_flux s =? 0)%float = false /\
              (err_a s =? 0)%float = false /\ (err_b s =? 0)%float = false /\
              (err_pa s =? 0)%float = false) srcs.

(** * Properties *)

(** ** The embedding at work *)

Example int_truncates_toward_zero :
  Py.int (-0.75)%float = Ok 0 /\ Py.int 7.5%float = Ok 7 /\
  Py.int (-7.5)%float = Ok (-7) /\ Py.int nan = Raise ValueError.
Proof. repeat split. Qed.

Example round_halves_away_from_zero :
  Py.round 2.5%float = 3%float /\ Py.round (-2.5)%float = (-3)%float /\
  Py.round 2.25%float = 2%float /\ Py.round 1e20%float = 1e20%float.
Proof. repeat split. Qed.

Example min_max_keep_first_on_nan :
  Py.max nan (-1)%float = nan /\ Py.max (-1)%float nan = (-1)%float /\
  within 7 (-1) 3 = 3%float /\ within (-1) (-1) 3 = (-1)%float.
Proof. repeat split. Qed.

Example negative_index_counts_from_the_end :
  nd_get (NdArray 2 2 [1; 2; 3; 4]%float) (-1, 0) = Ok 3%float /\
  nd_get (NdArray 2 2 [1; 2; 3; 4]%float) (2, 0) = Raise IndexError.
Proof. repeat split. Qed.

Example list2map_of_three_pixels :
  Island.list2map (NdArray 3 3 [1; 2; 3; 4; 5; 6; 7; 8; 9]%float)
                  [(1, 1); (2, 1); (1, 2)]
  = Ok (NdArray 2 2 [5; 6; 8; nan]%float, 1, 2, 1, 2).
Proof. reflexivity. Qed.

(** Two islands: the brightest peak first, with its single pixel; then the
    blob of three pixels grown from the peak of flux 7. *)
Example gen_flood_wrap_of_a_small_image :
  gen_flood_wrap (NdArray 3 4 [1; 6; 4.5; 1; 1; 1; 7; 1; 9; 1; 1; 1]%float)
                 (nd_full 3 4 1%float) 5%float (Some 4%float) false
  = Ok [ (NdArray 1 1 [9%float], 2, 2, 0, 0);
         (NdArray 2 2 [6; 4.5; nan; 7]%float, 0, 1, 1, 2) ].
Proof. reflexivity. Qed.

Example mesh_of_a_wide_axis :
  mesh_bounds 100 60 = Ok [(0, 20); (20, 80); (80, 100)] /\
  mesh_bounds 50 60 = Ok [(0, 50)] /\
  mesh_bounds 50 0 = Raise ZeroDivisionError.
Proof. repeat split. Qed.

(** ** Order of binary64 numbers *)

Lemma cmp_Z_cases e1 e2 :
  match Z.compare e1 e2 with
  | Lt => e1 < e2
  | Eq => e1 = e2
  | Gt => e2 < e1
  end.
Proof. destruct (Z.compare_spec e1 e2); lia. Qed.

Lemma cmp_pos_cases m1 m2 :
  match Pos.compare_cont Eq m1 m2 with
  | Lt => (m1 < m2)%positive
  | Eq => m1 = m2
  | Gt => (m2 < m1)%positive
  end.
Proof.
  change (Pos.compare_cont Eq m1 m2) with (Pos.compare m1 m2).
  destruct (Pos.compare_spec m1 m2); lia.
Qed.

Ltac cmp_cases :=
  repeat match goal with
  | |- context [Z.compare ?a ?b] =>
      pose proof (cmp_Z_cases a b); destruct (Z.compare a b)
  | |- context [Pos.compare_cont Eq ?a ?b] =>
      pose proof (cmp_pos_cases a b); destruct (Pos.compare_cont Eq a b)
  | H : context [Z.compare ?a ?b] |- _ =>
      pose proof (cmp_Z_cases a b); destruct (Z.compare a b)
  | H : context [Pos.compare_cont Eq ?a ?b] |- _ =>
      pose proof (cmp_pos_cases a b); destruct (Pos.compare_cont Eq a b)
  end.

Lemma SF_le_lt_trans x y z :
  SFleb x y = true -> SFltb y z = true -> SFleb x z = true.
Proof.
  unfold SFleb, SFltb, SFcompare.
  destruct x as [sx|sx| |sx mx ex], y as [sy|sy| |sy my ey], z as [sz|sz| |sz mz ez];
    try destruct sx; try destruct sy; try destruct sz; simpl; try congruence;
    intros H1 H2; cmp_cases; subst; simpl in *; try congruence; try lia.
Qed.

Lemma SF_lt_asym x y : SFltb x y = true -> SFltb y x = false.
Proof.
  unfold SFltb, SFcompare.
  destruct x as [sx|sx| |sx mx ex], y as [sy|sy| |sy my ey];
    try destruct sx; try destruct sy; simpl; try congruence;
    intros H1; cmp_cases; subst; simpl in *; try congruence; try lia.
Qed.

Lemma float_le_lt_trans (x y z : float) :
  (x <=? y)%float = true -> (y <? z)%float = true -> (x <=? z)%float = true.
Proof. rewrite !leb_spec, ltb_spec. apply SF_le_lt_trans. Qed.

Lemma float_lt_asym (x y : float) :
  (x <? y)%float = true -> (y <? x)%float = false.
Proof. rewrite !ltb_spec. apply SF_lt_asym. Qed.

Lemma SF_le_not_lt x y : SFleb x y = true -> SFltb y x = false.
Proof.
  unfold SFleb, SFltb, SFcompare.
  destruct x as [sx|sx| |sx mx ex], y as [sy|sy| |sy my ey];
    try destruct sx; try destruct sy; simpl; try congruence;
    intros H1; cmp_cases; subst; simpl in *; try congruence; try lia.
Qed.

Lemma SF_not_lt_le x y :
  SFltb x y = false -> SFeqb x x = true -> SFeqb y y = true -> SFleb y x = true.
Proof.
  unfold SFleb, SFltb, SFeqb, SFcompare.
  destruct x as [sx|sx| |sx mx ex], y as [sy|sy| |sy my ey];
    try destruct sx; try destruct sy; simpl; try congruence;
    intros H1 _ _; cmp_cases; subst; simpl in *; try congruence; try lia.
Qed.

Lemma SF_le_refl x y : SFleb x y = true -> SFeqb x x = true /\ SFeqb y y = true.
Proof.
  unfold SFleb, SFeqb, SFcompare.
  destruct x as [sx|sx| |sx mx ex], y as [sy|sy| |sy my ey];
    try destruct sx; try destruct sy; simpl; try congruence; intros _;
    rewrite ?Z.compare_refl, ?Pos.compare_cont_refl; simpl; auto.
Qed.

(** On numbers that are not NaN the order is total. *)
Lemma float_not_lt_le (x y : float) :
  (x <? y)%float = false -> (x =? x)%float = true -> (y =? y)%float = true ->
  (y <=? x)%float = true.
Proof. rewrite ltb_spec, !FloatAxioms.eqb_spec, leb_spec. apply SF_not_lt_le. Qed.

Lemma float_le_not_lt (x y : float) :
  (x <=? y)%float = true -> (y <? x)%float = false.
Proof. rewrite ltb_spec, leb_spec. apply SF_le_not_lt. Qed.

Lemma float_le_self (x y : float) :
  (x <=? y)%float = true -> (x =? x)%float = true /\ (y =? y)%float = true.
Proof. rewrite leb_spec, !FloatAxioms.eqb_spec. apply SF_le_refl. Qed.

Lemma float_eq_le (x : float) : (x =? x)%float = true -> (x <=? x)%float = true.
Proof.
  rewrite FloatAxioms.eqb_spec, leb_spec. unfold SFeqb, SFleb.
  by destruct (SFcompare (Prim2SF x) (Prim2SF x)) as [[]|].
Qed.

(** ** Arrays *)

Lemma py_index_inb i n : 0 <= i < Z.of_nat n -> py_index i n = Some (Z.to_nat i).
Proof.
  intros H. unfold py_index.
  destruct (Z.leb_spec 0 i); [|lia]. destruct (Z.ltb_spec i (Z.of_nat n)); [done|lia].
Qed.

Lemma off_lt rows cols p : inb rows cols p -> (off cols p < rows * cols)%nat.
Proof. destruct p as [x y]; unfold inb, off; simpl. intros [H1 H2]. nia. Qed.

Lemma off_inj rows cols p q :
  inb rows cols p -> inb rows cols q -> off cols p = off cols q -> p = q.
Proof.
  destruct p as [x y], q as [x' y']; unfold inb, off; simpl.
  intros [H1 H2] [H3 H4] H.
  assert (Z.to_nat x = Z.to_nat x') by nia.
  assert (Z.to_nat y = Z.to_nat y') by nia.
  f_equal; lia.
Qed.

Section NdArray.
Context {A : Type}.
Implicit Types (a : ndarray A) (p q : pixel) (v : A).

Lemma nd_offset_inb a p :
  inb (nd_rows a) (nd_cols a) p -> nd_offset a p = Some (off (nd_cols a) p).
Proof.
  intros [H1 H2]. unfold nd_offset.
  by rewrite (py_index_inb _ _ H1), (py_index_inb _ _ H2).
Qed.

Lemma nd_get_inb a p :
  nd_wf a -> inb (nd_rows a) (nd_cols a) p -> exists v, nd_get a p = Ok v.
Proof.
  intros Hwf Hp. unfold nd_get. rewrite (nd_offset_inb _ _ Hp).
  destruct (lookup_lt_is_Some_2 (nd_buf a) (off (nd_cols a) p)) as [v Hv].
  { rewrite Hwf. by eapply off_lt. }
  exists v. by rewrite Hv.
Qed.

Lemma nd_get_elem a p v : nd_get a p = Ok v -> v ∈ nd_buf a.
Proof.
  unfold nd_get. destruct (nd_offset a p) as [k|]; [|done].
  destruct (nd_buf a !! k) as [w|] eqn:E; [|done].
  intros [= <-]. by eapply list_elem_of_lookup_2.
Qed.

(** Writing a cell inside the array succeeds, keeps the shape, is read back,
    and leaves the other cells alone. *)
Lemma nd_set_inb a p v :
  nd_wf a -> inb (nd_rows a) (nd_cols a) p ->
  exists a', nd_set a p v = Ok a' /\ nd_wf a' /\
    nd_rows a' = nd_rows a /\ nd_cols a' = nd_cols a /\
    nd_buf a' = <[off (nd_cols a) p := v]> (nd_buf a) /\
    nd_get a' p = Ok v /\
    (forall q, inb (nd_rows a) (nd_cols a) q -> q <> p -> nd_get a' q = nd_get a q).
Proof.
  intros Hwf Hp. unfold nd_set. rewrite (nd_offset_inb _ _ Hp).
  pose proof (off_lt _ _ _ Hp) as Hlt.
  destruct (decide _) as [_|Hn]; [|rewrite Hwf in Hn; lia].
  eexists. split; [reflexivity|].
  split; [unfold nd_wf; simpl; by rewrite length_insert|].
  do 3 (split; [reflexivity|]).
  split.
  - unfold nd_get. rewrite nd_offset_inb by done. simpl.
    rewrite list_lookup_insert_eq; [done | rewrite Hwf; lia].
  - intros q Hq Hne. unfold nd_get.
    rewrite !nd_offset_inb by done. simpl.
    rewrite list_lookup_insert_ne; [done|].
    intros Heq. apply Hne. symmetry. by eapply off_inj.
Qed.

End NdArray.

Lemma nd_get_lookup {A} (a : ndarray A) p v :
  inb (nd_rows a) (nd_cols a) p ->
  nd_get a p = Ok v -> nd_buf a !! off (nd_cols a) p = Some v.
Proof.
  intros Hp. unfold nd_get. rewrite (nd_offset_inb _ _ Hp).
  destruct (nd_buf a !! _); [by intros [= ->]|done].
Qed.

(** ** Status bits *)

Lemma has_flag_lor_same s f : f <> 0 -> has_flag (Z.lor s f) f = true.
Proof.
  intros Hf. unfold has_flag. rewrite Z.land_lor_distr_l, Z.land_diag.
  apply negb_true_iff, Z.eqb_neq. rewrite Z.lor_eq_0_iff. tauto.
Qed.

Lemma has_flag_lor_other s f g :
  Z.land f g = 0 -> has_flag (Z.lor s f) g = has_flag s g.
Proof.
  intros H. unfold has_flag. by rewrite Z.land_lor_distr_l, H, Z.lor_0_r.
Qed.

Lemma unq_le l : (unq l <= length l)%nat.
Proof. apply length_filter. Qed.

Lemma unq_insert_same l k s v :
  l !! k = Some s -> has_flag v QUEUED = has_flag s QUEUED ->
  unq (<[k := v]> l) = unq l.
Proof.
  unfold unq. revert k. induction l as [|x l IH]; intros [|k] Hk Hv; simplify_eq/=.
  - rewrite !filter_cons.
    destruct (decide (has_flag v QUEUED = false)),
      (decide (has_flag s QUEUED = false)); simpl; congruence.
  - rewrite !filter_cons. destruct (decide _); simpl; by rewrite (IH k).
Qed.

Lemma unq_insert_set l k s v :
  l !! k = Some s -> has_flag s QUEUED = false -> has_flag v QUEUED = true ->
  S (unq (<[k := v]> l)) = unq l.
Proof.
  unfold unq. revert k. induction l as [|x l IH]; intros [|k] Hk Hs Hv; simplify_eq/=.
  - rewrite !filter_cons.
    destruct (decide (has_flag v QUEUED = false)); [congruence|].
    destruct (decide (has_flag s QUEUED = false)); [done|congruence].
  - rewrite !filter_cons. destruct (decide _); simpl; by rewrite <- (IH k).
Qed.

(** ** The flood fill keeps its books *)

Section Flood.
Variables (data rmsimg : ndarray float) (cutoff : float).
Hypothesis Hdata : nd_wf data.
Hypothesis Hrms : nd_wf rmsimg.
Hypothesis Hrows : nd_rows rmsimg = nd_rows data.
Hypothesis Hcols : nd_cols rmsimg = nd_cols data.

Abbreviation rows := (nd_rows data).
Abbreviation cols := (nd_cols data).
Abbreviation bounds := (Z.of_nat rows - 1, Z.of_nat cols - 1).
Abbreviation inside := (inb rows cols).

Lemma status_get st p :
  shaped data st -> inside p ->
  exists s, nd_get st p = Ok s /\ nd_buf st !! off cols p = Some s.
Proof.
  intros (Hwf & Hr & Hc) Hp.
  destruct (nd_get_inb st p) as [s Hs]; [done|by rewrite Hr, Hc|].
  exists s. split; [done|]. rewrite <- Hc. apply nd_get_lookup; [|done].
  by rewrite Hr, Hc.
Qed.

Lemma status_set st p v :
  shaped data st -> inside p ->
  exists st', nd_set st p v = Ok st' /\ shaped data st' /\
    nd_buf st' = <[off cols p := v]> (nd_buf st) /\
    (forall q, inside q ->
       stq st' q = if decide (q = p) then has_flag v QUEUED else stq st q) /\
    (forall q, inside q ->
       stv st' q = if decide (q = p) then has_flag v VISITED else stv st q).
Proof.
  intros (Hwf & Hr & Hc) Hp.
  destruct (nd_set_inb st p v) as (st' & Hset & Hwf' & Hr' & Hc' & Hbuf & Hsame & Hother);
    [done|by rewrite Hr, Hc|].
  exists st'. split; [done|]. split; [split; [done|split; congruence]|].
  split; [by rewrite Hbuf, Hc|].
  split; intros q Hq; unfold stq, stv; destruct (decide (q = p)) as [->|Hne];
    rewrite ?Hsame; try done; rewrite Hother; try done; by rewrite Hr, Hc.
Qed.

Lemma explore_one_inv done peak st queue blob new :
  linv data rmsimg cutoff done peak st queue blob -> inside new ->
  exists st' queue',
    explore_one data rmsimg cutoff (st, queue) new = Ok (st', queue') /\
    linv data rmsimg cutoff done peak st' queue' blob /\
    (length queue' + unq (nd_buf st') = length queue + unq (nd_buf st))%nat.
Proof.
  intros L Hnew. pose proof L as L'. destruct L'. unfold explore_one.
  destruct (status_get st new) as (s & Hs & Hbuf); [done..|].
  rewrite Hs; simpl.
  destruct (has_flag s QUEUED) eqn:Hq.
  { by exists st, queue. }
  destruct (nd_get_inb data new) as [d Hd]; [done..|].
  destruct (nd_get_inb rmsimg new) as [r Hr]; [done|by rewrite Hrows, Hcols|].
  rewrite Hd, Hr; simpl.
  destruct (cutoff <=? d / r)%float eqn:Hsnr.
  2:{ by exists st, queue. }
  destruct (status_set st new (Z.lor s QUEUED)) as (st' & Hset & Hsh & Hb & Hq' & Hv');
    [done..|].
  rewrite Hset; simpl.
  assert (Hnq : stq st new = false) by (unfold stq; by rewrite Hs).
  assert (Hnv : stv st new = false).
  { destruct (stv st new) eqn:E; [|done]. rewrite l_vq0 in Hnq; done. }
  assert (HQ : has_flag (Z.lor s QUEUED) QUEUED = true) by by apply has_flag_lor_same.
  assert (HV : has_flag (Z.lor s QUEUED) VISITED = has_flag s VISITED)
    by by apply has_flag_lor_other.
  assert (Hstv : forall q, inside q -> stv st' q = stv st q).
  { intros q Hq0. rewrite Hv' by done. destruct (decide _) as [->|]; [|done].
    rewrite HV. unfold stv. by rewrite Hs. }
  exists st', (queue ++ [new]). split; [done|]. split; [split|].
  - done.
  - intros p Hp. rewrite Hq', Hstv by done. rewrite elem_of_app, list_elem_of_singleton.
    destruct (decide _); [tauto|]. intros H. destruct (l_queued0 p Hp H); tauto.
  - intros p. rewrite elem_of_app, list_elem_of_singleton. intros [Hin| ->].
    + destruct (l_queue0 p Hin) as (? & ? & ?).
      rewrite Hq', Hstv by done. destruct (decide _) as [->|]; [congruence|done].
    + rewrite Hq', Hstv by done. destruct (decide _); [done|congruence].
  - apply NoDup_app. split; [done|]. split; [|apply NoDup_singleton].
    intros p Hin ->%list_elem_of_singleton.
    destruct (l_queue0 new Hin) as (? & ? & ?). congruence.
  - intros p. rewrite l_visited0. split; intros [? ?]; (split; [done|]).
    + by rewrite Hstv.
    + by rewrite <- Hstv.
  - done.
  - intros p Hp. rewrite Hq', Hstv by done.
    destruct (decide _); [done|]. by apply l_vq0.
  - intros p. rewrite app_assoc, elem_of_app, list_elem_of_singleton.
    intros [Hin| ->]; [by apply l_snr0|]. right. unfold snr_ge. by rewrite Hd, Hr.
  - destruct l_head0 as [tl Htl]. exists (tl ++ [new]).
    by rewrite app_assoc, Htl.
  - rewrite Hb, length_app; simpl.
    rewrite <- (unq_insert_set (nd_buf st) (off cols new) s (Z.lor s QUEUED)) by done.
    lia.
Qed.

Lemma neighbours_inside p :
  inside p -> Forall inside (neighbours bounds p).
Proof.
  destruct p as [x y]. intros [Hx Hy]; simpl in *. unfold neighbours; simpl.
  rewrite !Forall_app.
  destruct (Z.ltb_spec 0 x), (Z.ltb_spec x (Z.of_nat rows - 1)),
    (Z.ltb_spec 0 y), (Z.ltb_spec y (Z.of_nat cols - 1));
    repeat split; try apply Forall_nil_2;
    apply Forall_singleton; split; simpl; lia.
Qed.

Lemma explore_fold_inv done peak blob l :
  Forall inside l -> forall st queue,
  linv data rmsimg cutoff done peak st queue blob ->
  exists st' queue',
    foldl (fun acc new => sq <- acc ; explore_one data rmsimg cutoff sq new)
          (Ok (st, queue)) l = Ok (st', queue') /\
    linv data rmsimg cutoff done peak st' queue' blob /\
    (length queue' + unq (nd_buf st') = length queue + unq (nd_buf st))%nat.
Proof.
  induction 1 as [|new l Hnew _ IH]; intros st queue L; cbn [foldl bind].
  - by exists st, queue.
  - destruct (explore_one_inv _ _ _ _ _ _ L Hnew) as (st1 & q1 & -> & L1 & Hm1).
    destruct (IH _ _ L1) as (st2 & q2 & -> & L2 & Hm2).
    exists st2, q2. split; [done|]. split; [done|lia].
Qed.

Lemma explore_inv done peak st queue blob p :
  linv data rmsimg cutoff done peak st queue blob -> inside p ->
  exists st' queue',
    explore data rmsimg st queue bounds cutoff p = Ok (st', queue') /\
    linv data rmsimg cutoff done peak st' queue' blob /\
    (length queue' + unq (nd_buf st') = length queue + unq (nd_buf st))%nat.
Proof.
  intros L Hp. unfold explore.
  destruct Hp as [Hx Hy].
  destruct (Z.ltb_spec p.1 0); [lia|]. destruct (Z.ltb_spec p.2 0); [lia|]. simpl.
  apply explore_fold_inv; [|done]. by apply neighbours_inside.
Qed.

(** Visiting the head of the queue: it is marked VISITED and joins the blob. *)
Lemma visit_inv done peak st p queue blob s :
  linv data rmsimg cutoff done peak st (p :: queue) blob -> nd_get st p = Ok s ->
  has_flag s VISITED = false /\
  exists st', nd_set st p (Z.lor s VISITED) = Ok st' /\
    linv data rmsimg cutoff done peak st' queue (blob ++ [p]) /\
    unq (nd_buf st') = unq (nd_buf st).
Proof.
  intros L Hs. pose proof L as L'. destruct L'.
  destruct (l_queue0 p) as (Hp & Hpq & Hpv); [left|].
  assert (Hsv : has_flag s VISITED = false) by (unfold stv in Hpv; by rewrite Hs in Hpv).
  assert (Hsq : has_flag s QUEUED = true) by (unfold stq in Hpq; by rewrite Hs in Hpq).
  split; [done|].
  destruct (status_set st p (Z.lor s VISITED)) as (st' & Hset & Hsh & Hb & Hq' & Hv');
    [done..|].
  assert (HV : has_flag (Z.lor s VISITED) VISITED = true) by by apply has_flag_lor_same.
  assert (HQ : has_flag (Z.lor s VISITED) QUEUED = has_flag s QUEUED)
    by by apply has_flag_lor_other.
  assert (Hstq : forall q, inside q -> stq st' q = stq st q).
  { intros q Hq0. rewrite Hq' by done. destruct (decide _) as [->|]; [|done]. congruence. }
  apply NoDup_cons in l_nodup_q0 as [Hnotin Hnd].
  exists st'. split; [done|]. split; [split|].
  - done.
  - intros q Hq. rewrite Hstq, Hv' by done. intros H.
    destruct (decide _) as [->|Hne]; [by left|].
    destruct (l_queued0 q Hq H) as [?|Hin]; [by left|].
    apply elem_of_cons in Hin as [?|?]; [done|by right].
  - intros q Hin. destruct (l_queue0 q) as (? & ? & ?); [by right|].
    rewrite Hstq, Hv' by done. destruct (decide _) as [->|]; [done|done].
  - done.
  - intros q. rewrite app_assoc, elem_of_app, list_elem_of_singleton, l_visited0.
    split.
    + intros [[? ?]| ->]; (split; [done|]); rewrite Hv' by done;
        destruct (decide _); done.
    + intros [Hq Hqv]. rewrite Hv' in Hqv by done.
      destruct (decide _); [by right|by left].
  - rewrite app_assoc. apply NoDup_app. split; [done|]. split; [|apply NoDup_singleton].
    intros q Hin ->%list_elem_of_singleton.
    apply l_visited0 in Hin as [_ ?]. congruence.
  - intros q Hq. rewrite Hstq, Hv' by done.
    destruct (decide _) as [->|]; [done|]. by apply l_vq0.
  - intros q Hin. apply l_snr0. rewrite <- app_assoc in Hin. done.
  - destruct l_head0 as [tl Htl]. exists tl. by rewrite <- app_assoc.
  - rewrite Hb. destruct (status_get st p) as (s' & Hs' & Hbuf); [done..|].
    rewrite Hs in Hs'. injection Hs' as <-.
    by apply unq_insert_same with s.
Qed.

(** The loop of [flood] ends within its bound, with an empty queue. *)
Lemma flood_loop_inv done peak fuel :
  forall st queue blob,
  linv data rmsimg cutoff done peak st queue blob ->
  (length queue + unq (nd_buf st) <= fuel)%nat ->
  exists blob' st',
    flood_loop fuel data rmsimg bounds cutoff st queue blob = Ok (blob', st') /\
    linv data rmsimg cutoff done peak st' [] blob'.
Proof.
  induction fuel as [|fuel IH]; intros st queue blob L Hm.
  - destruct queue; [|simpl in Hm; lia]. by exists blob, st.
  - destruct queue as [|p queue]; [by exists blob, st|]. cbn [flood_loop].
    destruct (l_queue _ _ _ _ _ _ _ _ L p) as (Hp & _); [left|].
    destruct (status_get st p) as (s & Hs & _); [by destruct L|done|].
    rewrite Hs; cbn [bind].
    destruct (visit_inv _ _ _ _ _ _ _ L Hs) as (-> & st1 & -> & L1 & Hu1). cbn [bind].
    destruct (explore_inv _ _ _ _ _ _ L1 Hp) as (st2 & q2 & -> & L2 & Hm2). cbn [bind fst snd].
    apply IH; [done|]. simpl in Hm. lia.
Qed.

Lemma flood_inv done st peak :
  ginv data st done -> inside peak ->
  exists blob st',
    flood data rmsimg st bounds peak cutoff = Ok (blob, st') /\
    ginv data st' (done ++ blob) /\
    (stv st peak = true -> blob = [] /\ st' = st) /\
    (stv st peak = false ->
       exists tl, blob = peak :: tl /\
         Forall (fun p => snr_ge data rmsimg cutoff p = true) tl).
Proof.
  intros G Hpeak. pose proof G as G'. destruct G'. unfold flood.
  destruct (status_get st peak) as (s & Hs & Hbuf); [done..|].
  rewrite Hs; cbn [bind].
  assert (Hv : stv st peak = has_flag s VISITED) by (unfold stv; by rewrite Hs).
  destruct (has_flag s VISITED) eqn:Hsv.
  { exists [], st. rewrite app_nil_r.
    split; [done|]. split; [done|]. split; [done|]. intros Hf. congruence. }
  assert (Hq : has_flag s QUEUED = false).
  { destruct (has_flag s QUEUED) eqn:E; [|done].
    rewrite g_qv0 in Hv; [done..|]. unfold stq. by rewrite Hs. }
  destruct (status_set st peak (Z.lor s QUEUED)) as (st0 & -> & Hsh & Hb & Hq' & Hv');
    [done..|].
  cbn [bind].
  assert (HQ : has_flag (Z.lor s QUEUED) QUEUED = true) by by apply has_flag_lor_same.
  assert (HV : has_flag (Z.lor s QUEUED) VISITED = has_flag s VISITED)
    by by apply has_flag_lor_other.
  assert (Hstv : forall q, inside q -> stv st0 q = stv st q).
  { intros q Hq0. rewrite Hv' by done. destruct (decide _) as [->|]; [|done].
    by rewrite HV, Hv. }
  assert (L : linv data rmsimg cutoff done peak st0 [peak] []).
  { split.
    - done.
    - intros p Hp. rewrite Hq', Hstv, list_elem_of_singleton by done.
      destruct (decide _); [by right|]. left. by apply g_qv0.
    - intros p ->%list_elem_of_singleton. rewrite Hq', Hstv by done.
      destruct (decide _); [|done]. by rewrite HQ, Hv.
    - apply NoDup_singleton.
    - intros p. rewrite app_nil_r, g_visited0.
      split; intros [? ?]; (split; [done|]); [by rewrite Hstv|by rewrite <- Hstv].
    - by rewrite app_nil_r.
    - intros p Hp. rewrite Hq', Hstv by done.
      destruct (decide _); [done|]. by apply g_vq0.
    - intros p ->%list_elem_of_singleton. by left.
    - by exists []. }
  destruct (flood_loop_inv done peak (S (length (nd_buf st0))) st0 [peak] [] L)
    as (blob & st' & Hloop & L').
  { pose proof (unq_le (nd_buf st0)). simpl. lia. }
  exists blob, st'. split; [done|]. destruct L'.
  destruct l_head0 as [tl Htl]. rewrite app_nil_r in Htl. subst blob.
  split; [split|split].
  - done.
  - intros p Hp Hpq. destruct (l_queued0 p Hp Hpq) as [?|Hin]; [done|].
    by apply elem_of_nil in Hin.
  - done.
  - done.
  - done.
  - intros Hf. congruence.
  - intros _. exists tl. split; [done|].
    apply NoDup_app in l_nodup0 as (_ & _ & Hnd).
    apply NoDup_cons in Hnd as [Hnotin _].
    apply Forall_forall. intros p Hin.
    destruct (l_snr0 p) as [->|?]; [|done..].
    rewrite app_nil_r. by right.
Qed.

End Flood.

(** ** The bounding box of a blob *)

Lemma foldl_min_spec l a :
  foldl Z.min a l <= a /\ (forall x, x ∈ l -> foldl Z.min a l <= x) /\
  foldl Z.min a l ∈ a :: l.
Proof.
  revert a. induction l as [|b l IH]; intros a; simpl.
  - split; [lia|]. split; [by intros x ?%elem_of_nil|by left].
  - destruct (IH (Z.min a b)) as (H1 & H2 & H3).
    split; [lia|]. split.
    + intros x [->|Hx]%elem_of_cons; [lia|by apply H2].
    + apply elem_of_cons in H3 as [H3|H3]; [|by do 2 right].
      rewrite H3. destruct (Z.min_spec a b) as [[_ ->]|[_ ->]]; [left|right; left].
Qed.

Lemma foldl_max_spec l a :
  a <= foldl Z.max a l /\ (forall x, x ∈ l -> x <= foldl Z.max a l) /\
  foldl Z.max a l ∈ a :: l.
Proof.
  revert a. induction l as [|b l IH]; intros a; simpl.
  - split; [lia|]. split; [by intros x ?%elem_of_nil|by left].
  - destruct (IH (Z.max a b)) as (H1 & H2 & H3).
    split; [lia|]. split.
    + intros x [->|Hx]%elem_of_cons; [lia|by apply H2].
    + apply elem_of_cons in H3 as [H3|H3]; [|by do 2 right].
      rewrite H3. destruct (Z.max_spec a b) as [[_ ->]|[_ ->]]; [right; left|left].
Qed.

Lemma slice_len_inside lo hi n :
  0 <= lo <= hi -> hi < Z.of_nat n -> slice_len lo (hi + 1) n = Z.to_nat (hi - lo + 1).
Proof. intros H1 H2. unfold slice_len, slice_bound.
  destruct (Z.ltb_spec (hi + 1) 0), (Z.ltb_spec lo 0); lia.
Qed.

Lemma nd_full_get {A} rows cols (v : A) q :
  inb rows cols q -> nd_get (nd_full rows cols v) q = Ok v.
Proof.
  intros Hq. unfold nd_get. rewrite nd_offset_inb by done. simpl.
  rewrite lookup_replicate_2; [done|]. by eapply off_lt.
Qed.

Section List2Map.
Variable data : ndarray float.
Hypothesis Hdata : nd_wf data.

(** The loop of [list2map] over a list [l] of pixels lying in the box that
    starts at [(xmin, ymin)] and has the shape of [blank]. *)
Lemma list2map_fill xmin ymin (l : list pixel) :
  forall pixels,
  nd_wf pixels ->
  Forall (fun p => inb (nd_rows data) (nd_cols data) p /\
            inb (nd_rows pixels) (nd_cols pixels) (p.1 - xmin, p.2 - ymin)) l ->
  exists pixels',
    foldl (fun acc p =>
             pixels <- acc ;
             v <- nd_get data p ;
             nd_set pixels (p.1 - xmin, p.2 - ymin) v) (Ok pixels) l = Ok pixels' /\
    nd_wf pixels' /\ nd_rows pixels' = nd_rows pixels /\
    nd_cols pixels' = nd_cols pixels /\
    forall q, inb (nd_rows pixels) (nd_cols pixels) q ->
      nd_get pixels' q =
        if decide ((q.1 + xmin, q.2 + ymin) ∈ l)
        then nd_get data (q.1 + xmin, q.2 + ymin) else nd_get pixels q.
Proof.
  induction l as [|p l IH] using rev_ind; intros pixels Hwf Hl.
  - exists pixels. do 4 (split; [done|]). intros q Hq.
    destruct (decide _) as [Hin|]; [by apply elem_of_nil in Hin|done].
  - apply Forall_app in Hl as [Hl Hp]. apply Forall_singleton in Hp as [Hp Hpb].
    destruct (IH pixels Hwf Hl) as (px & Hfold & Hwf' & Hr & Hc & Hget).
    rewrite foldl_snoc, Hfold. cbn [bind].
    destruct (nd_get_inb data p) as [v Hv]; [done..|]. rewrite Hv. cbn [bind].
    destruct (nd_set_inb px (p.1 - xmin, p.2 - ymin) v)
      as (px' & -> & Hwf'' & Hr' & Hc' & _ & Hsame & Hother);
      [done|by rewrite Hr, Hc|].
    exists px'. split; [done|]. split; [done|]. split; [congruence|].
    split; [congruence|]. intros q Hq.
    destruct (decide (q = (p.1 - xmin, p.2 - ymin))) as [->|Hne].
    + rewrite Hsame. simpl. replace (p.1 - xmin + xmin, p.2 - ymin + ymin) with p
        by (destruct p; simpl; f_equal; lia).
      rewrite decide_True; [done|]. apply elem_of_app. right. by left.
    + rewrite Hother; [|by rewrite Hr, Hc|done]. rewrite Hget by done.
      destruct (decide (_ ∈ l)) as [Hin|Hnin].
      * rewrite decide_True; [done|]. apply elem_of_app. by left.
      * rewrite decide_False; [done|]. rewrite elem_of_app, list_elem_of_singleton.
        intros [?|Heq]; [done|]. apply Hne. rewrite <- Heq. simpl.
        destruct q; simpl; f_equal; lia.
Qed.

(** [list2map] on a non-empty list of pixels of the image: the box is the
    smallest one that holds the pixels, the listed pixels keep their value
    and every other cell of the box is NaN. *)
Lemma list2map_spec (pixlist : list pixel) :
  pixlist <> [] ->
  Forall (inb (nd_rows data) (nd_cols data)) pixlist ->
  exists pixels xmin xmax ymin ymax,
    Island.list2map data pixlist = Ok (pixels, xmin, xmax, ymin, ymax) /\
    nd_wf pixels /\
    nd_shape pixels = (xmax - xmin + 1, ymax - ymin + 1) /\
    (forall p, p ∈ pixlist -> xmin <= p.1 <= xmax /\ ymin <= p.2 <= ymax) /\
    ((exists p, p ∈ pixlist /\ p.1 = xmin) /\ (exists p, p ∈ pixlist /\ p.1 = xmax) /\
     (exists p, p ∈ pixlist /\ p.2 = ymin) /\ (exists p, p ∈ pixlist /\ p.2 = ymax)) /\
    (forall p, p ∈ pixlist ->
       nd_get pixels (p.1 - xmin, p.2 - ymin) = nd_get data p) /\
    (forall q, inb (nd_rows pixels) (nd_cols pixels) q ->
       (q.1 + xmin, q.2 + ymin) ∉ pixlist -> nd_get pixels q = Ok nan).
Proof.
  intros Hne Hin. destruct pixlist as [|p0 ps]; [done|]. clear Hne.
  unfold Island.list2map.
  set (xmin := foldl Z.min p0.1 (fst <$> ps)).
  set (xmax := foldl Z.max p0.1 (fst <$> ps)).
  set (ymin := foldl Z.min p0.2 (snd <$> ps)).
  set (ymax := foldl Z.max p0.2 (snd <$> ps)).
  destruct (foldl_min_spec (fst <$> ps) p0.1) as (Hx1 & Hx2 & Hx3).
  destruct (foldl_max_spec (fst <$> ps) p0.1) as (HX1 & HX2 & HX3).
  destruct (foldl_min_spec (snd <$> ps) p0.2) as (Hy1 & Hy2 & Hy3).
  destruct (foldl_max_spec (snd <$> ps) p0.2) as (HY1 & HY2 & HY3).
  fold xmin in Hx1, Hx2, Hx3. fold xmax in HX1, HX2, HX3.
  fold ymin in Hy1, Hy2, Hy3. fold ymax in HY1, HY2, HY3.
  assert (Hbox : forall p, p ∈ p0 :: ps ->
            xmin <= p.1 <= xmax /\ ymin <= p.2 <= ymax).
  { intros p [->|Hp]%elem_of_cons; [lia|].
    pose proof (Hx2 p.1 ltac:(by apply list_elem_of_fmap_2)).
    pose proof (HX2 p.1 ltac:(by apply list_elem_of_fmap_2)).
    pose proof (Hy2 p.2 ltac:(by apply list_elem_of_fmap_2)).
    pose proof (HY2 p.2 ltac:(by apply list_elem_of_fmap_2)). lia. }
  assert (Hatt1 : forall m, m ∈ p0.1 :: (fst <$> ps) -> exists p, p ∈ p0 :: ps /\ p.1 = m).
  { intros m [->|(p & -> & Hp)%list_elem_of_fmap]%elem_of_cons.
    - exists p0. split; [left|done].
    - exists p. split; [by right|done]. }
  assert (Hatt2 : forall m, m ∈ p0.2 :: (snd <$> ps) -> exists p, p ∈ p0 :: ps /\ p.2 = m).
  { intros m [->|(p & -> & Hp)%list_elem_of_fmap]%elem_of_cons.
    - exists p0. split; [left|done].
    - exists p. split; [by right|done]. }
  destruct (Hatt1 _ Hx3) as (pa & Hpa & Hpa'). destruct (Hatt1 _ HX3) as (pb & Hpb & Hpb').
  destruct (Hatt2 _ Hy3) as (pc & Hpc & Hpc'). destruct (Hatt2 _ HY3) as (pd & Hpd & Hpd').
  rewrite Forall_forall in Hin.
  pose proof (Hin pa Hpa) as [? ?]. pose proof (Hin pb Hpb) as [? ?].
  pose proof (Hin pc Hpc) as [? ?]. pose proof (Hin pd Hpd) as [? ?].
  pose proof (Hbox pa Hpa). pose proof (Hbox pc Hpc).
  set (box := nd_slice data xmin (xmax + 1) ymin (ymax + 1)).
  assert (Hr : nd_rows box = Z.to_nat (xmax - xmin + 1)).
  { unfold box, nd_slice; simpl. apply slice_len_inside; lia. }
  assert (Hc : nd_cols box = Z.to_nat (ymax - ymin + 1)).
  { unfold box, nd_slice; simpl. apply slice_len_inside; lia. }
  destruct (list2map_fill xmin ymin (p0 :: ps) (nd_full (nd_rows box) (nd_cols box) nan))
    as (pixels & Hfold & Hwf & Hr' & Hc' & Hget).
  { unfold nd_wf, nd_full; simpl. by rewrite length_replicate. }
  { apply Forall_forall. intros p Hp. split; [by apply Hin|].
    destruct (Hbox p Hp). unfold inb, nd_full; cbn [nd_rows nd_cols fst snd].
    rewrite Hr, Hc. lia. }
  rewrite Hfold. cbn [bind]. unfold nd_full in Hr', Hc', Hget.
  cbn [nd_rows nd_cols] in Hr', Hc', Hget.
  exists pixels, xmin, xmax, ymin, ymax. split; [done|]. split; [done|].
  split; [unfold nd_shape; rewrite Hr', Hc', Hr, Hc; f_equal; lia|].
  split; [done|]. split; [by eauto 10|]. split.
  - intros p Hp. destruct (Hbox p Hp). rewrite Hget.
    + simpl. replace (p.1 - xmin + xmin, p.2 - ymin + ymin) with p
        by (destruct p; simpl; f_equal; lia).
      by rewrite decide_True.
    + unfold inb; cbn [fst snd]. rewrite Hr, Hc. lia.
  - intros q Hq Hnin. rewrite Hget by (by rewrite <- Hr', <- Hc').
    rewrite decide_False by done. apply nd_full_get. by rewrite <- Hr', <- Hc'.
Qed.

End List2Map.

(** ** One segmentation pass *)

Lemma nd_indices_length rows cols : length (nd_indices rows cols) = (rows * cols)%nat.
Proof.
  unfold nd_indices.
  assert (Hin : forall (x : nat) (l : list nat),
            length (l ≫= fun y => [(Z.of_nat x, Z.of_nat y)]) = length l).
  { intros x l. induction l; simpl; by f_equal. }
  assert (Hout : forall l : list nat,
            length (l ≫= fun x => seq 0 cols ≫= fun y => [(Z.of_nat x, Z.of_nat y)])
            = (length l * cols)%nat).
  { induction l as [|x l IH]; [done|]. cbn [mbind list_bind].
    change (list_bind _ _ ?f ?l) with (l ≫= f).
    rewrite length_app, Hin, length_seq, IH. simpl. lia. }
  by rewrite Hout, length_seq.
Qed.

Lemma nd_indices_inb rows cols p : p ∈ nd_indices rows cols -> inb rows cols p.
Proof.
  unfold nd_indices. intros (x & Hp & Hx%elem_of_seq)%list_elem_of_bind.
  apply list_elem_of_bind in Hp as (y & Hp & Hy%elem_of_seq).
  apply list_elem_of_singleton in Hp as ->. unfold inb; simpl. lia.
Qed.

Lemma insert_desc_perm a l : insert_desc a l ≡ₚ a :: l.
Proof.
  induction l as [|b l IH]; simpl; [done|].
  destruct (peak_lt a b); [|done]. rewrite IH. apply Permutation_swap.
Qed.

Lemma sort_desc_perm l : sort_desc l ≡ₚ l.
Proof.
  unfold sort_desc. induction l as [|a l IH]; simpl; [done|].
  by rewrite insert_desc_perm, IH.
Qed.

Lemma peaks_read (data : ndarray float) (l : list pixel) :
  nd_wf data -> Forall (inb (nd_rows data) (nd_cols data)) l ->
  exists peaks,
    res_mapM (fun p => v <- nd_get data p ; Ok (v, p.1, p.2)) l = Ok peaks /\
    (fun t : float * Z * Z => (t.1.2, t.2)) <$> peaks = l.
Proof.
  intros Hwf. induction 1 as [|p l Hp _ (peaks & IH1 & IH2)]; simpl.
  - by exists [].
  - destruct (nd_get_inb data p) as [v ->]; [done..|]. cbn [bind].
    rewrite IH1. cbn [bind]. eexists. split; [done|].
    rewrite fmap_cons, IH2. by destruct p.
Qed.

Section Segmenter.
Variables (data rmsimg : ndarray float) (innerclip outerclip : float).
Hypothesis Hdata : nd_wf data.
Hypothesis Hrms : nd_wf rmsimg.
Hypothesis Hrows : nd_rows rmsimg = nd_rows data.
Hypothesis Hcols : nd_cols rmsimg = nd_cols data.

Abbreviation inside := (inb (nd_rows data) (nd_cols data)).
Abbreviation bounds := (Z.of_nat (nd_rows data) - 1, Z.of_nat (nd_cols data) - 1).

Lemma flood_peaks_inv peaks :
  forall st done,
  ginv data st done ->
  Forall (fun p => inside p /\ snr_gt data rmsimg innerclip p = true) peaks ->
  exists tr st',
    flood_peaks data rmsimg bounds outerclip false st peaks = Ok (tr, st') /\
    ginv data st' (done ++ concat (fst <$> tr)) /\
    Forall (grown data rmsimg innerclip outerclip) tr.
Proof.
  induction peaks as [|peak peaks IH]; intros st done G Hpeaks.
  - exists [], st. simpl. by rewrite app_nil_r.
  - apply Forall_cons in Hpeaks as [[Hin Hsnr] Hpeaks]. cbn [flood_peaks].
    destruct (flood_inv data rmsimg outerclip Hdata Hrms Hrows Hcols done st peak G Hin)
      as (blob & st1 & -> & G1 & Hvis & Hnew).
    cbn [bind]. destruct (stv st peak) eqn:Hv.
    + destruct Hvis as [-> ->]; [done|]. simpl. by apply IH.
    + destruct Hnew as (tl & -> & Htl); [done|]. cbn [length Nat.leb].
      destruct (list2map_spec data Hdata (peak :: tl)) as (px & x0 & x1 & y0 & y1 & Hisle & _);
        [done| |].
      { apply Forall_forall. intros p Hp.
        apply (g_visited _ _ _ G1 p). apply elem_of_app. by right. }
      rewrite Hisle. cbn [bind].
      destruct (IH st1 (done ++ peak :: tl) G1 Hpeaks) as (tr & st2 & -> & G2 & Hgrown).
      cbn [bind fst snd]. eexists _, st2. split; [done|]. split.
      * rewrite fmap_cons. cbn [concat fst]. by rewrite app_assoc.
      * apply Forall_cons. split; [|done]. split; [|done]. by exists peak, tl.
Qed.

Lemma gen_flood_wrap_trace_inv outer :
  outerclip = default innerclip outer ->
  exists tr st,
    gen_flood_wrap_trace data rmsimg innerclip outer false = Ok (tr, st) /\
    ginv data st (concat (fst <$> tr)) /\
    Forall (grown data rmsimg innerclip outerclip) tr.
Proof.
  intros Houter. unfold gen_flood_wrap_trace. rewrite <- Houter.
  unfold same_shape. rewrite Hrows, Hcols, !Nat.eqb_refl. cbn [andb negb].
  set (idx := nd_indices (nd_rows data) (nd_cols data)).
  set (hot := filter _ idx).
  set (st0 := NdArray _ _ _).
  assert (Hhot : Forall (fun p => inside p /\ snr_gt data rmsimg innerclip p = true) hot).
  { apply Forall_forall. intros p [Hp Hidx]%list_elem_of_filter.
    split; [by apply nd_indices_inb|done]. }
  destruct (peaks_read data hot Hdata) as (peaks & -> & Hproj).
  { eapply Forall_impl; [exact Hhot|]. by intros p [? _]. }
  cbn [bind].
  assert (G0 : ginv data st0 []).
  { assert (Hcell : forall p s, nd_get st0 p = Ok s -> s = 0 \/ s = 1).
    { intros p s (q & -> & _)%nd_get_elem%list_elem_of_fmap.
      destruct (snr_gt _ _ _ q); [by right|by left]. }
    assert (Hq : forall p, stq st0 p = false).
    { intros p. unfold stq. destruct (nd_get st0 p) as [s| |] eqn:E; [|done..].
      by destruct (Hcell p s E) as [-> | ->]. }
    assert (Hv : forall p, stv st0 p = false).
    { intros p. unfold stv. destruct (nd_get st0 p) as [s| |] eqn:E; [|done..].
      by destruct (Hcell p s E) as [-> | ->]. }
    split.
    - split; [|done]. unfold nd_wf, st0; simpl.
      rewrite length_fmap. apply nd_indices_length.
    - intros p _. by rewrite Hq.
    - intros p _. by rewrite Hv.
    - intros p. rewrite Hv. split; [by intros ?%elem_of_nil|by intros [_ ?]].
    - apply NoDup_nil_2. }
  destruct (length peaks =? 0)%nat.
  { exists [], st0. split; [done|]. split; [done|]. apply Forall_nil_2. }
  apply (flood_peaks_inv _ st0 [] G0).
  rewrite (fmap_Permutation _ _ _ (sort_desc_perm peaks)), Hproj. done.
Qed.

End Segmenter.

Lemma concat_disjoint {A} (ls : list (list A)) i j b1 b2 x :
  NoDup (concat ls) -> i <> j -> ls !! i = Some b1 -> ls !! j = Some b2 ->
  x ∈ b1 -> x ∉ b2.
Proof.
  assert (Hin : forall (l : list (list A)) k b, l !! k = Some b -> x ∈ b -> x ∈ concat l).
  { intros l k b Hk Hx. apply list_elem_of_In, in_concat. exists b.
    split; apply list_elem_of_In; [by eapply list_elem_of_lookup_2|done]. }
  revert i j. induction ls as [|b ls IH]; intros i j Hnd Hij Hi Hj Hx1 Hx2; [done|].
  simpl in Hnd. apply NoDup_app in Hnd as (_ & Hdis & Hnd).
  destruct i as [|i], j as [|j]; simplify_eq/=.
  - apply (Hdis x Hx1). by eapply Hin.
  - apply (Hdis x Hx2). by eapply Hin.
  - apply (IH i j); auto.
Qed.

(** ** The segmenter *)

(** C5.  One segmentation pass over an image and a noise map of its shape
    runs to its end; a pixel is marked VISITED, and appended to the blob
    being grown, once at most over the whole pass (the blobs in the order of
    their growth hold no pixel twice); the pixels that end VISITED are those
    of the blobs; two different blobs share no pixel, so no later flood
    takes a pixel that an earlier one visited; and a flood started at a
    VISITED pixel returns the empty blob and leaves the status map as it
    is. *)
Theorem segmentation_visits_once (data rmsimg : ndarray float)
    (innerclip : float) (outerclip : option float) :
  nd_wf data -> nd_wf rmsimg ->
  nd_rows rmsimg = nd_rows data -> nd_cols rmsimg = nd_cols data ->
  exists tr st,
    gen_flood_wrap_trace data rmsimg innerclip outerclip false = Ok (tr, st) /\
    NoDup (concat (fst <$> tr)) /\
    (forall p, p ∈ concat (fst <$> tr) <->
               inb (nd_rows data) (nd_cols data) p /\ stv st p = true) /\
    (forall i j b1 b2 p,
        i <> j -> (fst <$> tr) !! i = Some b1 -> (fst <$> tr) !! j = Some b2 ->
        p ∈ b1 -> p ∉ b2) /\
    (forall status bounds peak cutoff,
        stv status peak = true ->
        flood data rmsimg status bounds peak cutoff = Ok ([], status)).
Proof.
  intros Hd Hr Hrows Hcols.
  destruct (gen_flood_wrap_trace_inv data rmsimg innerclip
              (default innerclip outerclip) Hd Hr Hrows Hcols outerclip eq_refl)
    as (tr & st & Hrun & G & _).
  exists tr, st. destruct G.
  split; [done|]. split; [done|]. split; [exact g_visited0|]. split.
  - intros i j b1 b2 p. by apply concat_disjoint.
  - intros status bounds peak cutoff. unfold stv, flood.
    destruct (nd_get status peak) as [s| |]; [|done..]. cbn [bind]. by intros ->.
Qed.

Lemma segmentation_visits_once_witness :
  exists tr st,
    gen_flood_wrap_trace
      (NdArray 3 4 [1; 6; 4.5; 1; 1; 1; 7; 1; 9; 1; 1; 1]%float)
      (nd_full 3 4 1%float) 5%float (Some 4%float) false = Ok (tr, st) /\
    NoDup (concat (fst <$> tr)) /\
    (forall p, p ∈ concat (fst <$> tr) <-> inb 3 4 p /\ stv st p = true) /\
    (forall i j b1 b2 p,
        i <> j -> (fst <$> tr) !! i = Some b1 -> (fst <$> tr) !! j = Some b2 ->
        p ∈ b1 -> p ∉ b2) /\
    (forall status bounds peak cutoff,
        stv status peak = true ->
        flood (NdArray 3 4 [1; 6; 4.5; 1; 1; 1; 7; 1; 9; 1; 1; 1]%float)
              (nd_full 3 4 1%float) status bounds peak cutoff = Ok ([], status)).
Proof.
  apply (segmentation_visits_once
           (NdArray 3 4 [1; 6; 4.5; 1; 1; 1; 7; 1; 9; 1; 1; 1]%float)
           (nd_full 3 4 1%float) 5%float (Some 4%float)); reflexivity.
Defined.

(** C6, as the program has it.  Every blob of a pass starts with its seed,
    whose signal to noise exceeds the seed clip, and every pixel that the
    flood added after the seed has a signal to noise of at least the flood
    clip (the seed clip when no flood clip is given); when the flood clip is
    not above the seed clip, this holds of the seed too, hence of every
    pixel of the blob. *)
Theorem blob_seed_and_growth_clips (data rmsimg : ndarray float)
    (innerclip : float) (outerclip : option float) :
  nd_wf data -> nd_wf rmsimg ->
  nd_rows rmsimg = nd_rows data -> nd_cols rmsimg = nd_cols data ->
  exists tr st,
    gen_flood_wrap_trace data rmsimg innerclip outerclip false = Ok (tr, st) /\
    forall y, y ∈ tr ->
      exists seed tl, y.1 = seed :: tl /\
        snr_gt data rmsimg innerclip seed = true /\
        (forall p, p ∈ tl ->
           snr_ge data rmsimg (default innerclip outerclip) p = true) /\
        ((default innerclip outerclip <=? innerclip)%float = true ->
         forall p, p ∈ y.1 ->
           snr_ge data rmsimg (default innerclip outerclip) p = true).
Proof.
  intros Hd Hr Hrows Hcols.
  destruct (gen_flood_wrap_trace_inv data rmsimg innerclip
              (default innerclip outerclip) Hd Hr Hrows Hcols outerclip eq_refl)
    as (tr & st & Hrun & _ & Hgrown).
  exists tr, st. split; [done|]. intros y Hy.
  rewrite Forall_forall in Hgrown.
  destruct (Hgrown y Hy) as ((seed & tl & Hblob & Hseed & Htl) & _).
  rewrite Forall_forall in Htl.
  exists seed, tl. split; [done|]. split; [done|]. split; [done|].
  intros Hle p. rewrite Hblob. intros [->|Hp]%elem_of_cons; [|by apply Htl].
  unfold snr_gt in Hseed. unfold snr_ge.
  destruct (nd_get data seed); [|done..]. destruct (nd_get rmsimg seed); [|done..].
  by eapply float_le_lt_trans.
Qed.

Lemma blob_seed_and_growth_clips_witness :
  exists tr st,
    gen_flood_wrap_trace
      (NdArray 3 4 [1; 6; 4.5; 1; 1; 1; 7; 1; 9; 1; 1; 1]%float)
      (nd_full 3 4 1%float) 5%float (Some 4%float) false = Ok (tr, st) /\
    forall y, y ∈ tr ->
      exists seed tl, y.1 = seed :: tl /\
        snr_gt (NdArray 3 4 [1; 6; 4.5; 1; 1; 1; 7; 1; 9; 1; 1; 1]%float)
               (nd_full 3 4 1%float) 5%float seed = true /\
        (forall p, p ∈ tl ->
           snr_ge (NdArray 3 4 [1; 6; 4.5; 1; 1; 1; 7; 1; 9; 1; 1; 1]%float)
                  (nd_full 3 4 1%float) 4%float p = true) /\
        ((4 <=? 5)%float = true ->
         forall p, p ∈ y.1 ->
           snr_ge (NdArray 3 4 [1; 6; 4.5; 1; 1; 1; 7; 1; 9; 1; 1; 1]%float)
                  (nd_full 3 4 1%float) 4%float p = true).
Proof.
  apply (blob_seed_and_growth_clips
           (NdArray 3 4 [1; 6; 4.5; 1; 1; 1; 7; 1; 9; 1; 1; 1]%float)
           (nd_full 3 4 1%float) 5%float (Some 4%float)); reflexivity.
Defined.

(** C6 fails as stated: with a flood clip above the seed clip, a seed of
    signal to noise 6 makes a blob although 6 is below the flood clip 10. *)
Lemma blob_clips_counterexample :
  ~ blob_clips_claim (NdArray 1 1 [6%float]) (NdArray 1 1 [1%float]) 5%float 10%float.
Proof.
  intros H.
  destruct (H [([(0, 0)], (NdArray 1 1 [6%float], 0, 0, 0, 0))]
              (NdArray 1 1 [7]) eq_refl
              ([(0, 0)], (NdArray 1 1 [6%float], 0, 0, 0, 0))) as [Hall _]; [left|].
  specialize (Hall (0, 0) ltac:(left)). vm_compute in Hall. discriminate.
Qed.

(** C4 at a blob of two pixels in one row.  The generator yields its island,
    a box of one row and two columns, and the driver skips it, whatever the
    libraries do: [len] of the box is its number of rows, 1.  The same two
    pixels in one column give an island that is processed. *)
Theorem one_row_blob_is_dropped (lib : Lib) :
  let row := NdArray 1 2 [10; 9]%float in
  let column := NdArray 2 1 [10; 9]%float in
  (exists st,
     gen_flood_wrap_trace row (nd_full 1 2 1%float) 5%float (Some 4%float) false
     = Ok ([([(0, 0); (0, 1)], (row, 0, 0, 0, 1))], st)) /\
  find_sources_in_image lib (Example.image row)
    (Some 1%float) None (Some 1%float) 5%float 4%float = Ok [] /\
  (exists src,
     find_sources_in_image Example.lib (Example.image column)
       (Some 1%float) None (Some 1%float) 5%float 4%float = Ok [src]).
Proof.
  split; [|split].
  - eexists. vm_compute. reflexivity.
  - vm_compute. reflexivity.
  - eexists. vm_compute. reflexivity.
Qed.

(** ** The fitter *)

(** C3 at a fitted angle of -5 radians, which the solver may return as the
    angle has no bounds: after [multi_gauss] the stored angle is -5 + pi/2,
    below -pi.  [int] truncates toward zero, so the step meant to bring the
    angle into [0, 2 pi) leaves a negative angle as it is. *)
Theorem canonical_angle_below_minus_pi (lib : Lib) (data rmsimg : ndarray float)
    (parinfo : list parinfo_entry) :
  mpfit lib data rmsimg parinfo = Ok (MkMP [1; 0; 0; 2; 1; -5]%float None EmptyString) ->
  multi_gauss lib data rmsimg parinfo
  = Ok (MkMP [1; 0; 0; 2; 1; -5 + np_pi / 2]%float None EmptyString, parinfo) /\
  (-5 + np_pi / 2 <? - np_pi)%float = true.
Proof.
  intros H. unfold multi_gauss. rewrite H. split; vm_compute; reflexivity.
Qed.

Lemma canonical_angle_below_minus_pi_witness :
  let lib := MkLib (fun x => x) (fun x => x) (fun x => x) (fun d _ => d)
               (fun _ _ => Ok 0%float) (fun _ => Ok 0%float)
               (fun _ _ _ => Ok (MkMP [1; 0; 0; 2; 1; -5]%float None EmptyString))
               (fun _ => EmptyString) (fun _ => EmptyString) in
  multi_gauss lib (NdArray 0 0 []) (NdArray 0 0 []) []
  = Ok (MkMP [1; 0; 0; 2; 1; -5 + np_pi / 2]%float None EmptyString, []) /\
  (-5 + np_pi / 2 <? - np_pi)%float = true.
Proof.
  intros lib.
  apply (canonical_angle_below_minus_pi lib (NdArray 0 0 []) (NdArray 0 0 []) []).
  reflexivity.
Defined.

(** ** Background and noise *)

(** A forced noise level that passes Python's truth test gives a zero
    background and that level everywhere, with no statistics taken. *)
Lemma forced_rms_maps (lib : Lib) data beam mesh_size rms :
  Py.truthy rms = true ->
  make_bkg_rms_image lib data beam mesh_size (Some rms)
  = Ok (nd_full (nd_rows data) (nd_cols data) 0%float,
        nd_full (nd_rows data) (nd_cols data) (1 * rms)%float).
Proof. intros H. unfold make_bkg_rms_image. by rewrite H. Qed.

(** C7 at a forced noise level of 0.  Zero fails the test [if forced_rms:],
    so the maps are those computed with no level forced; on the image
    [[1, 2], [3, 4]] the background is then the median 2.5 and not 0. *)
Theorem forced_rms_zero_is_ignored :
  (forall lib data beam mesh_size,
     make_bkg_rms_image lib data beam mesh_size (Some 0%float)
     = make_bkg_rms_image lib data beam mesh_size None) /\
  (exists rmsimg,
     make_bkg_rms_image Example.lib (NdArray 2 2 [1; 2; 3; 4]%float)
       Example.beam 20 (Some 0%float)
     = Ok (nd_full 2 2 2.5%float, rmsimg) /\
     nd_get rmsimg (0, 0) <> Ok 0%float).
Proof.
  split; [reflexivity|].
  eexists. split; [vm_compute; reflexivity|]. vm_compute. discriminate.
Qed.

(** ** The beam *)







(** ** The estimator *)

Lemma size_flag_small data :
  has_flag (size_flag data) FITERRSMALL = (length (finite_values data) <? 4)%nat.
Proof.
  unfold size_flag.
  destruct (Z.leb_spec 4 (Z.of_nat (length (finite_values data)))),
    (Z.leb_spec (Z.of_nat (length (finite_values data))) 6),
    (Z.ltb_spec (Z.of_nat (length (finite_values data))) 4),
    (Nat.ltb_spec (length (finite_values data)) 4); simpl; try reflexivity; lia.
Qed.

(** C2 fails as stated: an island of two rows and three columns whose six
    pixels are all finite is narrow, and its summit carries FIXED2PSF, not
    FITERRSMALL. *)
Lemma tiny_island_counterexample :
  ~ tiny_island_claim Example.lib
      (NdArray 2 3 [6; 7; 6; 7; 10; 7.5]%float) (nd_full 2 3 1%float)
      (nd_full 2 3 0%float) Example.beam None.
Proof.
  intros H. destruct H as (parinfo & Hrun & _ & Hflags).
  { left. vm_compute. discriminate. }
  vm_compute in Hrun. injection Hrun as <-.
  destruct (Hflags _ ltac:(do 3 right; left)) as (f & Hf & Hsmall).
  { vm_compute. reflexivity. }
  simpl in Hf. injection Hf as <-. vm_compute in Hsmall. discriminate.
Qed.

(** C2, as the program has it.  Take an island that is narrow (a side of at
    most 2 pixels) or small (fewer than 4 finite pixels), whose curvature map
    has its shape, whose brightest finite pixel [p] is alone in holding the
    maximum, and whose noise map covers [p].  The estimator takes the whole
    island as its only summit, returns the six parameters of that summit,
    whatever the curvature map and the curvature clip, and the flags of dx,
    dy and pa carry FITERRSMALL exactly when the island has fewer than 4
    finite pixels. *)
Theorem tiny_island_one_summit (lib : Lib) (data rmsimg curve : ndarray float)
    (beam : Beam.t) (csigma : option float) (amp r : float) (p : pixel) :
  Z.min (nd_shape data).1 (nd_shape data).2 <= 2 \/
    (length (finite_values data) < 4)%nat ->
  same_shape data curve = true ->
  np_max (finite_values data) = Ok amp ->
  np_where_eq data amp = [p] ->
  nd_get rmsimg p = Ok r ->
  (forall c, find_summits data rmsimg curve c
             = Ok [(data, 0, (nd_shape data).1, 0, (nd_shape data).2)]) /\
  (exists e_amp e_xo e_yo e_dx e_dy e_pa f,
     estimate_parinfo lib data rmsimg curve beam csigma
       = Ok [e_amp; e_xo; e_yo; e_dx; e_dy; e_pa] /\
     value e_amp = amp /\ value e_xo = Py.of_int p.1 /\
     value e_yo = Py.of_int p.2 /\ value e_pa = 0%float /\
     flags e_dx = Some f /\ flags e_dy = Some f /\ flags e_pa = Some f /\
     has_flag f FITERRSMALL = (length (finite_values data) <? 4)%nat) /\
  (forall curve' csigma', same_shape data curve' = true ->
     estimate_parinfo lib data rmsimg curve' beam csigma'
     = estimate_parinfo lib data rmsimg curve beam csigma).
Proof.
  intros Htiny Hshape Hmax Hpeak Hnoise.
  assert (Ht : tiny data = true).
  { unfold tiny. rewrite size_flag_small.
    destruct Htiny as [H|H].
    - destruct (Z.leb_spec (Z.min (nd_shape data).1 (nd_shape data).2) 2); [done|lia].
    - destruct (Nat.ltb_spec (length (finite_values data)) 4); [|lia].
      apply orb_true_r. }
  assert (Hsum : forall cv c, find_summits data rmsimg cv c
             = Ok [(data, 0, (nd_shape data).1, 0, (nd_shape data).2)]).
  { intros cv c. unfold find_summits. by rewrite Ht. }
  split; [apply Hsum|]. split.
  - unfold estimate_parinfo. rewrite Hshape. cbn [negb]. rewrite Hsum. cbn [bind].
    unfold estimate_summits, estimate_summit. rewrite Hmax. cbn [bind].
    rewrite Hpeak. rewrite fmap_cons, fmap_nil, !Z.add_0_r.
    replace (p.1, p.2) with p by by destruct p.
    cbn [res_mapM bind]. rewrite Hnoise. cbn [bind fmap list_fmap scalar].
    destruct p as [xo yo]. cbn [bind app].
    do 7 eexists. split; [reflexivity|]. cbn [value flags fst snd].
    do 7 (split; [reflexivity|]).
    destruct (_ || _); [|apply size_flag_small].
    rewrite has_flag_lor_other by done. apply size_flag_small.
  - intros curve' csigma' Hshape'. unfold estimate_parinfo.
    by rewrite Hshape, Hshape', !Hsum.
Qed.

Lemma tiny_island_one_summit_witness :
  let data := NdArray 2 3 [6; 7; 6; 7; 10; 7.5]%float in
  let rmsimg := nd_full 2 3 1%float in
  let curve := nd_full 2 3 0%float in
  (forall c, find_summits data rmsimg curve c
             = Ok [(data, 0, 2, 0, 3)]) /\
  (exists e_amp e_xo e_yo e_dx e_dy e_pa f,
     estimate_parinfo Example.lib data rmsimg curve Example.beam None
       = Ok [e_amp; e_xo; e_yo; e_dx; e_dy; e_pa] /\
     value e_amp = 10%float /\ value e_xo = Py.of_int 1 /\
     value e_yo = Py.of_int 1 /\ value e_pa = 0%float /\
     flags e_dx = Some f /\ flags e_dy = Some f /\ flags e_pa = Some f /\
     has_flag f FITERRSMALL = (length (finite_values data) <? 4)%nat) /\
  (forall curve' csigma', same_shape data curve' = true ->
     estimate_parinfo Example.lib data rmsimg curve' Example.beam csigma'
     = estimate_parinfo Example.lib data rmsimg curve Example.beam None).
Proof.
  intros data rmsimg curve.
  apply (tiny_island_one_summit Example.lib data rmsimg curve Example.beam
           None 10%float 1%float (1, 1)).
  - left. vm_compute. discriminate.
  - reflexivity.
  - reflexivity.
  - reflexivity.
  - reflexivity.
Defined.

(** ** The driver *)

Lemma item_lookup {A} (l : list A) k v : item l k = Ok v -> l !! k = Some v.
Proof. unfold item. destruct (l !! k); [by intros [= ->]|done]. Qed.

(** C1 at an island that has more summits than [max_summits] allows and is
    not flagged FITERRSMALL.  The first [if] sets NOTFIT and builds the dummy
    result, but the [if ... else] that follows is not chained to it, and its
    [else] branch calls the solver: the result is the fit, not the
    estimate. *)
Theorem max_summits_island_is_fitted (lib : Lib) (isle rms : ndarray float)
    (max_summits : float) (parinfo : list parinfo_entry) (f : Z) :
  island_flag parinfo = Ok f ->
  has_flag f FITERRSMALL = false ->
  (max_summits <? Py.of_int (Z.of_nat (length parinfo) / 6))%float = true ->
  fit_island lib isle rms (Some max_summits) parinfo
  = (parinfo' <- set_notfit parinfo ; multi_gauss lib isle rms parinfo').
Proof.
  intros Hflag Hsmall Hmany. unfold fit_island.
  rewrite Hflag. cbn [bind]. rewrite Hmany.
  destruct (set_notfit parinfo) as [parinfo'| |]; cbn [bind]; [|done..].
  by rewrite Hsmall.
Qed.

(** On the island of nine pixels below, with [max_summits] = 0, a solver that
    returns the estimate untouched still gives a position angle of pi/2
    where the estimate has 0, under the flag NOTFIT. *)
Lemma max_summits_island_is_fitted_witness :
  let isle := NdArray 3 3 [6; 7; 6; 7; 10; 7.5; 6; 7; 6]%float in
  let rms := nd_full 3 3 1%float in
  let curve := nd_full 3 3 (-20)%float in
  exists parinfo parinfo' mp,
    estimate_parinfo Example.lib isle rms curve Example.beam (Some 1%float)
      = Ok parinfo /\
    value <$> parinfo !! 5%nat = Some 0%float /\
    fit_island Example.lib isle rms (Some 0%float) parinfo = Ok (mp, parinfo') /\
    params mp !! 5%nat = Some (0 + np_pi / 2)%float /\
    flags <$> parinfo' !! 5%nat = Some (Some NOTFIT).
Proof.
  intros isle rms curve. eexists _, _, _.
  split; [vm_compute; reflexivity|]. split; [reflexivity|]. split.
  - rewrite (max_summits_island_is_fitted Example.lib isle rms 0%float _ 0);
      vm_compute; reflexivity.
  - split; reflexivity.
Defined.

(** The sky position of a component and its errors.  For a component that
    the driver reports, with [e1] and [e2] the errors of its two pixel
    coordinates as the error vector holds them after the sentinel pass ([e1]
    is [perror[j*6+1]], the only position error that the driver tests): its
    sky position is [pix2sky] of the fitted pixel position
    (plus the island offset, plus one); when [e1] is the sentinel -1, as
    whenever it is negative, both sky errors are -1; otherwise each sky error
    is the absolute difference between the sky position and [pix2sky] of the
    pixel position moved by the errors, each held by [within] between -1 and
    the island extent. *)
Theorem sky_position_error (lib : Lib) (img : FitsImage)
    (bkgimg rmsimg : ndarray float) (pix2arcsec cc2arcsec : float)
    (num_isle : Z) (i : ndarray float) (xmin ymin : Z) (par : list float)
    (info : list parinfo_entry) (perr : option (list float)) (err : bool)
    (j : nat) (src : OutputSource) (perr' : list float) (err' : bool) :
  report_source lib img bkgimg rmsimg pix2arcsec cc2arcsec num_isle i xmin ymin
    par info perr err j = Ok (src, perr', err') ->
  exists p1 p2 e1 e2,
    par !! (j * 6 + 1)%nat = Some p1 /\ par !! (j * 6 + 2)%nat = Some p2 /\
    perr' !! (j * 6 + 1)%nat = Some e1 /\ perr' !! (j * 6 + 2)%nat = Some e2 /\
    let dec_pix := (p1 + Py.of_int xmin + 1)%float in
    let ra_pix := (p2 + Py.of_int ymin + 1)%float in
    let moved := pix2sky img
                   ((ra_pix + within e2 (-1) (Py.of_int (nd_shape i).1))%float,
                    (dec_pix + within e1 (-1) (Py.of_int (nd_shape i).2))%float) in
    (ra src, dec src) = pix2sky img (ra_pix, dec_pix) /\
    (e1 = (-1)%float -> err_ra src = (-1)%float /\ err_dec src = (-1)%float) /\
    ((e1 <? 0)%float = true ->
       err_ra src = (-1)%float /\ err_dec src = (-1)%float) /\
    ((e1 <? 0)%float = false ->
       err_ra src = abs (ra src - moved.1) /\
       err_dec src = abs (dec src - moved.2)).
Proof.
  unfold report_source. destruct (sentinel_errors par perr err) as [pe er].
  intros H.
  repeat match type of H with
         | bind ?m _ = Ok _ =>
             let E := fresh "E" in
             destruct m eqn:E; cbn [bind] in H; [|discriminate..]
         end.
  injection H as <- <- <-. cbn [ra dec err_ra err_dec].
  repeat match goal with
         | E : item _ _ = Ok _ |- _ => apply item_lookup in E
         end.
  do 4 eexists. do 4 (split; [eassumption|]).
  split; [by destruct (pix2sky img _)|].
  split; [intros ->; by vm_compute|].
  split; intros ->; done.
Qed.

Lemma sky_position_error_witness :
  let img := Example.image (nd_full 5 5 0%float) in
  let info := [ParInfo 10 false "0:amp" (0, 20) (true, true) None;
               ParInfo 2 false "0:xo" (0, 4) (true, true) None;
               ParInfo 2 false "0:yo" (0, 4) (true, true) None;
               ParInfo 1 false "0:dx" (1, 2) (true, true) (Some 0%Z);
               ParInfo 1 false "0:dy" (1, 2) (true, true) (Some 0%Z);
               ParInfo 0 false "0:pa" (- np_pi, np_pi) (false, false) (Some 0%Z)]%float in
  exists src,
    report_source Example.lib img (nd_full 5 5 0%float) (nd_full 5 5 1%float)
      3600%float 3600%float 1 (nd_full 3 3 1%float) 1 1
      [10; 1; 1; 1; 1; 0]%float info (Some [0.5; 0.25; 7; 0.5; 0.5; 0.5]%float)
      false 0
    = Ok (src, [0.5; 0.25; 7; 0.5; 0.5; 0.5]%float, false) /\
    (ra src, dec src) = (3, 3)%float /\
    err_ra src = 3%float /\ err_dec src = 0.25%float.
Proof.
  intros img info. eexists. split; [vm_compute; reflexivity|].
  destruct (sky_position_error Example.lib img (nd_full 5 5 0%float)
              (nd_full 5 5 1%float) 3600%float 3600%float 1 (nd_full 3 3 1%float)
              1 1 [10; 1; 1; 1; 1; 0]%float info
              (Some [0.5; 0.25; 7; 0.5; 0.5; 0.5]%float) false 0 _ _ _
              ltac:(vm_compute; reflexivity))
    as (p1 & p2 & e1 & e2 & H1 & H2 & H3 & H4 & Hpos & _ & _ & Herr).
  injection H1 as <-. injection H2 as <-. injection H3 as <-. injection H4 as <-.
  split; [exact Hpos|]. exact (Herr eq_refl).
Defined.

Lemma sentinel_errors_missing par perr err :
  unfitted perr err ->
  Forall (fun v => v = (-1)%float) (sentinel_errors par perr err).1 /\
  (sentinel_errors par perr err).2 = true.
Proof.
  unfold sentinel_errors, unfitted. destruct perr as [e|].
  - intros [He ->]. split; [|done]. cbn [fst].
    apply Forall_fmap. eapply Forall_impl; [exact He|]. by intros v ->.
  - intros _. split; [|done]. cbn [fst]. rewrite <- list_fmap_compose.
    apply Forall_fmap, Forall_forall. by intros v _.
Qed.

Lemma sentinel_errors_nonzero par perr err v :
  v ∈ (sentinel_errors par perr err).1 -> (v =? 0)%float = false.
Proof.
  unfold sentinel_errors.
  destruct (match perr with Some e => (e, err) | None => _ end) as [e er].
  cbn [fst]. intros (w & -> & _)%list_elem_of_fmap.
  destruct (w =? 0)%float eqn:E; [reflexivity|done].
Qed.

Lemma report_source_unfitted lib img bkgimg rmsimg pix2arcsec cc2arcsec num_isle
    i xmin ymin par info perr err j src perr' err' :
  unfitted perr err ->
  report_source lib img bkgimg rmsimg pix2arcsec cc2arcsec num_isle i xmin ymin
    par info perr err j = Ok (src, perr', err') ->
  unfitted_source src /\ unfitted (Some perr') err'.
Proof.
  intros Hun. unfold report_source.
  destruct (sentinel_errors_missing par perr err Hun) as [Hall Herr].
  destruct (sentinel_errors par perr err) as [pe er]. cbn [fst snd] in Hall, Herr.
  subst er. intros H.
  repeat match type of H with
         | bind ?m _ = Ok _ =>
             let E := fresh "E" in
             destruct m eqn:E; cbn [bind] in H; [|discriminate..]
         end.
  injection H as <- <- <-.
  rewrite Forall_forall in Hall.
  repeat match goal with
         | E : item pe _ = Ok ?v |- _ =>
             apply item_lookup, list_elem_of_lookup_2, Hall in E; subst v
         end.
  split; [|by split; [apply Forall_forall|]].
  unfold unfitted_source.
  cbn [src_flags err_ra err_dec err_peak_flux err_a err_b err_pa].
  split; [|by vm_compute].
  rewrite Z.lor_0_l, Z.lor_comm. by apply has_flag_lor_same.
Qed.

(** A missing error vector.  When the solver gave no error vector, the
    driver makes one of zeros and turns it into sentinels: every component of
    the island that it reports carries FITERR and has -1 for the errors of
    its sky position, peak flux, axes and angle.  Whatever the solver gave,
    the sentinel pass leaves no zero in the error vector, and turns a missing
    vector into as many sentinels as there are parameters. *)
Theorem missing_errors_become_sentinels (lib : Lib) (img : FitsImage)
    (bkgimg rmsimg : ndarray float) (pix2arcsec cc2arcsec : float)
    (num_isle : Z) (i : ndarray float) (xmin ymin : Z) (par : list float)
    (info : list parinfo_entry) (js : list nat) (srcs : list OutputSource) :
  report_sources lib img bkgimg rmsimg pix2arcsec cc2arcsec num_isle i xmin ymin
    par info None false js = Ok srcs ->
  Forall unfitted_source srcs /\
  length srcs = length js /\
  sentinel_errors par None false = (replicate (length par) (-1)%float, true) /\
  (forall perr err v,
      v ∈ (sentinel_errors par perr err).1 -> (v =? 0)%float = false).
Proof.
  intros Hrun. split; [|split; [|split]].
  - assert (Hgen : forall js perr err srcs,
              unfitted perr err ->
              report_sources lib img bkgimg rmsimg pix2arcsec cc2arcsec num_isle
                i xmin ymin par info perr err js = Ok srcs ->
              Forall unfitted_source srcs).
    { clear. induction js as [|j js IH]; intros perr err srcs Hun H; simpl in H.
      - injection H as <-. apply Forall_nil_2.
      - destruct (report_source _ _ _ _ _ _ _ _ _ _ _ _ _ _ _)
          as [[[src perr'] err']| |] eqn:E; cbn [bind] in H; [|discriminate..].
        destruct (report_source_unfitted _ _ _ _ _ _ _ _ _ _ _ _ _ _ _ _ _ _ Hun E)
          as [Hsrc Hun'].
        destruct (report_sources _ _ _ _ _ _ _ _ _ _ _ _ _ _) as [rest| |] eqn:E';
          cbn [bind] in H; [|discriminate..].
        injection H as <-. apply Forall_cons. split; [done|]. by eapply IH. }
    apply (Hgen js None false srcs I Hrun).
  - revert Hrun. generalize (@None (list float)) false. revert srcs.
    induction js as [|j js IH]; intros srcs perr err H; simpl in H.
    + by injection H as <-.
    + destruct (report_source _ _ _ _ _ _ _ _ _ _ _ _ _ _ _)
        as [[[src perr'] err']| |]; cbn [bind] in H; [|discriminate..].
      destruct (report_sources _ _ _ _ _ _ _ _ _ _ _ _ _ _) as [rest| |] eqn:E';
        cbn [bind] in H; [|discriminate..].
      injection H as <-. simpl. f_equal. by eapply IH.
  - unfold sentinel_errors. f_equal. rewrite <- list_fmap_compose.
    clear. induction par as [|v par IH]; [done|]. simpl. by rewrite <- IH.
  - intros perr err v. apply sentinel_errors_nonzero.
Qed.

Lemma missing_errors_become_sentinels_witness :
  let img := Example.image (nd_full 5 5 0%float) in
  let info := [ParInfo 10 false "0:amp" (0, 20) (true, true) None;
               ParInfo 2 false "0:xo" (0, 4) (true, true) None;
               ParInfo 2 false "0:yo" (0, 4) (true, true) None;
               ParInfo 1 false "0:dx" (1, 2) (true, true) (Some 0%Z);
               ParInfo 1 false "0:dy" (1, 2) (true, true) (Some 0%Z);
               ParInfo 0 false "0:pa" (- np_pi, np_pi) (false, false) (Some 0%Z)]%float in
  exists src,
    report_sources Example.lib img (nd_full 5 5 0%float) (nd_full 5 5 1%float)
      3600%float 3600%float 1 (nd_full 3 3 1%float) 1 1
      [10; 1; 1; 1; 1; 0]%float info None false [0%nat] = Ok [src] /\
    unfitted_source src.
Proof.
  intros img info. eexists. split; [vm_compute; reflexivity|].
  destruct (missing_errors_become_sentinels Example.lib img (nd_full 5 5 0%float)
              (nd_full 5 5 1%float) 3600%float 3600%float 1 (nd_full 3 3 1%float)
              1 1 [10; 1; 1; 1; 1; 0]%float info [0%nat] _
              ltac:(vm_compute; reflexivity)) as (Hall & _).
  by apply Forall_cons in Hall as [Hsrc _].
Defined.

(** [within] holds a number that is not NaN between its two bounds. *)
Lemma within_between (x lo hi : float) :
  (x =? x)%float = true -> (lo <=? hi)%float = true ->
  (lo <=? within x lo hi)%float = true /\ (within x lo hi <=? hi)%float = true.
Proof.
  intros Hx Hle. destruct (float_le_self _ _ Hle) as [Hlo Hhi].
  unfold within, Py.min, Py.max.
  destruct (x <? lo)%float eqn:E1.
  - rewrite (float_le_not_lt _ _ Hle). split; [by apply float_eq_le|done].
  - pose proof (float_not_lt_le _ _ E1 Hx Hlo) as Hlox.
    destruct (hi <? x)%float eqn:E2.
    + split; [done|by apply float_eq_le].
    + split; [done|]. by apply float_not_lt_le.
Qed.

Lemma swap_axes_ordered (mp mp' : MP) (i : nat) :
  swap_axes mp i = Ok mp' ->
  exists a b,
    params mp' !! (i * 6 + 3)%nat = Some a /\
    params mp' !! (i * 6 + 4)%nat = Some b /\
    (a <? b)%float = false.
Proof.
  unfold swap_axes. intros H.
  destruct (item (params mp) (i * 6 + 5)) as [p5| |]; cbn [bind] in H; [|done..].
  set (par1 := <[(i * 6 + 5)%nat := _]> (params mp)) in *.
  destruct (item par1 (i * 6 + 3)) as [p3| |] eqn:E3; cbn [bind] in H; [|done..].
  destruct (item par1 (i * 6 + 4)) as [p4| |] eqn:E4; cbn [bind] in H; [|done..].
  apply item_lookup in E3, E4.
  destruct (p3 <? p4)%float eqn:Hlt.
  - destruct (match perror mp with Some _ => _ | None => _ end) as [err| |];
      cbn [bind] in H; [|done..].
    destruct (item (<[_ := p4]> _) (i * 6 + 5)) as [q| |]; cbn [bind] in H; [|done..].
    injection H as <-. exists p4, p3. cbn [params].
    split; [|split; [|by apply float_lt_asym]].
    + rewrite list_lookup_insert_ne by lia. apply list_lookup_insert_eq.
      rewrite length_insert. by eapply lookup_lt_Some.
    + rewrite !list_lookup_insert_ne by lia. apply list_lookup_insert_eq.
      by eapply lookup_lt_Some.
  - injection H as <-. by exists p3, p4.
Qed.

Lemma wrap_angle_keeps (mp mp' : MP) (i k : nat) :
  wrap_angle mp i = Ok mp' -> k <> (i * 6 + 5)%nat ->
  params mp' !! k = params mp !! k.
Proof.
  unfold wrap_angle. intros H Hk.
  destruct (item (params mp) (i * 6 + 5)) as [p5| |]; cbn [bind] in H; [|done..].
  destruct (Py.int _) as [turns| |]; cbn [bind] in H; [|done..].
  destruct (item _ (i * 6 + 5)) as [q| |]; cbn [bind] in H; [|done..].
  injection H as <-. cbn [params].
  destruct (np_pi <? q)%float; rewrite !list_lookup_insert_ne by done; done.
Qed.

(** The axis part of C3: after the canonical form of component [i], the
    value at index 3 is not below the value at index 4. *)
Lemma canonical_axes_ordered (mp mp' : MP) (i : nat) :
  canonical mp i = Ok mp' ->
  exists a b,
    params mp' !! (i * 6 + 3)%nat = Some a /\
    params mp' !! (i * 6 + 4)%nat = Some b /\
    (a <? b)%float = false.
Proof.
  unfold canonical. intros H.
  destruct (swap_axes mp i) as [mp1| |] eqn:E; cbn [bind] in H; [|done..].
  destruct (swap_axes_ordered _ _ _ E) as (a & b & Ha & Hb & Hab).
  exists a, b. rewrite !(wrap_angle_keeps _ _ _ _ H) by lia. done.
Qed.

Lemma set_notfit_values (parinfo parinfo' : list parinfo_entry) :
  set_notfit parinfo = Ok parinfo' -> value <$> parinfo' = value <$> parinfo.
Proof.
  unfold set_notfit. revert parinfo'.
  induction parinfo as [|src parinfo IH]; intros parinfo' H; cbn [res_mapM] in H.
  - by injection H as <-.
  - destruct (is_shape_par src).
    + destruct (flags src); cbn [bind] in H; [|done].
      destruct (res_mapM _ parinfo) as [rest| |]; cbn [bind] in H; [|done..].
      injection H as <-. rewrite !fmap_cons. f_equal. by apply IH.
    + cbn [bind] in H.
      destruct (res_mapM _ parinfo) as [rest| |]; cbn [bind] in H; [|done..].
      injection H as <-. rewrite !fmap_cons. f_equal. by apply IH.
Qed.

(** The path that C1 describes is taken by an island flagged FITERRSMALL
    when no summit limit is given: no solver call, the estimate as the
    parameters, no error vector, NOTFIT on the shape parameters. *)
Lemma small_island_is_not_fitted (lib : Lib) (isle rms : ndarray float)
    (parinfo parinfo' : list parinfo_entry) (f : Z) :
  island_flag parinfo = Ok f ->
  has_flag f FITERRSMALL = true ->
  set_notfit parinfo = Ok parinfo' ->
  fit_island lib isle rms None parinfo = Ok (DummyMP parinfo' None, parinfo') /\
  params (DummyMP parinfo' None) = value <$> parinfo.
Proof.
  intros Hflag Hsmall Hset. unfold fit_island.
  rewrite Hflag. cbn [bind]. rewrite Hsmall, Hset. cbn [bind]. split; [done|].
  cbn [DummyMP params]. by apply set_notfit_values.
Qed.

(** The whole driver on an image of five by five pixels with one island of
    nine: with [max_summits] = 0 the source has the fitted angle of 90
    degrees and the flags FITERR and NOTFIT; without the limit it is the same
    source under FITERR alone. *)
Lemma max_summits_run :
  let pixels := NdArray 5 5 [0; 0; 0; 0; 0;  0; 6; 7; 6; 0;  0; 7; 10; 7.5; 0;
                             0; 6; 7; 6; 0;  0; 0; 0; 0; 0]%float in
  exists limited free,
    find_sources_in_image Example.lib (Example.image pixels)
      (Some 1%float) (Some 0%float) (Some 1%float) 5%float 4%float = Ok [limited] /\
    find_sources_in_image Example.lib (Example.image pixels)
      (Some 1%float) None (Some 1%float) 5%float 4%float = Ok [free] /\
    src_pa limited = 90%float /\ src_flags limited = Z.lor FITERR NOTFIT /\
    src_pa free = 90%float /\ src_flags free = FITERR /\
    peak_flux limited = peak_flux free /\ src_a limited = src_a free.
Proof.
  intros pixels. eexists _, _.
  split; [vm_compute; reflexivity|]. split; [vm_compute; reflexivity|].
  repeat split.
Qed.

(** * More properties of the program *)

(** ** Blobs are connected *)

Lemma neighbours_adjacent bounds p n : n ∈ neighbours bounds p -> adjacent p n.
Proof.
  destruct p as [x y]. unfold neighbours, adjacent.
  rewrite !elem_of_app.
  destruct (0 <? x), (x <? bounds.1), (0 <? y), (y <? bounds.2);
    rewrite ?list_elem_of_singleton, ?elem_of_nil;
    intros H; repeat destruct H as [H|H]; subst; simpl; try done; lia.
Qed.

Lemma neighbours_iff rows cols p n :
  inb rows cols p ->
  n ∈ neighbours (Z.of_nat rows - 1, Z.of_nat cols - 1) p <->
  adjacent p n /\ inb rows cols n.
Proof.
  destruct p as [x y], n as [u v]. unfold neighbours, adjacent, inb. simpl.
  intros [Hx Hy]. rewrite !elem_of_app.
  destruct (Z.ltb_spec 0 x), (Z.ltb_spec x (Z.of_nat rows - 1)),
    (Z.ltb_spec 0 y), (Z.ltb_spec y (Z.of_nat cols - 1));
    rewrite ?list_elem_of_singleton, ?elem_of_nil; split;
    try (intros H'; repeat destruct H' as [H'|H']; try done;
         injection H' as -> ->; lia);
    intros [Ha Hb];
    assert ((u = x - 1 /\ v = y) \/ (u = x + 1 /\ v = y) \/
            (u = x /\ v = y - 1) \/ (u = x /\ v = y + 1)) as Hc by lia;
    destruct Hc as [[-> ->]|[[-> ->]|[[-> ->]|[-> ->]]]]; try lia; tauto.
Qed.

Section Connected.
Variables (data rmsimg : ndarray float) (cutoff : float) (bounds : Z * Z).

Lemma explore_fold_raise (l : list pixel) (r : res (ndarray Z * list pixel)) :
  (forall sq, r <> Ok sq) ->
  forall sq, foldl (fun acc new => sq <- acc ; explore_one data rmsimg cutoff sq new)
                   r l <> Ok sq.
Proof.
  revert r. induction l as [|new l IH]; intros r Hr sq; simpl; [apply Hr|].
  apply IH. intros sq'. destruct r; simpl; [by destruct (Hr a)|done..].
Qed.

Lemma explore_one_adds st queue new st' queue' :
  explore_one data rmsimg cutoff (st, queue) new = Ok (st', queue') ->
  queue' = queue \/ queue' = queue ++ [new].
Proof.
  unfold explore_one. intros H.
  destruct (nd_get st new) as [s| |]; cbn [bind] in H; [|done..].
  destruct (has_flag s QUEUED); [injection H as <- <-; by left|].
  destruct (nd_get data new) as [d| |]; cbn [bind] in H; [|done..].
  destruct (nd_get rmsimg new) as [r| |]; cbn [bind] in H; [|done..].
  destruct (cutoff <=? d / r)%float; [|injection H as <- <-; by left].
  destruct (nd_set st new _) as [st1| |]; cbn [bind] in H; [|done..].
  injection H as <- <-. by right.
Qed.

Lemma explore_fold_adds (l : list pixel) :
  forall st queue st' queue',
  foldl (fun acc new => sq <- acc ; explore_one data rmsimg cutoff sq new)
        (Ok (st, queue)) l = Ok (st', queue') ->
  exists news, queue' = queue ++ news /\ forall n, n ∈ news -> n ∈ l.
Proof.
  induction l as [|new l IH]; intros st queue st' queue' H; cbn [foldl bind] in H.
  - injection H as <- <-. exists []. split; [by rewrite app_nil_r|].
    by intros n ?%elem_of_nil.
  - destruct (explore_one data rmsimg cutoff (st, queue) new) as [[st1 q1]| |] eqn:E.
    2,3: by apply explore_fold_raise in H.
    destruct (IH _ _ _ _ H) as (news & -> & Hnews).
    destruct (explore_one_adds _ _ _ _ _ E) as [->| ->].
    + exists news. split; [done|]. intros n Hn. right. by apply Hnews.
    + exists (new :: news). split; [by rewrite <- app_assoc|].
      intros n [->|Hn]%elem_of_cons; [left|right; by apply Hnews].
Qed.

Lemma explore_adds st queue p st' queue' :
  explore data rmsimg st queue bounds cutoff p = Ok (st', queue') ->
  exists news, queue' = queue ++ news /\ forall n, n ∈ news -> adjacent p n.
Proof.
  unfold explore. destruct ((p.1 <? 0) || (p.2 <? 0)); [done|].
  intros (news & -> & Hnews)%explore_fold_adds.
  exists news. split; [done|]. intros n Hn. eapply neighbours_adjacent. by apply Hnews.
Qed.

(** What the loop of [flood] keeps, whatever the status map holds: the
    blob grows pixel by pixel from its first one, and every pixel waiting in
    the queue touches the blob, or is the only one waiting when the blob is
    still empty. *)
Lemma flood_loop_connected fuel :
  forall st queue blob blob' st',
  flood_loop fuel data rmsimg bounds cutoff st queue blob = Ok (blob', st') ->
  grown_from_seed blob ->
  (forall q, q ∈ queue -> exists p, p ∈ blob /\ adjacent p q) \/
    (blob = [] /\ (length queue <= 1)%nat) ->
  grown_from_seed blob'.
Proof.
  induction fuel as [|fuel IH]; intros st queue blob blob' st' H Hblob Hqueue.
  - destruct queue; [|done]. by injection H as <- <-.
  - destruct queue as [|p queue]; [by injection H as <- <-|]. cbn [flood_loop] in H.
    destruct (nd_get st p) as [s| |]; cbn [bind] in H; [|done..].
    destruct (has_flag s VISITED).
    { apply (IH _ _ _ _ _ H Hblob). destruct Hqueue as [Hq|[-> Hlen]].
      - left. intros q Hq'. apply Hq. by right.
      - right. split; [done|]. simpl in Hlen. lia. }
    destruct (nd_set st p _) as [st1| |]; cbn [bind] in H; [|done..].
    destruct (explore _ _ _ _ _ _ _) as [[st2 q2]| |] eqn:E; cbn [bind] in H; [|done..].
    destruct (explore_adds _ _ _ _ _ E) as (news & -> & Hnews).
    apply (IH _ _ _ _ _ H).
    + intros i q Hi Hpos.
      destruct (decide (i < length blob)%nat) as [Hlt|Hge].
      * rewrite lookup_app_l in Hi by done.
        destruct (Hblob i q Hi Hpos) as (j & p' & Hj & Hp' & Hadj).
        exists j, p'. split; [done|]. split; [|done].
        rewrite lookup_app_l by lia. done.
      * rewrite lookup_app_r in Hi by lia.
        destruct (i - length blob)%nat as [|k] eqn:Ek; [|by destruct k].
        injection Hi as <-.
        destruct Hqueue as [Hq|[-> _]]; [|simpl in *; lia].
        destruct (Hq p) as (p' & Hp' & Hadj); [left|].
        apply list_elem_of_lookup in Hp' as [j Hj].
        exists j, p'. split; [apply lookup_lt_Some in Hj; lia|].
        split; [|done]. by apply lookup_app_l_Some.
    + left. intros q [Hq|Hq]%elem_of_app.
      * destruct Hqueue as [Hq'|[-> Hlen]].
        -- destruct (Hq' q) as (p' & Hp' & Hadj); [by right|].
           exists p'. split; [|done]. apply elem_of_app. by left.
        -- simpl in Hlen. destruct queue; [by apply elem_of_nil in Hq|simpl in Hlen; lia].
      * exists p. split; [|by apply Hnews]. apply elem_of_app. right. by left.
Qed.

Lemma flood_connected st peak blob st' :
  flood data rmsimg st bounds peak cutoff = Ok (blob, st') ->
  grown_from_seed blob.
Proof.
  unfold flood. intros H.
  destruct (nd_get st peak) as [s| |]; cbn [bind] in H; [|done..].
  destruct (has_flag s VISITED).
  { injection H as <- <-. by intros i q ?. }
  destruct (nd_set st peak _) as [st1| |]; cbn [bind] in H; [|done..].
  apply (flood_loop_connected _ _ _ _ _ _ H); [by intros i q ?|].
  right. split; [done|]. simpl. lia.
Qed.

Lemma flood_peaks_connected expand peaks :
  forall st tr st',
  flood_peaks data rmsimg bounds cutoff expand st peaks = Ok (tr, st') ->
  Forall (fun y => grown_from_seed y.1) tr.
Proof.
  induction peaks as [|peak peaks IH]; intros st tr st' H; cbn [flood_peaks] in H.
  - injection H as <- <-. apply Forall_nil_2.
  - destruct (flood _ _ _ _ _ _) as [[blob st1]| |] eqn:E; cbn [bind] in H; [|done..].
    destruct (1 <=? length blob)%nat; [|by eapply IH].
    destruct expand; [done|].
    destruct (Island.list2map data blob) as [isle| |]; cbn [bind] in H; [|done..].
    destruct (flood_peaks _ _ _ _ _ _ _) as [[tr1 st2]| |] eqn:E'; cbn [bind] in H;
      [|done..].
    injection H as <- <-. apply Forall_cons. split; [|by eapply IH].
    by eapply flood_connected.
Qed.

End Connected.

Lemma gen_flood_wrap_trace_connected data rmsimg innerclip outerclip expand tr st :
  gen_flood_wrap_trace data rmsimg innerclip outerclip expand = Ok (tr, st) ->
  Forall (fun y => grown_from_seed y.1) tr.
Proof.
  unfold gen_flood_wrap_trace.
  destruct (negb (same_shape data rmsimg)); [done|].
  destruct (res_mapM _ _) as [peaks| |]; cbn [bind]; [|done..].
  destruct (length peaks =? 0)%nat.
  { intros [= <- _]. apply Forall_nil_2. }
  apply flood_peaks_connected.
Qed.

(** X1.  The blobs of a segmentation pass are connected: every pixel of a
    blob after its seed shares a side with a pixel that joined the same blob
    before it, so that each pixel is linked to the seed through the blob by
    steps along rows and columns, never along a diagonal. *)
Theorem blobs_are_connected (data rmsimg : ndarray float)
    (innerclip : float) (outerclip : option float) :
  nd_wf data -> nd_wf rmsimg ->
  nd_rows rmsimg = nd_rows data -> nd_cols rmsimg = nd_cols data ->
  exists tr st,
    gen_flood_wrap_trace data rmsimg innerclip outerclip false = Ok (tr, st) /\
    forall y, y ∈ tr -> grown_from_seed y.1.
Proof.
  intros Hd Hr Hrows Hcols.
  destruct (gen_flood_wrap_trace_inv data rmsimg innerclip
              (default innerclip outerclip) Hd Hr Hrows Hcols outerclip eq_refl)
    as (tr & st & Hrun & _ & _).
  exists tr, st. split; [done|].
  apply Forall_forall. by eapply gen_flood_wrap_trace_connected.
Qed.

Lemma blobs_are_connected_witness :
  exists tr st,
    gen_flood_wrap_trace
      (NdArray 3 4 [1; 6; 4.5; 1; 1; 1; 7; 1; 9; 1; 1; 1]%float)
      (nd_full 3 4 1%float) 5%float (Some 4%float) false = Ok (tr, st) /\
    forall y, y ∈ tr -> grown_from_seed y.1.
Proof.
  apply (blobs_are_connected
           (NdArray 3 4 [1; 6; 4.5; 1; 1; 1; 7; 1; 9; 1; 1; 1]%float)
           (nd_full 3 4 1%float) 5%float (Some 4%float)); reflexivity.
Defined.

(** ** Blobs are maximal *)

Lemma adjacent_sym p q : adjacent p q -> adjacent q p.
Proof. unfold adjacent. lia. Qed.

Lemma elem_of_concat_take {A} (ls : list (list A)) k x :
  x ∈ concat (take k ls) <->
  exists j b, (j < k)%nat /\ ls !! j = Some b /\ x ∈ b.
Proof.
  rewrite list_elem_of_In, in_concat. split.
  - intros (b & Hb%list_elem_of_In & Hx%list_elem_of_In).
    apply list_elem_of_lookup in Hb as [j Hj].
    apply lookup_take_Some in Hj as [Hj Hlt]. by exists j, b.
  - intros (j & b & Hlt & Hj & Hx). exists b.
    split; apply list_elem_of_In; [|done].
    apply list_elem_of_lookup. exists j. by apply lookup_take_Some.
Qed.

Section Maximal.
Variables (data rmsimg : ndarray float) (cutoff : float).
Hypothesis Hdata : nd_wf data.
Hypothesis Hrms : nd_wf rmsimg.
Hypothesis Hrows : nd_rows rmsimg = nd_rows data.
Hypothesis Hcols : nd_cols rmsimg = nd_cols data.

Abbreviation inside := (inb (nd_rows data) (nd_cols data)).
Abbreviation bounds := (Z.of_nat (nd_rows data) - 1, Z.of_nat (nd_cols data) - 1).
Abbreviation reaches := (fun q => snr_ge data rmsimg cutoff q = true).

(** One guarded block of [explore] clears no QUEUED bit, and leaves the
    pixel it looks at QUEUED when that pixel reaches the clip. *)
Lemma explore_one_queues done peak st queue blob new st' queue' :
  linv data rmsimg cutoff done peak st queue blob -> inside new ->
  explore_one data rmsimg cutoff (st, queue) new = Ok (st', queue') ->
  (forall q, inside q -> stq st q = true -> stq st' q = true) /\
  (reaches new -> stq st' new = true).
Proof.
  intros L Hnew. unfold explore_one.
  destruct (status_get data st new) as (s & Hs & _); [by destruct L|done|].
  rewrite Hs. cbn [bind].
  destruct (has_flag s QUEUED) eqn:Hq.
  { intros [= <- <-]. split; [done|]. intros _. unfold stq. by rewrite Hs. }
  unfold snr_ge.
  destruct (nd_get data new) as [d| |]; cbn [bind]; [|done..].
  destruct (nd_get rmsimg new) as [r| |]; cbn [bind]; [|done..].
  destruct (cutoff <=? d / r)%float.
  2:{ intros [= <- <-]. split; done. }
  destruct (status_set data st new (Z.lor s QUEUED)) as (st1 & -> & _ & _ & Hq' & _);
    [by destruct L|done|].
  cbn [bind]. intros [= <- <-]. split.
  - intros q Hq0 Hq1. rewrite Hq' by done.
    destruct (decide _); [by apply has_flag_lor_same|done].
  - intros _. rewrite Hq' by done. rewrite decide_True by done.
    by apply has_flag_lor_same.
Qed.

Lemma explore_fold_queues done peak blob l :
  Forall inside l -> forall st queue st' queue',
  linv data rmsimg cutoff done peak st queue blob ->
  foldl (fun acc new => sq <- acc ; explore_one data rmsimg cutoff sq new)
        (Ok (st, queue)) l = Ok (st', queue') ->
  (forall q, inside q -> stq st q = true -> stq st' q = true) /\
  (forall n, n ∈ l -> reaches n -> stq st' n = true).
Proof.
  induction 1 as [|new l Hnew Hl IH]; intros st queue st' queue' L Hrun;
    cbn [foldl bind] in Hrun.
  - injection Hrun as <- <-. split; [done|]. by intros n ?%elem_of_nil.
  - destruct (explore_one_inv data rmsimg cutoff Hdata Hrms Hrows Hcols
                _ _ _ _ _ _ L Hnew) as (st1 & q1 & E1 & L1 & _).
    rewrite E1 in Hrun.
    destruct (explore_one_queues _ _ _ _ _ _ _ _ L Hnew E1) as [Hmono1 Hnew1].
    destruct (IH _ _ _ _ L1 Hrun) as [Hmono Hdone].
    split; [by auto|].
    intros n [->|Hn]%elem_of_cons Hsnr; [|by auto].
    apply Hmono; [done|by auto].
Qed.

(** [explore] at a pixel of the image leaves QUEUED every pixel of the
    image that shares a side with it and reaches the clip. *)
Lemma explore_queues done peak st queue blob p st' queue' :
  linv data rmsimg cutoff done peak st queue blob -> inside p ->
  explore data rmsimg st queue bounds cutoff p = Ok (st', queue') ->
  (forall q, inside q -> stq st q = true -> stq st' q = true) /\
  (forall q, inside q -> adjacent p q -> reaches q -> stq st' q = true).
Proof.
  intros L Hp. unfold explore.
  destruct ((p.1 <? 0) || (p.2 <? 0)); [done|]. intros Hrun.
  destruct (explore_fold_queues done peak blob (neighbours bounds p)
              (neighbours_inside data rmsimg Hrows Hcols p Hp) _ _ _ _ L Hrun) as [Hmono Hn].
  split; [done|]. intros q Hq Hadj. apply Hn. by apply neighbours_iff.
Qed.

Lemma flood_loop_closed done peak fuel :
  forall st queue blob blob' st',
  linv data rmsimg cutoff done peak st queue blob ->
  (forall p q, p ∈ done ++ blob -> inside q -> adjacent p q -> reaches q ->
     stq st q = true) ->
  flood_loop fuel data rmsimg bounds cutoff st queue blob = Ok (blob', st') ->
  forall p q, p ∈ done ++ blob' -> inside q -> adjacent p q -> reaches q ->
    stq st' q = true.
Proof.
  induction fuel as [|fuel IH]; intros st queue blob blob' st' L Hcl Hrun.
  - destruct queue; [|done]. by injection Hrun as <- <-.
  - destruct queue as [|p queue]; [by injection Hrun as <- <-|].
    cbn [flood_loop] in Hrun.
    destruct (l_queue _ _ _ _ _ _ _ _ L p) as (Hp & _); [left|].
    destruct (status_get data st p) as (s & Hs & _); [by destruct L|done|].
    rewrite Hs in Hrun; cbn [bind] in Hrun.
    destruct (visit_inv data rmsimg cutoff _ _ _ _ _ _ _ L Hs)
      as (Hsv & st1 & Hset & L1 & _).
    rewrite Hsv, Hset in Hrun. cbn [bind] in Hrun.
    assert (Hstq : forall q, inside q -> stq st1 q = stq st q).
    { destruct (status_set data st p (Z.lor s VISITED))
        as (st1' & Hset' & _ & _ & Hq' & _); [by destruct L|done|].
      rewrite Hset in Hset'. injection Hset' as <-.
      intros q Hq. rewrite Hq' by done. destruct (decide _) as [->|]; [|done].
      rewrite has_flag_lor_other by done. unfold stq. by rewrite Hs. }
    destruct (explore_inv data rmsimg cutoff Hdata Hrms Hrows Hcols
                _ _ _ _ _ _ L1 Hp) as (st2 & q2 & E & L2 & _).
    rewrite E in Hrun. cbn [bind fst snd] in Hrun.
    destruct (explore_queues _ _ _ _ _ _ _ _ L1 Hp E) as [Hmono Hnb].
    apply (IH _ _ _ _ _ L2); [|done].
    intros p' q. rewrite app_assoc, elem_of_app, list_elem_of_singleton.
    intros [Hp'| ->] Hq Hadj Hsnr; [|by apply Hnb].
    apply Hmono; [done|]. rewrite Hstq by done. by eapply Hcl.
Qed.

(** The first step of [flood] at a pixel not yet VISITED. *)
Lemma flood_start_inv done st peak s :
  ginv data st done -> inside peak -> nd_get st peak = Ok s ->
  has_flag s VISITED = false ->
  exists st0, nd_set st peak (Z.lor s QUEUED) = Ok st0 /\
    linv data rmsimg cutoff done peak st0 [peak] [] /\
    (forall q, inside q -> stq st q = true -> stq st0 q = true).
Proof.
  intros G Hpeak Hs Hsv. pose proof G as G'. destruct G'.
  assert (Hv : stv st peak = false) by (unfold stv; by rewrite Hs).
  destruct (status_set data st peak (Z.lor s QUEUED)) as (st0 & -> & Hsh & Hb & Hq' & Hv');
    [done..|].
  assert (HQ : has_flag (Z.lor s QUEUED) QUEUED = true) by by apply has_flag_lor_same.
  assert (HV : has_flag (Z.lor s QUEUED) VISITED = has_flag s VISITED)
    by by apply has_flag_lor_other.
  assert (Hstv : forall q, inside q -> stv st0 q = stv st q).
  { intros q Hq0. rewrite Hv' by done. destruct (decide _) as [->|]; [|done].
    by rewrite HV, Hv. }
  exists st0. split; [done|]. split; [split|].
  - done.
  - intros p Hp. rewrite Hq', Hstv, list_elem_of_singleton by done.
    destruct (decide _); [by right|]. left. by apply g_qv0.
  - intros p ->%list_elem_of_singleton. rewrite Hq', Hstv by done.
    destruct (decide _); [|done]. by rewrite HQ, Hv.
  - apply NoDup_singleton.
  - intros p. rewrite app_nil_r, g_visited0.
    split; intros [? ?]; (split; [done|]); [by rewrite Hstv|by rewrite <- Hstv].
  - by rewrite app_nil_r.
  - intros p Hp. rewrite Hq', Hstv by done.
    destruct (decide _); [done|]. by apply g_vq0.
  - intros p ->%list_elem_of_singleton. by left.
  - by exists [].
  - intros q Hq Hq1. rewrite Hq' by done. by destruct (decide _).
Qed.

(** A flood leaves the set of visited pixels closed under growth when it
    found it so. *)
Lemma flood_closed done st peak blob st' :
  ginv data st done -> inside peak ->
  closed_under_growth data rmsimg cutoff done ->
  flood data rmsimg st bounds peak cutoff = Ok (blob, st') ->
  closed_under_growth data rmsimg cutoff (done ++ blob).
Proof.
  intros G Hpeak Hcl. unfold flood.
  destruct (status_get data st peak) as (s & Hs & _); [by destruct G|done|].
  rewrite Hs; cbn [bind].
  destruct (has_flag s VISITED) eqn:Hsv.
  { intros [= <- <-]. by rewrite app_nil_r. }
  destruct (flood_start_inv done st peak s G Hpeak Hs Hsv) as (st0 & -> & L & Hmono).
  cbn [bind]. intros Hrun.
  destruct (flood_loop_inv data rmsimg cutoff Hdata Hrms Hrows Hcols done peak
              (S (length (nd_buf st0))) st0 [peak] [] L) as (blob1 & st1 & Hloop & L').
  { pose proof (unq_le (nd_buf st0)). simpl. lia. }
  rewrite Hloop in Hrun. injection Hrun as -> ->.
  assert (Hpre : forall p q, p ∈ done ++ [] -> inside q -> adjacent p q -> reaches q ->
            stq st0 q = true).
  { intros p q. rewrite app_nil_r. intros Hp Hq Hadj Hsnr.
    apply Hmono; [done|]. apply (g_vq _ _ _ G); [done|].
    by apply (g_visited _ _ _ G), (Hcl p q). }
  pose proof (flood_loop_closed done peak _ _ _ _ _ _ L Hpre Hloop) as Hpost.
  intros p q Hp Hq Hadj Hsnr.
  apply (l_visited _ _ _ _ _ _ _ _ L'). split; [done|].
  destruct (l_queued _ _ _ _ _ _ _ _ L' q Hq) as [?|Hin]; [by eapply Hpost|done|].
  by apply elem_of_nil in Hin.
Qed.

Lemma flood_peaks_closed peaks :
  forall st done tr st',
  ginv data st done -> Forall inside peaks ->
  closed_under_growth data rmsimg cutoff done ->
  flood_peaks data rmsimg bounds cutoff false st peaks = Ok (tr, st') ->
  forall k, closed_under_growth data rmsimg cutoff
              (done ++ concat (take k (fst <$> tr))).
Proof.
  induction peaks as [|peak peaks IH]; intros st done tr st' G Hpeaks Hcl Hrun k;
    cbn [flood_peaks] in Hrun.
  - injection Hrun as <- <-. rewrite fmap_nil, take_nil. simpl. by rewrite app_nil_r.
  - apply Forall_cons in Hpeaks as [Hpeak Hpeaks].
    destruct (flood_inv data rmsimg cutoff Hdata Hrms Hrows Hcols done st peak G Hpeak)
      as (blob & st1 & E & G1 & _ & _).
    rewrite E in Hrun. cbn [bind] in Hrun.
    pose proof (flood_closed _ _ _ _ _ G Hpeak Hcl E) as Hcl1.
    destruct blob as [|b0 blob]; cbn [length Nat.leb] in Hrun.
    + rewrite app_nil_r in G1, Hcl1. by eapply IH.
    + destruct (Island.list2map data (b0 :: blob)) as [isle| |]; cbn [bind] in Hrun;
        [|done..].
      destruct (flood_peaks _ _ _ _ _ _ _) as [[tr1 st2]| |] eqn:E'; cbn [bind] in Hrun;
        [|done..].
      injection Hrun as <- <-. rewrite fmap_cons. cbn [fst].
      destruct k as [|k]; [simpl; rewrite app_nil_r; by apply Hcl|].
      cbn [take concat]. rewrite app_assoc. by eapply IH.
Qed.

End Maximal.

Lemma initial_status_inv (data rmsimg : ndarray float) (innerclip : float) :
  ginv data (initial_status data rmsimg innerclip) [].
Proof.
  set (st0 := initial_status data rmsimg innerclip).
  assert (Hcell : forall p s, nd_get st0 p = Ok s -> s = 0 \/ s = 1).
  { intros p s (q & -> & _)%nd_get_elem%list_elem_of_fmap.
    destruct (snr_gt _ _ _ q); [by right|by left]. }
  assert (Hq : forall p, stq st0 p = false).
  { intros p. unfold stq. destruct (nd_get st0 p) as [s| |] eqn:E; [|done..].
    by destruct (Hcell p s E) as [-> | ->]. }
  assert (Hv : forall p, stv st0 p = false).
  { intros p. unfold stv. destruct (nd_get st0 p) as [s| |] eqn:E; [|done..].
    by destruct (Hcell p s E) as [-> | ->]. }
  split.
  - split; [|done]. unfold nd_wf, st0; simpl.
    rewrite length_fmap. apply nd_indices_length.
  - intros p _. by rewrite Hq.
  - intros p _. by rewrite Hv.
  - intros p. rewrite Hv. split; [by intros ?%elem_of_nil|by intros [_ ?]].
  - apply NoDup_nil_2.
Qed.

(** What [gen_flood_wrap] does after it has read the peaks. *)
Lemma gen_flood_wrap_trace_unfold data rmsimg innerclip outerclip expand :
  nd_wf data ->
  nd_rows rmsimg = nd_rows data -> nd_cols rmsimg = nd_cols data ->
  exists peaks,
    peaks ≡ₚ filter (fun p => snr_gt data rmsimg innerclip p = true)
               (nd_indices (nd_rows data) (nd_cols data)) /\
    gen_flood_wrap_trace data rmsimg innerclip outerclip expand =
      if (length peaks =? 0)%nat
      then Ok ([], initial_status data rmsimg innerclip)
      else flood_peaks data rmsimg
             (Z.of_nat (nd_rows data) - 1, Z.of_nat (nd_cols data) - 1)
             (default innerclip outerclip) expand
             (initial_status data rmsimg innerclip) peaks.
Proof.
  intros Hdata Hrows Hcols. unfold gen_flood_wrap_trace.
  unfold same_shape. rewrite Hrows, Hcols, !Nat.eqb_refl. cbn [andb negb].
  set (hot := filter _ _).
  destruct (peaks_read data hot Hdata) as (peaks & -> & Hproj).
  { apply Forall_forall. intros p [_ Hp]%list_elem_of_filter. by apply nd_indices_inb. }
  cbn [bind]. exists ((fun t : float * Z * Z => (t.1.2, t.2)) <$> sort_desc peaks).
  split.
  - by rewrite (fmap_Permutation _ _ _ (sort_desc_perm peaks)), Hproj.
  - by rewrite length_fmap, (Permutation_length (sort_desc_perm peaks)).
Qed.

(** X2.  The blobs of a segmentation pass are maximal.  A pixel of the image
    that shares a side with a pixel of a blob and whose signal to noise
    reaches the flood clip lies in that blob or in one grown before it; and
    when the blob's pixel reaches the flood clip as well, the two pixels lie
    in the same blob.  Two blobs can therefore touch only along pixels that
    are seeds below the flood clip. *)
Theorem blobs_are_maximal (data rmsimg : ndarray float)
    (innerclip : float) (outerclip : option float) :
  nd_wf data -> nd_wf rmsimg ->
  nd_rows rmsimg = nd_rows data -> nd_cols rmsimg = nd_cols data ->
  exists tr st,
    gen_flood_wrap_trace data rmsimg innerclip outerclip false = Ok (tr, st) /\
    forall i b p q,
      (fst <$> tr) !! i = Some b -> p ∈ b ->
      inb (nd_rows data) (nd_cols data) q -> adjacent p q ->
      snr_ge data rmsimg (default innerclip outerclip) q = true ->
      (exists j b', (j <= i)%nat /\ (fst <$> tr) !! j = Some b' /\ q ∈ b') /\
      (snr_ge data rmsimg (default innerclip outerclip) p = true -> q ∈ b).
Proof.
  intros Hd Hr Hrows Hcols.
  destruct (gen_flood_wrap_trace_inv data rmsimg innerclip
              (default innerclip outerclip) Hd Hr Hrows Hcols outerclip eq_refl)
    as (tr & st & Hrun & G & _).
  exists tr, st. split; [done|].
  assert (Hcl : forall k, closed_under_growth data rmsimg (default innerclip outerclip)
                            (concat (take k (fst <$> tr)))).
  { destruct (gen_flood_wrap_trace_unfold data rmsimg innerclip outerclip false
                Hd Hrows Hcols) as (peaks & Hperm & Heq).
    rewrite Heq in Hrun. intros k. destruct (length peaks =? 0)%nat.
    { injection Hrun as <- _. rewrite fmap_nil, take_nil. by intros p q ?%elem_of_nil. }
    apply (flood_peaks_closed data rmsimg (default innerclip outerclip)
             Hd Hr Hrows Hcols peaks _ [] tr st
             (initial_status_inv data rmsimg innerclip)); [| |done].
    - rewrite Hperm. apply Forall_forall.
      intros p [_ Hp]%list_elem_of_filter. by apply nd_indices_inb.
    - by intros p q ?%elem_of_nil. }
  assert (Hfind : forall i b p q,
            (fst <$> tr) !! i = Some b -> p ∈ b ->
            inb (nd_rows data) (nd_cols data) q -> adjacent p q ->
            snr_ge data rmsimg (default innerclip outerclip) q = true ->
            exists j b', (j <= i)%nat /\ (fst <$> tr) !! j = Some b' /\ q ∈ b').
  { intros i b p q Hi Hp Hq Hadj Hsnr.
    destruct (proj1 (elem_of_concat_take (fst <$> tr) (S i) q)) as (j & b' & Hj & Hb' & Hqb').
    { apply (Hcl (S i) p q); [|done..]. apply elem_of_concat_take.
      exists i, b. split; [lia|done]. }
    exists j, b'. split; [lia|done]. }
  intros i b p q Hi Hp Hq Hadj Hsnr. split; [by eapply Hfind|].
  intros Hsnrp.
  destruct (Hfind i b p q Hi Hp Hq Hadj Hsnr) as (j & b' & Hj & Hb' & Hqb').
  destruct (decide (j = i)) as [->|Hne]; [congruence|].
  assert (Hpin : inb (nd_rows data) (nd_cols data) p).
  { apply (g_visited _ _ _ G p). apply list_elem_of_In, in_concat.
    exists b. split; apply list_elem_of_In; [by eapply list_elem_of_lookup_2|done]. }
  destruct (Hfind j b' q p Hb' Hqb' Hpin (adjacent_sym _ _ Hadj) Hsnrp)
    as (j' & b'' & Hj' & Hb'' & Hpb'').
  exfalso.
  apply (concat_disjoint (fst <$> tr) i j' b b'' p (g_nodup _ _ _ G)); [lia|done..].
Qed.

Lemma blobs_are_maximal_witness :
  exists tr st,
    gen_flood_wrap_trace
      (NdArray 3 4 [1; 6; 4.5; 1; 1; 1; 7; 1; 9; 1; 1; 1]%float)
      (nd_full 3 4 1%float) 5%float (Some 4%float) false = Ok (tr, st) /\
    forall i b p q,
      (fst <$> tr) !! i = Some b -> p ∈ b ->
      inb 3 4 q -> adjacent p q ->
      snr_ge (NdArray 3 4 [1; 6; 4.5; 1; 1; 1; 7; 1; 9; 1; 1; 1]%float)
             (nd_full 3 4 1%float) 4%float q = true ->
      (exists j b', (j <= i)%nat /\ (fst <$> tr) !! j = Some b' /\ q ∈ b') /\
      (snr_ge (NdArray 3 4 [1; 6; 4.5; 1; 1; 1; 7; 1; 9; 1; 1; 1]%float)
              (nd_full 3 4 1%float) 4%float p = true -> q ∈ b).
Proof.
  apply (blobs_are_maximal
           (NdArray 3 4 [1; 6; 4.5; 1; 1; 1; 7; 1; 9; 1; 1; 1]%float)
           (nd_full 3 4 1%float) 5%float (Some 4%float)); reflexivity.
Defined.

(** ** What the segmenter finds *)

Lemma nd_indices_complete rows cols p : inb rows cols p -> p ∈ nd_indices rows cols.
Proof.
  destruct p as [x y]. intros [Hx Hy]; simpl in *. unfold nd_indices.
  apply list_elem_of_bind. exists (Z.to_nat x). split; [|apply elem_of_seq; lia].
  apply list_elem_of_bind. exists (Z.to_nat y). split; [|apply elem_of_seq; lia].
  apply list_elem_of_singleton. f_equal; lia.
Qed.

Lemma initial_status_unvisited data rmsimg innerclip p :
  stv (initial_status data rmsimg innerclip) p = false.
Proof.
  unfold stv. destruct (nd_get _ p) as [s| |] eqn:E; [|done..].
  apply nd_get_elem, list_elem_of_fmap in E as (q & -> & _).
  by destruct (snr_gt _ _ _ q).
Qed.

(** X3.  With [expand] left at its default, [True], the generator yields
    nothing: as soon as some pixel of the image exceeds the seed clip, the
    first flood makes a blob and the program exits. *)
Theorem expand_exits_at_the_first_blob (data rmsimg : ndarray float)
    (innerclip : float) (outerclip : option float) (p : pixel) :
  nd_wf data -> nd_wf rmsimg ->
  nd_rows rmsimg = nd_rows data -> nd_cols rmsimg = nd_cols data ->
  inb (nd_rows data) (nd_cols data) p ->
  snr_gt data rmsimg innerclip p = true ->
  gen_flood_wrap data rmsimg innerclip outerclip true = Raise SysExit.
Proof.
  intros Hd Hr Hrows Hcols Hp Hsnr. unfold gen_flood_wrap.
  destruct (gen_flood_wrap_trace_unfold data rmsimg innerclip outerclip true
              Hd Hrows Hcols) as (peaks & Hperm & ->).
  assert (Hin : p ∈ peaks).
  { rewrite Hperm. apply list_elem_of_filter. split; [done|].
    by apply nd_indices_complete. }
  destruct peaks as [|peak peaks]; [by apply elem_of_nil in Hin|].
  assert (Hpeak : inb (nd_rows data) (nd_cols data) peak).
  { assert (Hpk : peak ∈ peak :: peaks) by left.
    rewrite Hperm in Hpk. apply list_elem_of_filter in Hpk as [_ Hpk].
    by apply nd_indices_inb. }
  cbn [length Nat.eqb flood_peaks].
  destruct (flood_inv data rmsimg (default innerclip outerclip) Hd Hr Hrows Hcols []
              _ peak (initial_status_inv data rmsimg innerclip) Hpeak)
    as (blob & st1 & -> & _ & _ & Hnew).
  destruct Hnew as (tl & -> & _); [apply initial_status_unvisited|].
  done.
Qed.

Lemma expand_exits_at_the_first_blob_witness :
  gen_flood_wrap (NdArray 3 4 [1; 6; 4.5; 1; 1; 1; 7; 1; 9; 1; 1; 1]%float)
    (nd_full 3 4 1%float) 5%float (Some 4%float) true = Raise SysExit.
Proof.
  apply (expand_exits_at_the_first_blob
           (NdArray 3 4 [1; 6; 4.5; 1; 1; 1; 7; 1; 9; 1; 1; 1]%float)
           (nd_full 3 4 1%float) 5%float (Some 4%float) (0, 1));
    [reflexivity..| |reflexivity].
  unfold inb; simpl; lia.
Defined.

(** X4.  When no pixel of the image exceeds the seed clip, the generator
    ends at once and yields no island, whatever [expand] is: nothing is
    flooded, however many pixels reach the flood clip. *)
Theorem no_seed_no_island (data rmsimg : ndarray float)
    (innerclip : float) (outerclip : option float) (expand : bool) :
  nd_wf data ->
  nd_rows rmsimg = nd_rows data -> nd_cols rmsimg = nd_cols data ->
  (forall p, inb (nd_rows data) (nd_cols data) p ->
     snr_gt data rmsimg innerclip p = false) ->
  gen_flood_wrap data rmsimg innerclip outerclip expand = Ok [].
Proof.
  intros Hd Hrows Hcols Hnone. unfold gen_flood_wrap.
  destruct (gen_flood_wrap_trace_unfold data rmsimg innerclip outerclip expand
              Hd Hrows Hcols) as (peaks & Hperm & ->).
  destruct peaks as [|peak peaks]; [done|]. exfalso.
  assert (Hin : peak ∈ peak :: peaks) by left.
  rewrite Hperm in Hin. apply list_elem_of_filter in Hin as [Hsnr Hi].
  rewrite Hnone in Hsnr; [done|]. by apply nd_indices_inb.
Qed.

Lemma no_seed_no_island_witness :
  gen_flood_wrap (NdArray 1 2 [4.5; 4]%float) (nd_full 1 2 1%float)
    5%float (Some 4%float) true = Ok [].
Proof.
  apply (no_seed_no_island (NdArray 1 2 [4.5; 4]%float) (nd_full 1 2 1%float)
           5%float (Some 4%float) true); [reflexivity..|].
  intros [x y] [Hx Hy]; simpl in *.
  assert (x = 0) as -> by lia.
  assert (y = 0 \/ y = 1) as [-> | ->] by lia; reflexivity.
Defined.

Section Covers.
Variables (data rmsimg : ndarray float) (cutoff : float).
Hypothesis Hdata : nd_wf data.
Hypothesis Hrms : nd_wf rmsimg.
Hypothesis Hrows : nd_rows rmsimg = nd_rows data.
Hypothesis Hcols : nd_cols rmsimg = nd_cols data.

(** Every peak handed to the loop over the peaks ends in a blob, one grown
    before or one of this loop. *)
Lemma flood_peaks_covers peaks :
  forall st done tr st',
  ginv data st done ->
  Forall (inb (nd_rows data) (nd_cols data)) peaks ->
  flood_peaks data rmsimg (Z.of_nat (nd_rows data) - 1, Z.of_nat (nd_cols data) - 1)
    cutoff false st peaks = Ok (tr, st') ->
  forall p, p ∈ peaks -> p ∈ done ++ concat (fst <$> tr).
Proof.
  induction peaks as [|peak peaks IH]; intros st done tr st' G Hpeaks Hrun p Hp;
    [by apply elem_of_nil in Hp|].
  apply Forall_cons in Hpeaks as [Hpeak Hpeaks]. cbn [flood_peaks] in Hrun.
  destruct (flood_inv data rmsimg cutoff Hdata Hrms Hrows Hcols done st peak G Hpeak)
    as (blob & st1 & E & G1 & Hvis & Hnew).
  rewrite E in Hrun. cbn [bind] in Hrun.
  assert (Hfirst : peak ∈ done ++ blob).
  { destruct (stv st peak) eqn:Hv.
    - apply elem_of_app. left. by apply (g_visited _ _ _ G).
    - destruct Hnew as (tl & -> & _); [done|]. apply elem_of_app. right. left. }
  destruct blob as [|b0 blob]; cbn [length Nat.leb] in Hrun.
  - rewrite app_nil_r in G1, Hfirst.
    apply elem_of_cons in Hp as [->|Hp]; [|by eapply IH].
    apply elem_of_app. by left.
  - destruct (Island.list2map data (b0 :: blob)) as [isle| |]; cbn [bind] in Hrun;
      [|done..].
    destruct (flood_peaks _ _ _ _ _ _ _) as [[tr1 st2]| |] eqn:E'; cbn [bind] in Hrun;
      [|done..].
    injection Hrun as <- <-. rewrite fmap_cons. cbn [fst concat]. rewrite app_assoc.
    apply elem_of_cons in Hp as [->|Hp]; [|by eapply IH].
    apply elem_of_app. by left.
Qed.

End Covers.

(** X5.  No detection is lost and none is counted twice: every pixel of the
    image whose signal to noise exceeds the seed clip lies in one blob of the
    pass, and in one only. *)
Theorem every_seed_is_in_one_blob (data rmsimg : ndarray float)
    (innerclip : float) (outerclip : option float) :
  nd_wf data -> nd_wf rmsimg ->
  nd_rows rmsimg = nd_rows data -> nd_cols rmsimg = nd_cols data ->
  exists tr st,
    gen_flood_wrap_trace data rmsimg innerclip outerclip false = Ok (tr, st) /\
    forall p, inb (nd_rows data) (nd_cols data) p ->
      snr_gt data rmsimg innerclip p = true ->
      exists i b, (fst <$> tr) !! i = Some b /\ p ∈ b /\
        forall j b', (fst <$> tr) !! j = Some b' -> p ∈ b' -> j = i.
Proof.
  intros Hd Hr Hrows Hcols.
  destruct (gen_flood_wrap_trace_inv data rmsimg innerclip
              (default innerclip outerclip) Hd Hr Hrows Hcols outerclip eq_refl)
    as (tr & st & Hrun & G & _).
  exists tr, st. split; [done|]. intros p Hp Hsnr.
  assert (Hin : p ∈ concat (fst <$> tr)).
  { destruct (gen_flood_wrap_trace_unfold data rmsimg innerclip outerclip false
                Hd Hrows Hcols) as (peaks & Hperm & Heq).
    rewrite Heq in Hrun.
    assert (Hpk : p ∈ peaks).
    { rewrite Hperm. apply list_elem_of_filter. split; [done|].
      by apply nd_indices_complete. }
    destruct (length peaks =? 0)%nat eqn:Hlen.
    { destruct peaks; [by apply elem_of_nil in Hpk|done]. }
    apply (flood_peaks_covers data rmsimg (default innerclip outerclip)
             Hd Hr Hrows Hcols peaks _ [] tr st
             (initial_status_inv data rmsimg innerclip)); [|done..].
    rewrite Hperm. apply Forall_forall.
    intros q [_ Hq]%list_elem_of_filter. by apply nd_indices_inb. }
  apply list_elem_of_In, in_concat in Hin as (b & Hb%list_elem_of_In & Hpb%list_elem_of_In).
  apply list_elem_of_lookup in Hb as [i Hi].
  exists i, b. split; [done|]. split; [done|]. intros j b' Hj Hpb'.
  destruct (decide (j = i)) as [|Hne]; [done|]. exfalso.
  by apply (concat_disjoint (fst <$> tr) j i b' b p (g_nodup _ _ _ G)).
Qed.

Lemma every_seed_is_in_one_blob_witness :
  exists tr st,
    gen_flood_wrap_trace
      (NdArray 3 4 [1; 6; 4.5; 1; 1; 1; 7; 1; 9; 1; 1; 1]%float)
      (nd_full 3 4 1%float) 5%float (Some 4%float) false = Ok (tr, st) /\
    forall p, inb 3 4 p ->
      snr_gt (NdArray 3 4 [1; 6; 4.5; 1; 1; 1; 7; 1; 9; 1; 1; 1]%float)
             (nd_full 3 4 1%float) 5%float p = true ->
      exists i b, (fst <$> tr) !! i = Some b /\ p ∈ b /\
        forall j b', (fst <$> tr) !! j = Some b' -> p ∈ b' -> j = i.
Proof.
  apply (every_seed_is_in_one_blob
           (NdArray 3 4 [1; 6; 4.5; 1; 1; 1; 7; 1; 9; 1; 1; 1]%float)
           (nd_full 3 4 1%float) 5%float (Some 4%float)); reflexivity.
Defined.

(** The islands of a pass, next to their blobs. *)
Lemma trace_boxes (data rmsimg : ndarray float)
    (innerclip : float) (outerclip : option float) :
  nd_wf data -> nd_wf rmsimg ->
  nd_rows rmsimg = nd_rows data -> nd_cols rmsimg = nd_cols data ->
  exists tr st,
    gen_flood_wrap_trace data rmsimg innerclip outerclip false = Ok (tr, st) /\
    forall blob pixels xmin xmax ymin ymax,
      (blob, (pixels, xmin, xmax, ymin, ymax)) ∈ tr ->
      nd_wf pixels /\
      nd_shape pixels = (xmax - xmin + 1, ymax - ymin + 1) /\
      (0 <= xmin <= xmax /\ xmax < Z.of_nat (nd_rows data)) /\
      (0 <= ymin <= ymax /\ ymax < Z.of_nat (nd_cols data)) /\
      (forall p, p ∈ blob ->
         inb (nd_rows pixels) (nd_cols pixels) (p.1 - xmin, p.2 - ymin) /\
         nd_get pixels (p.1 - xmin, p.2 - ymin) = nd_get data p) /\
      (forall q, inb (nd_rows pixels) (nd_cols pixels) q ->
         (q.1 + xmin, q.2 + ymin) ∉ blob -> nd_get pixels q = Ok nan) /\
      ((exists p, p ∈ blob /\ p.1 = xmin) /\ (exists p, p ∈ blob /\ p.1 = xmax) /\
       (exists p, p ∈ blob /\ p.2 = ymin) /\ (exists p, p ∈ blob /\ p.2 = ymax)).
Proof.
  intros Hd Hr Hrows Hcols.
  destruct (gen_flood_wrap_trace_inv data rmsimg innerclip
              (default innerclip outerclip) Hd Hr Hrows Hcols outerclip eq_refl)
    as (tr & st & Hrun & G & Hgrown).
  exists tr, st. split; [done|].
  intros blob pixels xmin xmax ymin ymax Hy.
  rewrite Forall_forall in Hgrown.
  destruct (Hgrown _ Hy) as ((seed & tl & Hblob & _) & Hmap). cbn [fst snd] in *.
  assert (Hins : Forall (inb (nd_rows data) (nd_cols data)) blob).
  { apply Forall_forall. intros p Hp. apply (g_visited _ _ _ G p).
    apply list_elem_of_In, in_concat. exists blob.
    split; apply list_elem_of_In; [|done].
    apply list_elem_of_fmap. by exists (blob, (pixels, xmin, xmax, ymin, ymax)). }
  destruct (list2map_spec data Hd blob) as
    (px & x0 & x1 & y0 & y1 & Heq & Hwf & Hshape & Hbox & Hext & Hval & Hnan);
    [by rewrite Hblob|done|].
  rewrite Hmap in Heq. injection Heq as <- <- <- <- <-.
  pose proof Hext as Hext'.
  destruct Hext as ((pa & Hpa & <-) & (pb & Hpb & <-) & (pc & Hpc & <-) & (pd & Hpd & <-)).
  rewrite Forall_forall in Hins.
  pose proof (Hins pa Hpa) as [? ?]. pose proof (Hins pb Hpb) as [? ?].
  pose proof (Hins pc Hpc) as [? ?]. pose proof (Hins pd Hpd) as [? ?].
  pose proof (Hbox pa Hpa). pose proof (Hbox pc Hpc).
  split; [done|]. split; [done|]. split; [lia|]. split; [lia|].
  split; [|by split].
  intros p Hp. split; [|by apply Hval].
  injection Hshape as Hsr Hsc. destruct (Hbox p Hp). unfold inb; simpl. lia.
Qed.


(** X6.  Every island that [gen_flood_wrap] yields is the bounding box of a
    blob of pixels of the image: the box lies in the image and is as large
    as the yielded bounds say, a cell of the box that belongs to the blob
    holds the image's value there, and every other cell holds NaN, so that
    pixels of neighbouring blobs never leak into an island.  The box is the
    smallest one: each of its four bounds is the coordinate of a pixel of
    the blob. *)
Theorem islands_are_blob_boxes (data rmsimg : ndarray float)
    (innerclip : float) (outerclip : option float) :
  nd_wf data -> nd_wf rmsimg ->
  nd_rows rmsimg = nd_rows data -> nd_cols rmsimg = nd_cols data ->
  exists islands,
    gen_flood_wrap data rmsimg innerclip outerclip false = Ok islands /\
    forall pixels xmin xmax ymin ymax,
      (pixels, xmin, xmax, ymin, ymax) ∈ islands ->
      exists blob,
        blob <> [] /\
        Forall (inb (nd_rows data) (nd_cols data)) blob /\
        nd_wf pixels /\
        nd_shape pixels = (xmax - xmin + 1, ymax - ymin + 1) /\
        (0 <= xmin <= xmax /\ xmax < Z.of_nat (nd_rows data)) /\
        (0 <= ymin <= ymax /\ ymax < Z.of_nat (nd_cols data)) /\
        (forall p, p ∈ blob ->
           inb (nd_rows pixels) (nd_cols pixels) (p.1 - xmin, p.2 - ymin) /\
           nd_get pixels (p.1 - xmin, p.2 - ymin) = nd_get data p) /\
        (forall q, inb (nd_rows pixels) (nd_cols pixels) q ->
           (q.1 + xmin, q.2 + ymin) ∉ blob -> nd_get pixels q = Ok nan) /\
        ((exists p, p ∈ blob /\ p.1 = xmin) /\ (exists p, p ∈ blob /\ p.1 = xmax) /\
         (exists p, p ∈ blob /\ p.2 = ymin) /\ (exists p, p ∈ blob /\ p.2 = ymax)).
Proof.
  intros Hd Hr Hrows Hcols.
  destruct (gen_flood_wrap_trace_inv data rmsimg innerclip
              (default innerclip outerclip) Hd Hr Hrows Hcols outerclip eq_refl)
    as (tr & st & Hrun & G & Hgrown).
  destruct (trace_boxes data rmsimg innerclip outerclip Hd Hr Hrows Hcols)
    as (tr' & st' & Hrun' & Hbox).
  rewrite Hrun in Hrun'. injection Hrun' as <- <-.
  exists (snd <$> tr). split; [unfold gen_flood_wrap; by rewrite Hrun|].
  intros pixels xmin xmax ymin ymax Hin.
  apply list_elem_of_fmap in Hin as ([blob y] & Hy & Hin). cbn [snd] in Hy. subst y.
  exists blob. rewrite Forall_forall in Hgrown.
  destruct (Hgrown _ Hin) as ((seed & tl & Hblob & _) & _). cbn [fst] in Hblob.
  split; [by rewrite Hblob|]. split; [|by apply Hbox].
  apply Forall_forall. intros p Hp. apply (g_visited _ _ _ G p).
  apply list_elem_of_In, in_concat. exists blob.
  split; apply list_elem_of_In; [|done].
  apply list_elem_of_fmap. by exists (blob, (pixels, xmin, xmax, ymin, ymax)).
Qed.

Lemma islands_are_blob_boxes_witness :
  exists islands,
    gen_flood_wrap
      (NdArray 3 4 [1; 6; 4.5; 1; 1; 1; 7; 1; 9; 1; 1; 1]%float)
      (nd_full 3 4 1%float) 5%float (Some 4%float) false = Ok islands /\
    forall pixels xmin xmax ymin ymax,
      (pixels, xmin, xmax, ymin, ymax) ∈ islands ->
      exists blob,
        blob <> [] /\
        Forall (inb 3 4) blob /\
        nd_wf pixels /\
        nd_shape pixels = (xmax - xmin + 1, ymax - ymin + 1) /\
        (0 <= xmin <= xmax /\ xmax < Z.of_nat 3) /\
        (0 <= ymin <= ymax /\ ymax < Z.of_nat 4) /\
        (forall p, p ∈ blob ->
           inb (nd_rows pixels) (nd_cols pixels) (p.1 - xmin, p.2 - ymin) /\
           nd_get pixels (p.1 - xmin, p.2 - ymin) =
           nd_get (NdArray 3 4 [1; 6; 4.5; 1; 1; 1; 7; 1; 9; 1; 1; 1]%float) p) /\
        (forall q, inb (nd_rows pixels) (nd_cols pixels) q ->
           (q.1 + xmin, q.2 + ymin) ∉ blob -> nd_get pixels q = Ok nan) /\
        ((exists p, p ∈ blob /\ p.1 = xmin) /\ (exists p, p ∈ blob /\ p.1 = xmax) /\
         (exists p, p ∈ blob /\ p.2 = ymin) /\ (exists p, p ∈ blob /\ p.2 = ymax)).
Proof.
  apply (islands_are_blob_boxes
           (NdArray 3 4 [1; 6; 4.5; 1; 1; 1; 7; 1; 9; 1; 1; 1]%float)
           (nd_full 3 4 1%float) 5%float (Some 4%float)); reflexivity.
Defined.

(** ** What the estimator hands to the fit *)

Lemma last_field_colon (s t acc : string) :
  last_field (s ++ String ":" t) acc = last_field t EmptyString.
Proof.
  revert acc. induction s as [|c s IH]; intros acc; simpl; [done|].
  destruct (Ascii.eqb c ":"); apply IH.
Qed.

Lemma has_flag_land_pos f g : 0 <= g -> (0 <? Z.land f g) = has_flag f g.
Proof.
  intros Hg. unfold has_flag.
  assert (0 <= Z.land f g) by (apply Z.land_nonneg; by right).
  destruct (Z.ltb_spec 0 (Z.land f g)), (Z.eqb_spec (Z.land f g) 0); simpl; lia.
Qed.

Lemma estimate_summit_entries lib rmsimg beam is_flag i s g :
  estimate_summit lib rmsimg beam is_flag i s = Ok g -> summit_entries i is_flag g.
Proof.
  destruct s as [[[[summit xmin] xmax] ymin] ymax]. unfold estimate_summit.
  destruct (np_max _) as [amp| |]; cbn [bind]; [|done..].
  destruct (res_mapM _ _) as [noise| |]; cbn [bind]; [|done..].
  destruct (scalar _) as [amp_min| |]; cbn [bind]; [|done..].
  destruct (scalar _) as [amp_max| |]; cbn [bind]; [|done..].
  destruct (_ <$> np_where_eq summit amp) as [|[xo yo] [|]]; [done| |done].
  intros [= <-]. do 7 eexists. split; [reflexivity|].
  cbn [parname flags fixed value limited].
  split; [done|]. split; [done|]. split.
  { destruct (_ || _); [by right|by left]. }
  split; [|done]. by rewrite has_flag_land_pos.
Qed.

Lemma summit_entries_shape_flags i is_flag g :
  summit_entries i is_flag g ->
  Forall (fun e => is_shape_par e = true -> exists f, flags e = Some f /\
            (f = is_flag \/ f = Z.lor is_flag FIXED2PSF)) g /\
  exists e, e ∈ g /\ is_shape_par e = true.
Proof.
  intros (e0 & e1 & e2 & e3 & e4 & e5 & f & -> & Hn & Hf & Hflag & _).
  destruct Hn as (N0 & N1 & N2 & N3 & N4 & N5).
  destruct Hf as (F0 & F1 & F2 & F3 & F4 & F5).
  assert (S0 : is_shape_par e0 = false)
    by (unfold is_shape_par; by rewrite N0, last_field_colon).
  assert (S1 : is_shape_par e1 = false)
    by (unfold is_shape_par; by rewrite N1, last_field_colon).
  assert (S2 : is_shape_par e2 = false)
    by (unfold is_shape_par; by rewrite N2, last_field_colon).
  assert (S3 : is_shape_par e3 = true)
    by (unfold is_shape_par; by rewrite N3, last_field_colon).
  split.
  - repeat (apply Forall_cons; split); try apply Forall_nil_2;
      try (intros ?; congruence); intros _; by exists f.
  - exists e3. split; [|done]. do 3 right. left.
Qed.

Lemma estimate_summits_groups lib rmsimg beam is_flag summits :
  forall i parinfo,
  estimate_summits lib rmsimg beam is_flag i summits = Ok parinfo ->
  exists groups,
    parinfo = concat groups /\ length groups = length summits /\
    forall j g, groups !! j = Some g -> summit_entries (i + j) is_flag g.
Proof.
  induction summits as [|s summits IH]; intros i parinfo H; cbn [estimate_summits] in H.
  - injection H as <-. exists []. split; [done|]. split; [done|]. by intros j g.
  - destruct (estimate_summit _ _ _ _ _ _) as [g0| |] eqn:E; cbn [bind] in H; [|done..].
    destruct (estimate_summits _ _ _ _ _ _) as [rest| |] eqn:E'; cbn [bind] in H;
      [|done..].
    injection H as <-. destruct (IH _ _ E') as (groups & -> & Hlen & Hg).
    exists (g0 :: groups). split; [done|]. split; [simpl; by rewrite Hlen|].
    intros [|j] g Hj; simpl in Hj.
    + injection Hj as <-. rewrite Nat.add_0_r. by eapply estimate_summit_entries.
    + replace (i + S j)%nat with (S i + j)%nat by lia. by apply Hg.
Qed.

Lemma concat_length_six {A} (groups : list (list A)) :
  Forall (fun g => length g = 6%nat) groups ->
  length (concat groups) = (6 * length groups)%nat.
Proof.
  induction 1 as [|g groups Hg _ IH]; [done|].
  simpl. rewrite length_app, Hg, IH. lia.
Qed.

(** X7.  The parameter list of an island holds six entries for each of its
    summits, in the order amp, xo, yo, dx, dy, pa, named after the number of
    the summit counted from 0.  Amplitude and position carry no flags and
    are never held fixed; dx, dy and pa share one flag word, which is the
    size flag of the island with FIXED2PSF added or not, and are held fixed
    exactly when it has FIXED2PSF; the angle starts at 0 and is unbounded. *)
Theorem estimate_parinfo_layout (lib : Lib) (data rmsimg curve : ndarray float)
    (beam : Beam.t) (csigma : option float) (parinfo : list parinfo_entry) :
  estimate_parinfo lib data rmsimg curve beam csigma = Ok parinfo ->
  exists groups,
    parinfo = concat groups /\
    length parinfo = (6 * length groups)%nat /\
    forall j g, groups !! j = Some g -> summit_entries j (size_flag data) g.
Proof.
  unfold estimate_parinfo. destruct (negb _); [done|].
  destruct (find_summits _ _ _ _) as [summits| |]; cbn [bind]; [|done..].
  intros (groups & -> & Hlen & Hg)%estimate_summits_groups.
  exists groups. split; [done|]. split; [|done].
  apply concat_length_six. apply Forall_forall. intros g [j Hj]%list_elem_of_lookup.
  by destruct (Hg j g Hj) as (e0 & e1 & e2 & e3 & e4 & e5 & f & -> & _).
Qed.

Lemma estimate_parinfo_layout_witness :
  let data := NdArray 2 3 [6; 7; 6; 7; 10; 7.5]%float in
  exists parinfo groups,
    estimate_parinfo Example.lib data (nd_full 2 3 1%float) (nd_full 2 3 0%float)
      Example.beam None = Ok parinfo /\
    parinfo = concat groups /\
    length parinfo = (6 * length groups)%nat /\
    forall j g, groups !! j = Some g -> summit_entries j (size_flag data) g.
Proof.
  intros data. eexists.
  destruct (estimate_parinfo_layout Example.lib data (nd_full 2 3 1%float)
              (nd_full 2 3 0%float) Example.beam None _
              ltac:(vm_compute; reflexivity)) as (groups & H).
  exists groups. split; [vm_compute; reflexivity|exact H].
Defined.

Lemma estimate_parinfo_groups lib data rmsimg curve beam csigma parinfo :
  estimate_parinfo lib data rmsimg curve beam csigma = Ok parinfo ->
  exists c summits groups,
    find_summits data rmsimg curve c = Ok summits /\
    parinfo = concat groups /\ length groups = length summits /\
    forall j g, groups !! j = Some g -> summit_entries j (size_flag data) g.
Proof.
  unfold estimate_parinfo. destruct (negb _); [done|].
  destruct (find_summits _ _ _ _) as [summits| |] eqn:E; cbn [bind]; [|done..].
  intros (groups & -> & Hlen & Hg)%estimate_summits_groups. by eexists _, summits, groups.
Qed.

Lemma groups_shape_flags is_flag (groups : list (list parinfo_entry)) :
  (forall j g, groups !! j = Some g -> summit_entries j is_flag g) ->
  Forall (fun e => is_shape_par e = true -> exists f, flags e = Some f /\
            (f = is_flag \/ f = Z.lor is_flag FIXED2PSF)) (concat groups).
Proof.
  intros Hg. apply Forall_forall. intros e He.
  apply list_elem_of_In, in_concat in He as (g & Hin%list_elem_of_In & He%list_elem_of_In).
  apply list_elem_of_lookup in Hin as [j Hj].
  destruct (summit_entries_shape_flags _ _ _ (Hg j g Hj)) as [Hall _].
  rewrite Forall_forall in Hall. by apply Hall.
Qed.

Lemma island_flag_large is_flag parinfo :
  has_flag is_flag FITERRSMALL = false ->
  Forall (fun e => is_shape_par e = true -> exists f, flags e = Some f /\
            (f = is_flag \/ f = Z.lor is_flag FIXED2PSF)) parinfo ->
  island_flag parinfo = Ok 0.
Proof.
  intros Hsmall. induction 1 as [|e parinfo He _ IH]; [done|]. cbn [island_flag].
  destruct (is_shape_par e); [|done].
  destruct He as (f & -> & [-> | ->]); [done|by rewrite Hsmall|].
  rewrite has_flag_lor_other by done. by rewrite Hsmall.
Qed.

Lemma island_flag_small is_flag parinfo :
  has_flag is_flag FITERRSMALL = true ->
  Forall (fun e => is_shape_par e = true -> exists f, flags e = Some f /\
            (f = is_flag \/ f = Z.lor is_flag FIXED2PSF)) parinfo ->
  (exists e, e ∈ parinfo /\ is_shape_par e = true) ->
  exists f, island_flag parinfo = Ok f /\ has_flag f FITERRSMALL = true.
Proof.
  intros Hsmall. induction 1 as [|e parinfo He _ IH]; intros (e' & Hin & Hshape).
  { by apply elem_of_nil in Hin. }
  cbn [island_flag]. destruct (is_shape_par e) eqn:Hs.
  - destruct He as (f & -> & Hf); [done|].
    assert (Hff : has_flag f FITERRSMALL = true).
    { destruct Hf as [-> | ->]; [done|]. by rewrite has_flag_lor_other. }
    rewrite Hff. by exists f.
  - apply IH. exists e'. split; [|done].
    apply elem_of_cons in Hin as [->|Hin]; [congruence|done].
Qed.

(** [set_notfit] raises no KeyError when the shape parameters carry flags,
    and its result carries NOTFIT on them, under the same names. *)
Lemma set_notfit_ok parinfo :
  Forall (fun e => is_shape_par e = true -> is_Some (flags e)) parinfo ->
  exists parinfo', set_notfit parinfo = Ok parinfo' /\
    Forall (fun e => is_shape_par e = true ->
              exists f, flags e = Some f /\ has_flag f NOTFIT = true) parinfo'.
Proof.
  unfold set_notfit. induction 1 as [|e parinfo He _ (rest & IH & Hrest)]; cbn [res_mapM].
  - by exists [].
  - rewrite IH. destruct (is_shape_par e) eqn:Hs.
    + destruct He as [f Hf]; [done|]. rewrite Hf. cbn [bind]. eexists. split; [done|].
      apply Forall_cons. split; [|done]. intros _. cbn [flags].
      exists (Z.lor f NOTFIT). split; [done|]. by apply has_flag_lor_same.
    + cbn [bind]. eexists. split; [done|]. apply Forall_cons. split; [|done].
      intros ?. congruence.
Qed.

(** X8.  What decides whether an island is fitted is the number of its
    pixels that are not NaN.  With fewer than four, whatever the summit
    limit, the solver is not called: the parameters returned are the
    estimates, there is no error vector, and dx, dy and pa carry NOTFIT.
    With four or more, and no summit limit or one that the island does not
    exceed, the result is the solver's.
    Reading and setting the flags of the estimator's entries raises no
    KeyError on the way. *)
Theorem fit_follows_the_pixel_count (lib : Lib) (data rmsimg curve : ndarray float)
    (beam : Beam.t) (csigma : option float) (parinfo : list parinfo_entry)
    (isle rms : ndarray float) :
  estimate_parinfo lib data rmsimg curve beam csigma = Ok parinfo ->
  ((length (finite_values data) < 4)%nat ->
   forall max_summits, exists parinfo',
     fit_island lib isle rms max_summits parinfo
       = Ok (DummyMP parinfo' None, parinfo') /\
     params (DummyMP parinfo' None) = value <$> parinfo /\
     Forall (fun e => is_shape_par e = true ->
               exists f, flags e = Some f /\ has_flag f NOTFIT = true) parinfo') /\
  ((4 <= length (finite_values data))%nat ->
   forall max_summits,
     match max_summits with
     | Some m => (m <? Py.of_int (Z.of_nat (length parinfo) / 6))%float = false
     | None => True
     end ->
     fit_island lib isle rms max_summits parinfo = multi_gauss lib isle rms parinfo).
Proof.
  intros (c & summits & groups & Hsum & -> & Hlen & Hg)%estimate_parinfo_groups.
  pose proof (groups_shape_flags _ _ Hg) as Hflags.
  assert (Hq : forall l : list parinfo_entry,
            Forall (fun e => is_shape_par e = true ->
                      exists f, flags e = Some f /\ has_flag f NOTFIT = true) l ->
            Forall (fun e => is_shape_par e = true -> is_Some (flags e)) l).
  { intros l Hl. eapply Forall_impl; [exact Hl|].
    intros e He Hs. destruct (He Hs) as (f & -> & _). by eexists. }
  assert (Hq0 : Forall (fun e => is_shape_par e = true -> is_Some (flags e))
                  (concat groups)).
  { eapply Forall_impl; [exact Hflags|]. intros e He Hs.
    destruct (He Hs) as (f & -> & _). by eexists. }
  split.
  - intros Hfew max_summits.
    assert (Hsmall : has_flag (size_flag data) FITERRSMALL = true).
    { rewrite size_flag_small. by apply Nat.ltb_lt. }
    assert (Hone : exists e, e ∈ concat groups /\ is_shape_par e = true).
    { unfold find_summits, tiny in Hsum. rewrite Hsmall, orb_true_r in Hsum.
      injection Hsum as <-. destruct groups as [|g groups]; [done|].
      destruct (summit_entries_shape_flags _ _ _ (Hg 0%nat g eq_refl)) as [_ (e & He & Hs)].
      exists e. split; [|done]. simpl. apply elem_of_app. by left. }
    destruct (island_flag_small _ _ Hsmall Hflags Hone) as (f & Hf & Hfs).
    destruct (set_notfit_ok _ Hq0) as (p1 & Hset1 & Hp1).
    destruct (set_notfit_ok _ (Hq _ Hp1)) as (p2 & Hset2 & Hp2).
    unfold fit_island. rewrite Hf. cbn [bind].
    destruct max_summits as [m|].
    + destruct (m <? _)%float.
      * rewrite Hset1. cbn [bind]. rewrite Hfs, Hset2. cbn [bind].
        exists p2. split; [done|]. split; [|done]. cbn [DummyMP params].
        by rewrite (set_notfit_values _ _ Hset2), (set_notfit_values _ _ Hset1).
      * cbn [bind]. rewrite Hfs, Hset1. cbn [bind].
        exists p1. split; [done|]. split; [|done]. cbn [DummyMP params].
        by rewrite (set_notfit_values _ _ Hset1).
    + cbn [bind]. rewrite Hfs, Hset1. cbn [bind].
      exists p1. split; [done|]. split; [|done]. cbn [DummyMP params].
      by rewrite (set_notfit_values _ _ Hset1).
  - intros Hmany max_summits Hlimit.
    assert (Hlarge : has_flag (size_flag data) FITERRSMALL = false).
    { rewrite size_flag_small. apply Nat.ltb_ge. lia. }
    unfold fit_island. rewrite (island_flag_large _ _ Hlarge Hflags). cbn [bind].
    destruct max_summits as [m|]; [rewrite Hlimit|]; done.
Qed.

Lemma fit_follows_the_pixel_count_witness :
  let data := NdArray 2 3 [6; 7; 6; 7; 10; 7.5]%float in
  let rms := nd_full 2 3 1%float in
  exists parinfo,
    estimate_parinfo Example.lib data rms (nd_full 2 3 0%float)
      Example.beam None = Ok parinfo /\
    fit_island Example.lib data rms None parinfo
    = multi_gauss Example.lib data rms parinfo.
Proof.
  intros data rms. eexists.
  destruct (fit_follows_the_pixel_count Example.lib data rms (nd_full 2 3 0%float)
              Example.beam None _ data rms
              ltac:(vm_compute; reflexivity)) as [_ Hfit].
  split; [vm_compute; reflexivity|]. apply (Hfit ltac:(vm_compute; lia) None I).
Defined.

Lemma res_mapM_length {A B} (f : A -> res B) (l : list A) (l' : list B) :
  res_mapM f l = Ok l' -> length l' = length l.
Proof.
  revert l'. induction l as [|a l IH]; intros l' H; cbn [res_mapM] in H.
  - by injection H as <-.
  - destruct (f a); cbn [bind] in H; [|done..].
    destruct (res_mapM f l); cbn [bind] in H; [|done..].
    injection H as <-. simpl. f_equal. by apply IH.
Qed.

Lemma res_mapM_ok {A B} (f : A -> res B) (l : list A) :
  Forall (fun a => exists b, f a = Ok b) l -> exists l', res_mapM f l = Ok l'.
Proof.
  induction 1 as [|a l [b Hb] _ [l' IH]]; cbn [res_mapM]; [by eexists|].
  rewrite Hb, IH. cbn [bind]. by eexists.
Qed.

(** X9.  An island that goes down the one-summit path (a side of at most
    two pixels, or fewer than four pixels that are not NaN) and whose
    brightest value is held by two pixels or more cannot be estimated: the
    amplitude limits are computed from as many noise values as there are
    brightest pixels, and [float] of more than one value raises
    TypeError. *)
Theorem tied_maximum_raises (lib : Lib) (data rmsimg curve : ndarray float)
    (beam : Beam.t) (csigma : option float) (amp : float) (p q : pixel)
    (rest : list pixel) :
  Z.min (nd_shape data).1 (nd_shape data).2 <= 2 \/
    (length (finite_values data) < 4)%nat ->
  same_shape data curve = true ->
  np_max (finite_values data) = Ok amp ->
  np_where_eq data amp = p :: q :: rest ->
  Forall (fun x => exists r, nd_get rmsimg x = Ok r) (p :: q :: rest) ->
  estimate_parinfo lib data rmsimg curve beam csigma = Raise TypeError.
Proof.
  intros Htiny Hshape Hmax Hpeak Hnoise.
  assert (Ht : tiny data = true).
  { unfold tiny. rewrite size_flag_small.
    destruct Htiny as [H|H].
    - destruct (Z.leb_spec (Z.min (nd_shape data).1 (nd_shape data).2) 2); [done|lia].
    - destruct (Nat.ltb_spec (length (finite_values data)) 4); [|lia].
      apply orb_true_r. }
  unfold estimate_parinfo. rewrite Hshape. cbn [negb].
  unfold find_summits. rewrite Ht. cbn [bind estimate_summits estimate_summit].
  rewrite Hmax. cbn [bind]. rewrite Hpeak.
  assert (Hsame : (fun x : pixel => (x.1 + 0, x.2 + 0)) <$> p :: q :: rest = p :: q :: rest).
  { rewrite <- (list_fmap_id (p :: q :: rest)) at 2. apply list_fmap_ext.
    intros _ [x y] _. simpl. f_equal; lia. }
  rewrite Hsame.
  destruct (res_mapM_ok (nd_get rmsimg) _ Hnoise) as [noise Hn]. rewrite Hn. cbn [bind].
  apply res_mapM_length in Hn. destruct noise as [|r1 [|r2 noise]]; done.
Qed.

Lemma tied_maximum_raises_witness :
  estimate_parinfo Example.lib (NdArray 1 2 [10; 10]%float) (nd_full 1 2 1%float)
    (nd_full 1 2 0%float) Example.beam None = Raise TypeError.
Proof.
  apply (tied_maximum_raises Example.lib (NdArray 1 2 [10; 10]%float)
           (nd_full 1 2 1%float) (nd_full 1 2 0%float) Example.beam None
           10%float (0, 0) (0, 1) []).
  - left. vm_compute. discriminate.
  - reflexivity.
  - reflexivity.
  - reflexivity.
  - repeat (apply Forall_cons; split; [eexists; reflexivity|]). apply Forall_nil_2.
Defined.

(** ** The canonical form of a fit *)

(** One pass of the loop of [multi_gauss] touches the axes and the angle of
    its component only, and leaves the larger axis first. *)
Lemma canonical_spec (mp mp' : MP) (i : nat) :
  canonical mp i = Ok mp' ->
  length (params mp') = length (params mp) /\
  (forall k, k <> (i * 6 + 3)%nat -> k <> (i * 6 + 4)%nat -> k <> (i * 6 + 5)%nat ->
     params mp' !! k = params mp !! k) /\
  (perror mp = None <-> perror mp' = None) /\
  exists a0 b0,
    params mp !! (i * 6 + 3)%nat = Some a0 /\
    params mp !! (i * 6 + 4)%nat = Some b0 /\
    params mp' !! (i * 6 + 3)%nat = Some (if (a0 <? b0)%float then b0 else a0) /\
    params mp' !! (i * 6 + 4)%nat = Some (if (a0 <? b0)%float then a0 else b0).
Proof.
  unfold canonical. intros H.
  destruct (swap_axes mp i) as [mp1| |] eqn:E; cbn [bind] in H; [|done..].
  assert (H1 : length (params mp1) = length (params mp) /\
    (forall k, k <> (i * 6 + 3)%nat -> k <> (i * 6 + 4)%nat -> k <> (i * 6 + 5)%nat ->
       params mp1 !! k = params mp !! k) /\
    (perror mp = None <-> perror mp1 = None) /\
    exists a0 b0,
      params mp !! (i * 6 + 3)%nat = Some a0 /\
      params mp !! (i * 6 + 4)%nat = Some b0 /\
      params mp1 !! (i * 6 + 3)%nat = Some (if (a0 <? b0)%float then b0 else a0) /\
      params mp1 !! (i * 6 + 4)%nat = Some (if (a0 <? b0)%float then a0 else b0)).
  { clear H. unfold swap_axes in E.
    destruct (item (params mp) (i * 6 + 5)) as [p5| |]; cbn [bind] in E; [|done..].
    set (par1 := <[(i * 6 + 5)%nat := _]> (params mp)) in *.
    destruct (item par1 (i * 6 + 3)) as [p3| |] eqn:E3; cbn [bind] in E; [|done..].
    destruct (item par1 (i * 6 + 4)) as [p4| |] eqn:E4; cbn [bind] in E; [|done..].
    apply item_lookup in E3, E4.
    pose proof (lookup_lt_Some _ _ _ E3) as L3. pose proof (lookup_lt_Some _ _ _ E4) as L4.
    assert (Lp : length par1 = length (params mp)) by apply length_insert.
    assert (Kp : forall k, k <> (i * 6 + 5)%nat -> par1 !! k = params mp !! k).
    { intros k Hk. unfold par1. by rewrite list_lookup_insert_ne by lia. }
    rewrite Kp in E3, E4 by lia. clearbody par1.
    destruct (p3 <? p4)%float eqn:Hlt.
    - assert (Hpar : forall q5 : float,
        length (<[(i * 6 + 5)%nat := q5]>
                  (<[(i * 6 + 3)%nat := p4]> (<[(i * 6 + 4)%nat := p3]> par1)))
          = length (params mp) /\
        (forall k, k <> (i * 6 + 3)%nat -> k <> (i * 6 + 4)%nat -> k <> (i * 6 + 5)%nat ->
           <[(i * 6 + 5)%nat := q5]>
             (<[(i * 6 + 3)%nat := p4]> (<[(i * 6 + 4)%nat := p3]> par1)) !! k
           = params mp !! k) /\
        <[(i * 6 + 5)%nat := q5]>
          (<[(i * 6 + 3)%nat := p4]> (<[(i * 6 + 4)%nat := p3]> par1)) !! (i * 6 + 3)%nat
          = Some p4 /\
        <[(i * 6 + 5)%nat := q5]>
          (<[(i * 6 + 3)%nat := p4]> (<[(i * 6 + 4)%nat := p3]> par1)) !! (i * 6 + 4)%nat
          = Some p3).
      { intros q5. rewrite !length_insert. split; [done|]. split; [|split].
        - intros k K3 K4 K5. rewrite !list_lookup_insert_ne by lia. by apply Kp.
        - rewrite list_lookup_insert_ne by lia. apply list_lookup_insert_eq.
          by rewrite length_insert.
        - rewrite !list_lookup_insert_ne by lia. by apply list_lookup_insert_eq. }
      destruct (perror mp) as [e|] eqn:Ee.
      + destruct (item e (i * 6 + 4)) as [e4| |]; cbn [bind] in E; [|done..].
        destruct (item e (i * 6 + 3)) as [e3| |]; cbn [bind] in E; [|done..].
        destruct (item (<[_ := p4]> _) (i * 6 + 5)) as [q5| |]; cbn [bind] in E; [|done..].
        injection E as <-. cbn [params perror].
        destruct (Hpar (q5 - np_pi / 2)%float) as (HL & HK & H3 & H4).
        split; [done|]. split; [done|]. split; [done|].
        exists p3, p4. by rewrite Hlt.
      + cbn [bind] in E.
        destruct (item (<[_ := p4]> _) (i * 6 + 5)) as [q5| |]; cbn [bind] in E; [|done..].
        injection E as <-. cbn [params perror].
        destruct (Hpar (q5 - np_pi / 2)%float) as (HL & HK & H3 & H4).
        split; [done|]. split; [done|]. split; [done|].
        exists p3, p4. by rewrite Hlt.
    - injection E as <-. cbn [params perror].
      split; [done|]. split; [intros k K3 K4 K5; by apply Kp|].
      split; [done|]. exists p3, p4. rewrite Hlt. rewrite !Kp by lia. done. }
  assert (H2 : length (params mp') = length (params mp1) /\
    (forall k, k <> (i * 6 + 5)%nat -> params mp' !! k = params mp1 !! k) /\
    perror mp' = perror mp1).
  { clear E H1. unfold wrap_angle in H.
    destruct (item (params mp1) (i * 6 + 5)) as [p5| |]; cbn [bind] in H; [|done..].
    destruct (Py.int _) as [turns| |]; cbn [bind] in H; [|done..].
    destruct (item _ (i * 6 + 5)) as [q| |]; cbn [bind] in H; [|done..].
    injection H as <-. cbn [params perror].
    destruct (np_pi <? q)%float; rewrite ?length_insert; (split; [done|]);
      (split; [|done]); intros k Hk; by rewrite !list_lookup_insert_ne by done. }
  destruct H1 as (L1 & K1 & P1 & a0 & b0 & A0 & B0 & A1 & B1).
  destruct H2 as (L2 & K2 & P2).
  split; [congruence|]. split.
  { intros k K3 K4 K5. rewrite K2 by done. by apply K1. }
  split; [by rewrite P2|].
  exists a0, b0. rewrite !K2 by lia. done.
Qed.

Lemma canonical_loop_spec (js : list nat) :
  forall mp mp',
  canonical_loop mp js = Ok mp' -> NoDup js ->
  length (params mp') = length (params mp) /\
  (forall k, (forall i, i ∈ js -> k <> (i * 6 + 3)%nat /\ k <> (i * 6 + 4)%nat /\
                                  k <> (i * 6 + 5)%nat) ->
     params mp' !! k = params mp !! k) /\
  (perror mp = None <-> perror mp' = None) /\
  (forall i, i ∈ js ->
     exists a0 b0,
       params mp !! (i * 6 + 3)%nat = Some a0 /\
       params mp !! (i * 6 + 4)%nat = Some b0 /\
       params mp' !! (i * 6 + 3)%nat = Some (if (a0 <? b0)%float then b0 else a0) /\
       params mp' !! (i * 6 + 4)%nat = Some (if (a0 <? b0)%float then a0 else b0)).
Proof.
  induction js as [|j js IH]; intros mp mp' H Hnd; cbn [canonical_loop] in H.
  - injection H as <-. split; [done|]. split; [done|]. split; [done|].
    by intros i ?%elem_of_nil.
  - destruct (canonical mp j) as [mp1| |] eqn:E; cbn [bind] in H; [|done..].
    apply NoDup_cons in Hnd as [Hj Hnd].
    destruct (canonical_spec _ _ _ E) as (L1 & K1 & P1 & a0 & b0 & A0 & B0 & A1 & B1).
    destruct (IH _ _ H Hnd) as (L2 & K2 & P2 & Hall).
    split; [congruence|]. split.
    { intros k Hk. rewrite K2.
      - destruct (Hk j) as (? & ? & ?); [left|]. by apply K1.
      - intros i Hi. apply Hk. by right. }
    split; [by rewrite P1|].
    intros i [->|Hi]%elem_of_cons.
    + exists a0, b0. split; [done|]. split; [done|].
      rewrite !K2; [done|..]; intros i Hi; assert (i <> j) by congruence; lia.
    + assert (i <> j) by congruence.
      destruct (Hall i Hi) as (a & b & A & B & A' & B').
      exists a, b. rewrite <- (K1 (i * 6 + 3)%nat), <- (K1 (i * 6 + 4)%nat) by lia. done.
Qed.

(** X10.  What [multi_gauss] returns is the solver's result in canonical
    form: the parameter list is handed back as it was given; the solver's
    vector keeps its length, and the amplitude and the position of every
    component are the solver's; the two axes of every component are the
    solver's two values with the larger one first, so that the first is
    never below the second; and no error vector appears or disappears. *)
Theorem multi_gauss_orders_the_axes (lib : Lib) (data rmsimg : ndarray float)
    (parinfo info : list parinfo_entry) (mp' : MP) :
  multi_gauss lib data rmsimg parinfo = Ok (mp', info) ->
  exists mp,
    mpfit lib data rmsimg parinfo = Ok mp /\ info = parinfo /\
    length (params mp') = length (params mp) /\
    (perror mp = None <-> perror mp' = None) /\
    forall i, (i < length (params mp) / 6)%nat ->
      params mp' !! (i * 6)%nat = params mp !! (i * 6)%nat /\
      params mp' !! (i * 6 + 1)%nat = params mp !! (i * 6 + 1)%nat /\
      params mp' !! (i * 6 + 2)%nat = params mp !! (i * 6 + 2)%nat /\
      exists a0 b0 a b,
        params mp !! (i * 6 + 3)%nat = Some a0 /\
        params mp !! (i * 6 + 4)%nat = Some b0 /\
        params mp' !! (i * 6 + 3)%nat = Some a /\
        params mp' !! (i * 6 + 4)%nat = Some b /\
        (a <? b)%float = false /\
        ((a, b) = (a0, b0) \/ (a, b) = (b0, a0)).
Proof.
  unfold multi_gauss. intros H.
  destruct (mpfit lib data rmsimg parinfo) as [mp| |]; cbn [bind] in H; [|done..].
  destruct (canonical_loop _ _) as [mp1| |] eqn:E; cbn [bind] in H; [|done..].
  injection H as <- <-. exists mp. split; [done|]. split; [done|].
  destruct (canonical_loop_spec _ _ _ E (NoDup_seq _ _)) as (L & K & P & Hall).
  split; [done|]. split; [done|]. intros i Hi.
  assert (Hk : forall k, (k = i * 6 \/ k = i * 6 + 1 \/ k = i * 6 + 2)%nat ->
            params mp1 !! k = params mp !! k).
  { intros k Hk. apply K. intros j _. lia. }
  split; [apply Hk; lia|]. split; [apply Hk; lia|]. split; [apply Hk; lia|].
  destruct (Hall i) as (a0 & b0 & A0 & B0 & A1 & B1); [apply elem_of_seq; lia|].
  exists a0, b0. destruct (a0 <? b0)%float eqn:Hlt.
  - exists b0, a0. do 4 (split; [done|]). split; [by apply float_lt_asym|by right].
  - exists a0, b0. do 4 (split; [done|]). split; [done|by left].
Qed.

Lemma multi_gauss_orders_the_axes_witness :
  let data := NdArray 3 3 [6; 7; 6; 7; 10; 7.5; 6; 7; 6]%float in
  let parinfo :=
    [ParInfo 10 false "0:amp" (0, 20) (true, true) None;
     ParInfo 1 false "0:xo" (0, 2) (true, true) None;
     ParInfo 1 false "0:yo" (0, 2) (true, true) None;
     ParInfo 1 false "0:dx" (1, 3) (true, true) (Some 0%Z);
     ParInfo 2 false "0:dy" (1, 3) (true, true) (Some 0%Z);
     ParInfo 0 false "0:pa" (- np_pi, np_pi) (false, false) (Some 0%Z)]%float in
  exists mp' a b,
    multi_gauss Example.lib data (nd_full 3 3 1%float) parinfo = Ok (mp', parinfo) /\
    params mp' !! 3%nat = Some a /\ params mp' !! 4%nat = Some b /\
    (a <? b)%float = false.
Proof.
  intros data parinfo. eexists.
  destruct (multi_gauss_orders_the_axes Example.lib data (nd_full 3 3 1%float)
              parinfo parinfo _ ltac:(vm_compute; reflexivity))
    as (mp & Hmp & _ & _ & _ & Hall).
  vm_compute in Hmp. injection Hmp as <-.
  destruct (Hall 0%nat) as (_ & _ & _ & a0 & b0 & a & b & _ & _ & Ha & Hb & Hab & _).
  { vm_compute. lia. }
  exists a, b. split; [vm_compute; reflexivity|]. done.
Defined.

(** ** Background and noise maps *)

Lemma nd_slice_fill_shape {A} (arr : ndarray A) x0 x1 y0 y1 v :
  nd_wf arr ->
  nd_wf (nd_slice_fill arr x0 x1 y0 y1 v) /\
  nd_rows (nd_slice_fill arr x0 x1 y0 y1 v) = nd_rows arr /\
  nd_cols (nd_slice_fill arr x0 x1 y0 y1 v) = nd_cols arr.
Proof.
  intros Hwf. split; [|done]. unfold nd_wf, nd_slice_fill. cbn [nd_buf nd_rows nd_cols].
  rewrite length_fmap, length_zip, nd_indices_length, Hwf. lia.
Qed.

Lemma tile_bkg_rms_shape lib data beam mesh_size bkgimg rmsimg :
  tile_bkg_rms lib data beam mesh_size = Ok (bkgimg, rmsimg) ->
  (nd_wf bkgimg /\ nd_rows bkgimg = nd_rows data /\ nd_cols bkgimg = nd_cols data) /\
  (nd_wf rmsimg /\ nd_rows rmsimg = nd_rows data /\ nd_cols rmsimg = nd_cols data).
Proof.
  unfold tile_bkg_rms.
  destruct (Py.int _) as [ex| |]; cbn [bind]; [|done..].
  destruct (Py.int _) as [ey| |]; cbn [bind]; [|done..].
  destruct (mesh_bounds _ _) as [xs| |]; cbn [bind]; [|done..].
  destruct (mesh_bounds _ _) as [ys| |]; cbn [bind]; [|done..].
  generalize (x ← xs; y ← ys; [(x, y)]). intros boxes. revert bkgimg rmsimg.
  induction boxes as [|box boxes IH] using rev_ind; intros bkgimg rmsimg H.
  - injection H as <- <-.
    assert (nd_wf (nd_full (nd_rows data) (nd_cols data) 0%float))
      by (unfold nd_wf, nd_full; simpl; by rewrite length_replicate).
    done.
  - rewrite foldl_snoc in H.
    destruct (foldl _ _ boxes) as [[b r]| |]; cbn [bind] in H; [|done..].
    destruct (IH b r eq_refl) as ((Wb & Rb & Cb) & (Wr & Rr & Cr)).
    destruct box as [[xmin xmax] [ymin ymax]].
    destruct (rms_from_iqr _ _) as [rms| |]; cbn [bind] in H; [|done..].
    destruct (bkg_from_middle _ _) as [bkg| |]; cbn [bind] in H; [|done..].
    injection H as <- <-.
    destruct (nd_slice_fill_shape b ymin ymax xmin xmax bkg Wb) as (? & ? & ?).
    destruct (nd_slice_fill_shape r ymin ymax xmin xmax rms Wr) as (? & ? & ?).
    repeat split; congruence.
Qed.

Lemma make_bkg_rms_image_shape lib data beam mesh_size forced_rms bkgimg rmsimg :
  make_bkg_rms_image lib data beam mesh_size forced_rms = Ok (bkgimg, rmsimg) ->
  (nd_wf bkgimg /\ nd_rows bkgimg = nd_rows data /\ nd_cols bkgimg = nd_cols data) /\
  (nd_wf rmsimg /\ nd_rows rmsimg = nd_rows data /\ nd_cols rmsimg = nd_cols data).
Proof.
  intros Hrun.
  assert (Hfull : forall v : float,
            nd_wf (nd_full (nd_rows data) (nd_cols data) v))
    by (intros v; unfold nd_wf, nd_full; simpl; by rewrite length_replicate).
  unfold make_bkg_rms_image in Hrun.
  destruct forced_rms as [rms|]; [|by eapply tile_bkg_rms_shape].
  destruct (Py.truthy rms); [|by eapply tile_bkg_rms_shape].
  injection Hrun as <- <-. done.
Qed.

(** X11.  The background and noise maps that [make_bkg_rms_image] returns
    have the shape of the image, whether a noise level was forced or the
    statistics were taken box by box; the segmentation of the image against
    such a noise map therefore always runs to its end, for every pair of
    clips, and raises no shape error. *)
Theorem bkg_rms_maps_fit_the_image (lib : Lib) (data : ndarray float)
    (beam : Beam.t) (mesh_size : Z) (forced_rms : option float)
    (bkgimg rmsimg : ndarray float) :
  nd_wf data ->
  make_bkg_rms_image lib data beam mesh_size forced_rms = Ok (bkgimg, rmsimg) ->
  (nd_wf bkgimg /\ nd_shape bkgimg = nd_shape data) /\
  (nd_wf rmsimg /\ nd_shape rmsimg = nd_shape data) /\
  forall innerclip outerclip, exists islands,
    gen_flood_wrap data rmsimg innerclip outerclip false = Ok islands.
Proof.
  intros Hd Hrun.
  destruct (make_bkg_rms_image_shape _ _ _ _ _ _ _ Hrun)
    as ((Wb & Rb & Cb) & (Wr & Rr & Cr)).
  split; [split; [done|unfold nd_shape; congruence]|].
  split; [split; [done|unfold nd_shape; congruence]|].
  intros innerclip outerclip.
  destruct (gen_flood_wrap_trace_inv data rmsimg innerclip
              (default innerclip outerclip) Hd Wr Rr Cr outerclip eq_refl)
    as (tr & st & Hrun' & _).
  unfold gen_flood_wrap. rewrite Hrun'. cbn [bind]. by eexists.
Qed.

Lemma bkg_rms_maps_fit_the_image_witness :
  let data := NdArray 2 2 [1; 2; 3; 4]%float in
  exists bkgimg rmsimg,
    make_bkg_rms_image Example.lib data Example.beam 20 None
      = Ok (bkgimg, rmsimg) /\
    (nd_wf bkgimg /\ nd_shape bkgimg = nd_shape data) /\
    (nd_wf rmsimg /\ nd_shape rmsimg = nd_shape data) /\
    forall innerclip outerclip, exists islands,
      gen_flood_wrap data rmsimg innerclip outerclip false = Ok islands.
Proof.
  intros data. eexists _, _. split; [vm_compute; reflexivity|].
  apply (bkg_rms_maps_fit_the_image Example.lib data Example.beam 20 None);
    reflexivity.
Defined.

Lemma mesh_chain (s w e img : Z) (m : nat) :
  0 < w -> e <= img -> forall k0 : nat,
  e = s + Z.of_nat (k0 + m) * w ->
  tiles (s + Z.of_nat k0 * w)
    (zip (((fun k => s + Z.of_nat k * w) <$> seq k0 m) ++ [e])
         (((fun k => s + w + Z.of_nat k * w) <$> seq k0 m) ++ [img])) img /\
  Forall (fun box : Z * Z => box.2 - box.1 <= Z.max w (img - e))
    (zip (((fun k => s + Z.of_nat k * w) <$> seq k0 m) ++ [e])
         (((fun k => s + w + Z.of_nat k * w) <$> seq k0 m) ++ [img])).
Proof.
  intros Hw He. induction m as [|m IH]; intros k0 Heq.
  - simpl. split; [split; [lia|split; [|done]]; lia|].
    apply Forall_singleton. simpl. lia.
  - cbn [seq fmap list_fmap app zip zip_with]. destruct (IH (S k0)) as [IH1 IH2]; [lia|].
    split.
    + cbn [tiles fst snd]. split; [done|]. split; [lia|].
      replace (s + w + Z.of_nat k0 * w) with (s + Z.of_nat (S k0) * w) by lia. exact IH1.
    + apply Forall_cons. split; [simpl; lia|exact IH2].
Qed.

(** X12.  The mesh of [make_bkg_rms_image] along an axis of [img] pixels,
    for boxes of a positive [width]: the boxes follow one another from 0 to
    [img] without gap or overlap, so that every pixel of the axis falls in
    one box, and no box is wider than [width]. *)
Theorem mesh_bounds_tile_the_axis (img width : Z) :
  0 < width -> 0 <= img ->
  exists boxes,
    mesh_bounds img width = Ok boxes /\
    tiles 0 boxes img /\
    Forall (fun box : Z * Z => box.2 - box.1 <= width) boxes.
Proof.
  intros Hw Himg. unfold mesh_bounds.
  destruct (Z.eqb_spec width 0); [lia|].
  destruct (Z.leb_spec img width).
  { eexists. split; [done|]. split; [simpl; lia|].
    apply Forall_singleton. simpl. lia. }
  set (s := (img / 2 - width / 2) mod width).
  set (e := img - (img - s) mod width).
  pose proof (Z.mod_pos_bound (img / 2 - width / 2) width Hw) as Hs. fold s in Hs.
  pose proof (Z.mod_pos_bound (img - s) width Hw) as He.
  pose proof (Z.div_mod (img - s) width ltac:(lia)) as Hdiv.
  set (m := (img - s) / width) in *.
  assert (Hm : 0 <= m) by (apply Z.div_pos; lia).
  assert (Hes : e = s + m * width) by (unfold e; lia).
  assert (Hei : e <= img) by (unfold e; lia).
  clearbody m e s. unfold py_range.
  replace ((e - s + width - 1) / width) with m.
  2:{ apply Z.div_unique with (width - 1); [lia|]. rewrite Hes. lia. }
  replace ((e + 1 - (s + width) + width - 1) / width) with m.
  2:{ apply Z.div_unique with 0; [lia|]. rewrite Hes. lia. }
  eexists. split; [done|].
  destruct (mesh_chain s width e img (Z.to_nat m) Hw ltac:(lia) 0%nat) as [H1 H2].
  { rewrite Hes. lia. }
  simpl in H1. rewrite Z.add_0_r in H1.
  split.
  - cbn [app zip zip_with tiles fst snd]. split; [done|]. split; [lia|]. exact H1.
  - cbn [app zip zip_with]. apply Forall_cons. split; [simpl; lia|].
    eapply Forall_impl; [exact H2|]. intros box Hb. simpl in Hb. lia.
Qed.

Lemma mesh_bounds_tile_the_axis_witness :
  exists boxes,
    mesh_bounds 100 30 = Ok boxes /\ tiles 0 boxes 100 /\
    Forall (fun box : Z * Z => box.2 - box.1 <= 30) boxes.
Proof. apply (mesh_bounds_tile_the_axis 100 30); lia. Defined.

(** ** Cut-outs of a map *)

Lemma bind_uniform {A} (f : nat -> list A) (c : nat) (l : list nat) :
  Forall (fun i => length (f i) = c) l ->
  length (l ≫= f) = (length l * c)%nat /\
  forall k i j, l !! k = Some i -> (j < c)%nat ->
    (l ≫= f) !! (k * c + j)%nat = f i !! j.
Proof.
  induction 1 as [|i0 l Hi0 _ [IHlen IHget]].
  - split; [done|]. by intros k i j.
  - cbn [mbind list_bind]. change (list_bind _ _ f l) with (l ≫= f).
    split; [rewrite length_app, Hi0, IHlen; simpl; lia|].
    intros [|k] i j Hk Hj; simpl in Hk.
    + injection Hk as <-. by rewrite lookup_app_l by lia.
    + rewrite lookup_app_r by lia. rewrite Hi0.
      replace (S k * c + j - c)%nat with (k * c + j)%nat by lia. by apply IHget.
Qed.

Lemma slice_bound_inside x n : 0 <= x <= Z.of_nat n -> slice_bound x n = x.
Proof. intros H. unfold slice_bound. destruct (Z.ltb_spec x 0); lia. Qed.

(** A slice whose bounds lie in the array: its shape, and its cells. *)
Lemma nd_slice_spec {A} (a : ndarray A) (x0 x1 y0 y1 : Z) :
  nd_wf a ->
  0 <= x0 <= x1 -> x1 <= Z.of_nat (nd_rows a) ->
  0 <= y0 <= y1 -> y1 <= Z.of_nat (nd_cols a) ->
  nd_wf (nd_slice a x0 x1 y0 y1) /\
  nd_rows (nd_slice a x0 x1 y0 y1) = Z.to_nat (x1 - x0) /\
  nd_cols (nd_slice a x0 x1 y0 y1) = Z.to_nat (y1 - y0) /\
  forall q, inb (Z.to_nat (x1 - x0)) (Z.to_nat (y1 - y0)) q ->
    nd_get (nd_slice a x0 x1 y0 y1) q = nd_get a (x0 + q.1, y0 + q.2).
Proof.
  intros Hwf Hx Hx1 Hy Hy1.
  assert (Hr : slice_len x0 x1 (nd_rows a) = Z.to_nat (x1 - x0)).
  { unfold slice_len. by rewrite !slice_bound_inside by lia. }
  assert (Hc : slice_len y0 y1 (nd_cols a) = Z.to_nat (y1 - y0)).
  { unfold slice_len. by rewrite !slice_bound_inside by lia. }
  unfold nd_slice. rewrite Hr, Hc, !slice_bound_inside by lia.
  set (r := Z.to_nat (x1 - x0)). set (c := Z.to_nat (y1 - y0)).
  set (f := fun i : nat => take c (drop (i * nd_cols a + Z.to_nat y0) (nd_buf a))).
  assert (Hlen : Forall (fun i => length (f i) = c) (seq (Z.to_nat x0) r)).
  { apply Forall_forall. intros i Hi%elem_of_seq. unfold f.
    rewrite length_take, length_drop, Hwf. unfold r, c in *. nia. }
  destruct (bind_uniform f c _ Hlen) as [Hl Hget].
  split; [unfold nd_wf; cbn [nd_buf nd_rows nd_cols]; by rewrite Hl, length_seq|].
  split; [done|]. split; [done|].
  intros [qx qy] [Hqx Hqy]; simpl in Hqx, Hqy. cbn [fst snd].
  unfold nd_get at 1. rewrite nd_offset_inb by (split; simpl; lia).
  cbn [nd_buf nd_cols]. unfold off. cbn [fst snd].
  rewrite (Hget (Z.to_nat qx) (Z.to_nat x0 + Z.to_nat qx)%nat (Z.to_nat qy));
    [|apply lookup_seq; unfold r; lia|unfold c; lia].
  unfold f. rewrite lookup_take, decide_True by (unfold c in *; lia).
  rewrite lookup_drop.
  unfold nd_get. rewrite nd_offset_inb by (split; simpl; lia).
  unfold off. cbn [fst snd].
  rewrite !Z2Nat.inj_add by lia.
  by rewrite Nat.add_assoc.
Qed.

(** X13.  The cut-outs that the driver takes for an island line up with
    it.  For every island that a pass yields and every map [m] of the shape
    of the image (the noise map, the background map, the curvature map), the
    slice [m[xmin:xmax+1, ymin:ymax+1]] has the shape of the island, and its
    cell at an island position holds the value of [m] at the image position
    of that cell; so the estimator never finds the island and its curvature
    cut-out mismatched. *)
Theorem island_cutouts_line_up (data rmsimg : ndarray float)
    (innerclip : float) (outerclip : option float) (m : ndarray float) :
  nd_wf data -> nd_wf rmsimg ->
  nd_rows rmsimg = nd_rows data -> nd_cols rmsimg = nd_cols data ->
  nd_wf m -> nd_rows m = nd_rows data -> nd_cols m = nd_cols data ->
  exists islands,
    gen_flood_wrap data rmsimg innerclip outerclip false = Ok islands /\
    forall pixels xmin xmax ymin ymax,
      (pixels, xmin, xmax, ymin, ymax) ∈ islands ->
      let cut := nd_slice m xmin (xmax + 1) ymin (ymax + 1) in
      nd_wf cut /\ same_shape pixels cut = true /\
      forall q, inb (nd_rows pixels) (nd_cols pixels) q ->
        nd_get cut q = nd_get m (xmin + q.1, ymin + q.2).
Proof.
  intros Hd Hr Hrows Hcols Hm Hmr Hmc.
  destruct (trace_boxes data rmsimg innerclip outerclip Hd Hr Hrows Hcols)
    as (tr & st & Hrun & Hbox).
  exists (snd <$> tr). split; [unfold gen_flood_wrap; by rewrite Hrun|].
  intros pixels xmin xmax ymin ymax Hin cut.
  apply list_elem_of_fmap in Hin as ([blob y] & Hy & Hin). cbn [snd] in Hy. subst y.
  destruct (Hbox _ _ _ _ _ _ Hin) as (_ & Hshape & Hx & Hy & _).
  destruct (nd_slice_spec m xmin (xmax + 1) ymin (ymax + 1) Hm) as (Hw & Hcr & Hcc & Hget);
    [lia|rewrite Hmr; lia|lia|rewrite Hmc; lia|].
  injection Hshape as Hsr Hsc.
  assert (nd_rows pixels = Z.to_nat (xmax + 1 - xmin)) by lia.
  assert (nd_cols pixels = Z.to_nat (ymax + 1 - ymin)) by lia.
  split; [done|]. split.
  - unfold same_shape, cut. rewrite Hcr, Hcc.
    apply andb_true_iff. split; apply Nat.eqb_eq; lia.
  - intros q Hq. apply Hget. congruence.
Qed.

Lemma island_cutouts_line_up_witness :
  let m := NdArray 3 4 [0; 1; 2; 3; 4; 5; 6; 7; 8; 9; 10; 11]%float in
  exists islands,
    gen_flood_wrap (NdArray 3 4 [1; 6; 4.5; 1; 1; 1; 7; 1; 9; 1; 1; 1]%float)
      (nd_full 3 4 1%float) 5%float (Some 4%float) false = Ok islands /\
    forall pixels xmin xmax ymin ymax,
      (pixels, xmin, xmax, ymin, ymax) ∈ islands ->
      let cut := nd_slice m xmin (xmax + 1) ymin (ymax + 1) in
      nd_wf cut /\ same_shape pixels cut = true /\
      forall q, inb (nd_rows pixels) (nd_cols pixels) q ->
        nd_get cut q = nd_get m (xmin + q.1, ymin + q.2).
Proof.
  intros m.
  apply (island_cutouts_line_up
           (NdArray 3 4 [1; 6; 4.5; 1; 1; 1; 7; 1; 9; 1; 1; 1]%float)
           (nd_full 3 4 1%float) 5%float (Some 4%float) m); reflexivity.
Defined.

(** ** The catalogue *)

Lemma report_source_numbers lib img bkgimg rmsimg pix2arcsec cc2arcsec num_isle
    i xmin ymin par info perr err j src perr' err' :
  report_source lib img bkgimg rmsimg pix2arcsec cc2arcsec num_isle i xmin ymin
    par info perr err j = Ok (src, perr', err') ->
  island src = num_isle /\ source src = Z.of_nat j.
Proof.
  unfold report_source.
  destruct (sentinel_errors par perr err) as [pe er]. intros H.
  repeat match type of H with
         | bind ?m _ = Ok _ =>
             let E := fresh "E" in
             destruct m eqn:E; cbn [bind] in H; [|discriminate..]
         end.
  by injection H as <- <- <-.
Qed.

Lemma report_sources_numbers lib img bkgimg rmsimg pix2arcsec cc2arcsec num_isle
    i xmin ymin par info js :
  forall perr err srcs,
  report_sources lib img bkgimg rmsimg pix2arcsec cc2arcsec num_isle i xmin ymin
    par info perr err js = Ok srcs ->
  Forall (fun s => island s = num_isle) srcs /\
  source <$> srcs = Z.of_nat <$> js.
Proof.
  induction js as [|j js IH]; intros perr err srcs H; cbn [report_sources] in H.
  - by injection H as <-.
  - destruct (report_source _ _ _ _ _ _ _ _ _ _ _ _ _ _ _)
      as [[[src perr'] err']| |] eqn:E; cbn [bind] in H; [|discriminate..].
    destruct (report_sources _ _ _ _ _ _ _ _ _ _ _ _ _ _) as [rest| |] eqn:E';
      cbn [bind] in H; [|discriminate..].
    injection H as <-. destruct (report_source_numbers _ _ _ _ _ _ _ _ _ _ _ _ _ _ _ _ _ _ E).
    destruct (IH _ _ _ E') as [Hi Hs].
    split; [by apply Forall_cons|]. rewrite !fmap_cons. by f_equal.
Qed.

Lemma islands_sources_numbers lib img dcurve bkgimg rmsimg pix2arcsec cc2arcsec
    max_summits csigma ys :
  forall num_isle srcs,
  islands_sources lib img dcurve bkgimg rmsimg pix2arcsec cc2arcsec max_summits
    csigma num_isle ys = Ok srcs ->
  exists groups,
    srcs = concat groups /\
    length groups
      = length (filter (fun y : island_box => 1 < Z.of_nat (nd_rows y.1.1.1.1)) ys) /\
    forall k g, groups !! k = Some g ->
      Forall (fun s => island s = num_isle + Z.of_nat k + 1) g /\
      source <$> g = Z.of_nat <$> seq 0 (length g).
Proof.
  induction ys as [|y ys IH]; intros num_isle srcs H; cbn [islands_sources] in H.
  - injection H as <-. exists []. split; [done|]. split; [done|]. by intros k g.
  - rewrite filter_cons. destruct (Z.leb_spec (Z.of_nat (nd_rows y.1.1.1.1)) 1) as [Hle|Hgt].
    + rewrite decide_False by lia. by apply IH.
    + rewrite decide_True by lia.
      destruct (island_sources _ _ _ _ _ _ _ _ _ _ _) as [g0| |] eqn:E; cbn [bind] in H;
        [|done..].
      destruct (islands_sources _ _ _ _ _ _ _ _ _ _ _) as [rest| |] eqn:E'; cbn [bind] in H;
        [|done..].
      injection H as <-. destruct (IH _ _ E') as (groups & -> & Hlen & Hg).
      exists (g0 :: groups). split; [done|]. split; [simpl; by rewrite Hlen|].
      intros [|k] g Hk; simpl in Hk.
      * injection Hk as <-. unfold island_sources in E.
        destruct y as [[[[i xmin] xmax] ymin] ymax].
        destruct (estimate_parinfo _ _ _ _ _ _) as [parinfo| |]; cbn [bind] in E; [|done..].
        destruct (fit_island _ _ _ _ _) as [[mp info]| |]; cbn [bind] in E; [|done..].
        destruct (report_sources_numbers _ _ _ _ _ _ _ _ _ _ _ _ _ _ _ _ E) as [Hi Hs].
        split.
        -- eapply Forall_impl; [exact Hi|]. intros s Hs'. simpl in Hs'. lia.
        -- rewrite Hs. f_equal. f_equal.
           apply (f_equal length) in Hs. by rewrite !length_fmap, length_seq in Hs.
      * destruct (Hg k g Hk) as [Hi Hs]. split; [|done].
        eapply Forall_impl; [exact Hi|]. intros s Hs'. simpl in Hs'. lia.
Qed.

(** X14.  How the catalogue is numbered.  The sources come island by
    island, in the order in which the islands were found: the catalogue is
    made of one group of sources for each island that has more than one row;
    these islands are numbered from 1 without gaps, an island that is skipped
    for having one row taking no number; within an island the sources are
    numbered from 0. *)
Theorem catalogue_numbering (lib : Lib) (img : FitsImage)
    (rms max_summits csigma : option float) (innerclip outerclip : float)
    (srcs : list OutputSource) :
  find_sources_in_image lib img rms max_summits csigma innerclip outerclip = Ok srcs ->
  exists bkgimg rmsimg islands groups,
    make_bkg_rms_image lib (get_pixels img) (beam img) 20 rms = Ok (bkgimg, rmsimg) /\
    gen_flood_wrap (get_pixels img) rmsimg innerclip (Some outerclip) false
      = Ok islands /\
    srcs = concat groups /\
    length groups
      = length (filter (fun y : island_box => 1 < Z.of_nat (nd_rows y.1.1.1.1))
                       islands) /\
    forall k g, groups !! k = Some g ->
      Forall (fun s => island s = Z.of_nat k + 1) g /\
      source <$> g = Z.of_nat <$> seq 0 (length g).
Proof.
  unfold find_sources_in_image. intros H.
  destruct (make_bkg_rms_image _ _ _ _ _) as [[bkgimg rmsimg]| |] eqn:Emaps;
    cbn [bind] in H; [|done..].
  destruct (match csigma with Some c => Ok c | None => _ end) as [c| |];
    cbn [bind] in H; [|done..].
  destruct (gen_flood_wrap _ _ _ _ _) as [ys| |] eqn:Eflood; cbn [bind] in H; [|done..].
  destruct (islands_sources_numbers _ _ _ _ _ _ _ _ _ _ _ _ H) as (groups & -> & Hn & Hg).
  exists bkgimg, rmsimg, ys, groups. do 4 (split; [done|]).
  intros k g Hk. destruct (Hg k g Hk) as [Hi Hs].
  split; [|done]. eapply Forall_impl; [exact Hi|]. intros s Hs'. simpl in Hs'. lia.
Qed.

Lemma catalogue_numbering_witness :
  let pixels := NdArray 5 5 [0; 0; 0; 0; 0;  0; 6; 7; 6; 0;  0; 7; 10; 7.5; 0;
                             0; 6; 7; 6; 0;  0; 0; 0; 0; 0]%float in
  exists srcs groups,
    find_sources_in_image Example.lib (Example.image pixels)
      (Some 1%float) None (Some 1%float) 5%float 4%float = Ok srcs /\
    srcs = concat groups /\
    forall k g, groups !! k = Some g ->
      Forall (fun s => island s = Z.of_nat k + 1) g /\
      source <$> g = Z.of_nat <$> seq 0 (length g).
Proof.
  intros pixels. eexists.
  destruct (catalogue_numbering Example.lib (Example.image pixels)
              (Some 1%float) None (Some 1%float) 5%float 4%float _
              ltac:(vm_compute; reflexivity))
    as (bkgimg & rmsimg & islands & groups & _ & _ & Hcat & _ & Hg).
  exists groups. split; [vm_compute; reflexivity|]. by split.
Defined.

(** ** Small helpers *)

Lemma SF_nan_lt x y :
  SFeqb x x = false -> SFltb x y = false /\ SFltb y x = false.
Proof.
  unfold SFeqb, SFltb, SFcompare.
  destruct x as [sx|sx| |sx mx ex], y as [sy|sy| |sy my ey];
    try destruct sx; try destruct sy; simpl; intros H;
    try (split; reflexivity); try discriminate;
    rewrite ?Z.compare_refl, ?Pos.compare_cont_refl in H; simpl in H; discriminate.
Qed.

(** NaN is below nothing and nothing is below NaN. *)
Lemma float_nan_lt (x y : float) :
  (x =? x)%float = false -> (x <? y)%float = false /\ (y <? x)%float = false.
Proof. rewrite FloatAxioms.eqb_spec, !ltb_spec. apply SF_nan_lt. Qed.

(** X15.  [within(x, xm, xx)] with bounds in order.  A number that is not
    NaN is brought between the bounds, and is returned as it is when it lies
    between them already; NaN is returned as NaN, so that the docstring's
    [xm <= x <= xx] does not hold of it. *)
Theorem within_clamps (x lo hi : float) :
  (lo <=? hi)%float = true ->
  ((x =? x)%float = true ->
     (lo <=? within x lo hi)%float = true /\ (within x lo hi <=? hi)%float = true /\
     ((lo <=? x)%float = true -> (x <=? hi)%float = true -> within x lo hi = x)) /\
  ((x =? x)%float = false -> within x lo hi = x).
Proof.
  intros Hle. split.
  - intros Hx. destruct (within_between x lo hi Hx Hle) as [H1 H2].
    split; [done|]. split; [done|]. intros Hlo Hhi.
    unfold within, Py.min, Py.max.
    by rewrite (float_le_not_lt _ _ Hlo), (float_le_not_lt _ _ Hhi).
  - intros Hnan. destruct (float_nan_lt x lo Hnan) as [H1 _].
    destruct (float_nan_lt x hi Hnan) as [_ H2].
    unfold within, Py.min, Py.max. by rewrite H1, H2.
Qed.

Lemma within_clamps_witness :
  (((-1) <=? within 5 (-1) 3)%float = true /\ (within 5 (-1) 3 <=? 3)%float = true) /\
  within nan (-1) 3 = nan.
Proof.
  destruct (within_clamps 5 (-1) 3 ltac:(reflexivity)) as [Hnum _].
  destruct (within_clamps nan (-1) 3 ltac:(reflexivity)) as [_ Hnan].
  destruct (Hnum ltac:(reflexivity)) as (H1 & H2 & _).
  split; [by split|]. apply Hnan. reflexivity.
Defined.

(** ** The image file *)

Lemma abs_sub_nan (blank : float) : (abs (nan - blank) <? c1e_9)%float = false.
Proof.
  rewrite ltb_spec, abs_spec, sub_spec.
  change (Prim2SF nan) with S754_nan.
  by destruct (Prim2SF blank) as [[]|[]| |[] ? ?].
Qed.

(** X16.  [wrangle_nans] can be run again and again, as [get_pixels] does
    on every call: it keeps the shape of the pixel array, every pixel either
    keeps its value or becomes NaN, and a second run changes nothing. *)
Theorem wrangle_nans_idempotent (blank_hdr bscale bzero : float)
    (pixels : ndarray float) :
  let once := wrangle_nans blank_hdr bscale bzero pixels in
  wrangle_nans blank_hdr bscale bzero once = once /\
  nd_shape once = nd_shape pixels /\
  length (nd_buf once) = length (nd_buf pixels) /\
  Forall2 (fun v w => w = v \/ w = nan) (nd_buf pixels) (nd_buf once).
Proof.
  cbn zeta. unfold wrangle_nans. cbn [nd_rows nd_cols nd_buf].
  split; [|split; [done|split]].
  - f_equal. rewrite <- list_fmap_compose. apply list_fmap_ext.
    intros _ v _. cbn [compose].
    destruct (abs (v - (blank_hdr * bscale + bzero)) <? c1e_9)%float eqn:E.
    + by rewrite abs_sub_nan.
    + by rewrite E.
  - by rewrite length_fmap.
  - apply Forall2_fmap_r, Forall_Forall2_diag, Forall_forall. intros v _.
    unfold compose.
    destruct (abs (v - (blank_hdr * bscale + bzero)) <? c1e_9)%float;
      [by right|by left].
Qed.

(** X17.  The noise of the whole image as [FitsImage.get_background_rms]
    computes it is the one [rms_from_iqr] computes, as long as no pixel that
    is not NaN is at or below -9999999: both drop the NaN pixels and take the
    interquartile range over 1.34896. *)
Theorem get_background_rms_is_rms_from_iqr (lib : Lib) (data : ndarray float) :
  Forall (fun v => (v =? v)%float = true -> (c_9999999 <? v)%float = true)
         (nd_buf data) ->
  get_background_rms lib data = rms_from_iqr lib data.
Proof.
  intros Hall. unfold get_background_rms, rms_from_iqr, finite_values.
  assert (Heq : filter (fun v => (c_9999999 <? v)%float = true) (nd_buf data)
                = filter (fun v => (v =? v)%float = true) (nd_buf data)).
  { induction Hall as [|v l Hv _ IH]; [done|]. rewrite !filter_cons, IH.
    destruct (v =? v)%float eqn:E.
    - by rewrite Hv.
    - by rewrite (proj2 (float_nan_lt v c_9999999 E)). }
  by rewrite Heq.
Qed.

Lemma get_background_rms_is_rms_from_iqr_witness :
  get_background_rms Example.lib (NdArray 2 2 [1; nan; 3; 4]%float)
  = rms_from_iqr Example.lib (NdArray 2 2 [1; nan; 3; 4]%float).
Proof.
  apply get_background_rms_is_rms_from_iqr.
  repeat (apply Forall_cons; split; [vm_compute; congruence|]). apply Forall_nil_2.
Defined.

(** X18.  [load_pixels] with a region [[xmin, xmax, ymin, ymax]] that lies
    in the image: the result has [ymax - ymin] rows and [xmax - xmin]
    columns, and its cell [y, x] is the pixel [ymin + y, xmin + x] of the
    file, the upper bounds being left out.  A region that does not have
    four numbers is ignored without notice. *)
Theorem load_pixels_region (pixels : ndarray float) (xmin xmax ymin ymax : Z) :
  nd_wf pixels ->
  0 <= xmin <= xmax -> xmax <= Z.of_nat (nd_cols pixels) ->
  0 <= ymin <= ymax -> ymax <= Z.of_nat (nd_rows pixels) ->
  let cut := load_pixels pixels (Some [xmin; xmax; ymin; ymax]) in
  nd_wf cut /\ nd_shape cut = (ymax - ymin, xmax - xmin) /\
  (forall q, inb (nd_rows cut) (nd_cols cut) q ->
     nd_get cut q = nd_get pixels (ymin + q.1, xmin + q.2)) /\
  (forall region, length region <> 4%nat -> load_pixels pixels (Some region) = pixels).
Proof.
  intros Hwf Hx Hx1 Hy Hy1. cbn zeta. cbn [load_pixels].
  destruct (nd_slice_spec pixels ymin ymax xmin xmax Hwf Hy Hy1 Hx Hx1)
    as (Hw & Hr & Hc & Hget).
  split; [done|]. split; [unfold nd_shape; rewrite Hr, Hc; f_equal; lia|].
  split; [intros q Hq; apply Hget; by rewrite <- Hr, <- Hc|].
  intros region Hlen. unfold load_pixels.
  by destruct region as [|c [|d [|a [|b [|? ?]]]]].
Qed.

Lemma load_pixels_region_witness :
  let pixels := NdArray 3 4 [0; 1; 2; 3; 4; 5; 6; 7; 8; 9; 10; 11]%float in
  load_pixels pixels (Some [1; 3; 0; 2]) = NdArray 2 2 [1; 2; 5; 6]%float /\
  nd_shape (load_pixels pixels (Some [1; 3; 0; 2])) = (2 - 0, 3 - 1).
Proof.
  intros pixels. split; [reflexivity|].
  destruct (load_pixels_region pixels 1 3 0 2) as (_ & Hshape & _);
    [reflexivity|simpl; lia..|exact Hshape].
Defined.

(** X19.  A beam that covers less than one pixel along an axis of the image
    stops the background estimation: the box width along that axis is 0,
    and taking the remainder by it raises ZeroDivisionError, whatever the
    size of the image, unless a noise level is forced. *)
Theorem narrow_beam_raises (lib : Lib) (data : ndarray float) (beam : Beam.t)
    (mesh_size ex ey : Z) :
  Py.int (Py.max (abs (cos lib (Beam.pa beam) * Beam.b beam))
                 (abs (sin lib (Beam.pa beam) * Beam.a beam)))%float = Ok ex ->
  Py.int (Py.max (abs (sin lib (Beam.pa beam) * Beam.b beam))
                 (abs (cos lib (Beam.pa beam) * Beam.a beam)))%float = Ok ey ->
  ex = 0 \/ ey = 0 ->
  make_bkg_rms_image lib data beam mesh_size None = Raise ZeroDivisionError.
Proof.
  intros Hex Hey Hzero. unfold make_bkg_rms_image, tile_bkg_rms.
  rewrite Hex, Hey. cbn [bind]. destruct Hzero as [-> | ->].
  - unfold mesh_bounds at 1. by rewrite Z.mul_0_r.
  - assert (Hy : mesh_bounds (Z.of_nat (nd_rows data)) (mesh_size * 0)
                 = Raise ZeroDivisionError)
      by (unfold mesh_bounds; by rewrite Z.mul_0_r).
    unfold mesh_bounds at 1. destruct (mesh_size * ex =? 0); [done|].
    destruct (_ <=? _); cbn [bind]; by rewrite Hy.
Qed.

Lemma narrow_beam_raises_witness :
  make_bkg_rms_image Example.lib (NdArray 2 2 [1; 2; 3; 4]%float)
    (Beam.Make 0.5 0.5 0 1) 20 None = Raise ZeroDivisionError.
Proof.
  apply (narrow_beam_raises Example.lib (NdArray 2 2 [1; 2; 3; 4]%float)
           (Beam.Make 0.5 0.5 0 1) 20 0 0); [reflexivity|reflexivity|by left].
Defined.

(** ** Lists and maps of an island *)

(** Two arrays of one shape that agree at every index are equal. *)
Lemma nd_ext {A} (a b : ndarray A) :
  nd_wf a -> nd_wf b -> nd_rows a = nd_rows b -> nd_cols a = nd_cols b ->
  (forall p, inb (nd_rows a) (nd_cols a) p -> nd_get a p = nd_get b p) ->
  a = b.
Proof.
  destruct a as [ra ca la], b as [rb cb lb]. unfold nd_wf. cbn [nd_rows nd_cols nd_buf].
  intros Ha Hb <- <- Hget. f_equal. apply list_eq. intros k.
  destruct (decide (k < ra * ca)%nat) as [Hk|Hk].
  - assert (Hca : (0 < ca)%nat) by (destruct ca; lia).
    set (p := (Z.of_nat (k / ca), Z.of_nat (k mod ca)) : pixel).
    assert (Hp : inb ra ca p).
    { unfold inb, p; simpl. pose proof (Nat.mod_upper_bound k ca ltac:(lia)).
      assert (k / ca < ra)%nat by (apply Nat.Div0.div_lt_upper_bound; lia). lia. }
    assert (Hoff : off ca p = k).
    { unfold off, p; simpl. rewrite !Nat2Z.id. pose proof (Nat.div_mod_eq k ca). lia. }
    destruct (nd_get_inb (NdArray ra ca la) p Ha Hp) as [v Hv].
    pose proof Hv as Hv'. rewrite (Hget p Hp) in Hv'.
    apply nd_get_lookup in Hv, Hv'; [|done..]. cbn [nd_buf nd_cols] in Hv, Hv'.
    rewrite Hoff in Hv, Hv'. congruence.
  - rewrite !lookup_ge_None_2 by lia. done.
Qed.

(** X20.  [map2list] and [list2map] undo one another on a whole map: the
    list of a map that is not empty has one tuple per pixel, and the map
    made from the coordinates of that list is the map itself, with the
    bounds of the whole array. *)
Theorem map2list_list2map_round_trip (data : ndarray float) :
  nd_wf data -> (0 < nd_rows data)%nat -> (0 < nd_cols data)%nat ->
  exists l,
    Island.map2list data = Ok l /\
    length l = (nd_rows data * nd_cols data)%nat /\
    Island.list2map data ((fun t : float * Z * Z => (t.1.2, t.2)) <$> l)
    = Ok (data, 0, Z.of_nat (nd_rows data) - 1, 0, Z.of_nat (nd_cols data) - 1).
Proof.
  intros Hwf Hr Hc. unfold Island.map2list.
  set (idx := nd_indices (nd_rows data) (nd_cols data)).
  assert (Hidx : Forall (inb (nd_rows data) (nd_cols data)) idx)
    by (apply Forall_forall; intros p; apply nd_indices_inb).
  destruct (peaks_read data idx Hwf Hidx) as (l & Hl & Hproj).
  exists l. split; [done|].
  split.
  { rewrite <- (length_fmap (fun t : float * Z * Z => (t.1.2, t.2))), Hproj.
    apply nd_indices_length. }
  rewrite Hproj.
  destruct (list2map_spec data Hwf idx) as
    (px & x0 & x1 & y0 & y1 & Heq & Hpw & Hshape & Hbox & Hext & Hval & _);
    [|done|].
  { intros Hnil. apply (f_equal length) in Hnil.
    unfold idx in Hnil. rewrite nd_indices_length in Hnil. simpl in Hnil. nia. }
  rewrite Heq.
  assert (Hfirst : (0, 0) ∈ idx) by (apply nd_indices_complete; unfold inb; simpl; lia).
  assert (Hlast : (Z.of_nat (nd_rows data) - 1, Z.of_nat (nd_cols data) - 1) ∈ idx)
    by (apply nd_indices_complete; unfold inb; simpl; lia).
  destruct Hext as ((pa & Hpa & Ea) & (pb & Hpb & Eb) & (pc & Hpc & Ec) & (pd & Hpd & Ed)).
  rewrite Forall_forall in Hidx.
  pose proof (Hidx pa Hpa) as [? ?]. pose proof (Hidx pb Hpb) as [? ?].
  pose proof (Hidx pc Hpc) as [? ?]. pose proof (Hidx pd Hpd) as [? ?].
  pose proof (Hbox _ Hfirst) as [? ?]. pose proof (Hbox _ Hlast) as [? ?].
  cbn [fst snd] in *.
  assert (x0 = 0) as -> by lia. assert (y0 = 0) as -> by lia.
  assert (x1 = Z.of_nat (nd_rows data) - 1) as -> by lia.
  assert (y1 = Z.of_nat (nd_cols data) - 1) as -> by lia.
  injection Hshape as Hsr Hsc.
  assert (px = data) as ->; [|done].
  apply nd_ext; [done|done|lia|lia|].
  intros p Hp. assert (Hin : p ∈ idx).
  { apply nd_indices_complete. destruct Hp. split; lia. }
  rewrite <- (Hval p Hin). f_equal. destruct p; simpl; f_equal; lia.
Qed.

Lemma map2list_list2map_round_trip_witness :
  let data := NdArray 2 2 [1; 2; 3; 4]%float in
  exists l,
    Island.map2list data = Ok l /\
    length l = 4%nat /\
    Island.list2map data ((fun t : float * Z * Z => (t.1.2, t.2)) <$> l)
    = Ok (data, 0, 1, 0, 1).
Proof.
  intros data. apply (map2list_list2map_round_trip data); [reflexivity|simpl; lia..].
Defined.

Lemma float_lt_not_nan (x y : float) :
  (x <? y)%float = true -> (y =? y)%float = true.
Proof.
  intros H. destruct (y =? y)%float eqn:E; [done|].
  destruct (float_nan_lt y x E) as [_ H']. congruence.
Qed.

Lemma res_mapM_filter (data : ndarray float) (clip : float) (l : list pixel) :
  forall all,
  res_mapM (fun p => v <- nd_get data p ; Ok (v, p.1, p.2)) l = Ok all ->
  res_mapM (fun p => v <- nd_get data p ; Ok (v, p.1, p.2))
    (filter (fun p => match nd_get data p with
                      | Ok v => (clip <? v)%float
                      | _ => false
                      end = true) l)
  = Ok (filter (fun t : float * Z * Z => (clip <? t.1.1)%float = true) all).
Proof.
  induction l as [|p l IH]; intros all H; cbn [res_mapM] in H.
  - by injection H as <-.
  - destruct (nd_get data p) as [v| |] eqn:E; cbn [bind] in H; [|done..].
    destruct (res_mapM _ l) as [rest| |]; cbn [bind] in H; [|done..].
    injection H as <-. rewrite !filter_cons, E. cbn [fst].
    destruct (clip <? v)%float.
    + rewrite !decide_True by done. cbn [res_mapM]. rewrite E. cbn [bind].
      by rewrite (IH rest eq_refl).
    + rewrite !decide_False by done. by apply IH.
Qed.

(** X21.  [get_pixlist(clip)] is [map2list] of the island's pixels with the
    tuples at or below the clip left out, in the same order; it never lists
    a NaN pixel, whatever the clip. *)
Theorem get_pixlist_filters_map2list (data : ndarray float) (clip : float) :
  nd_wf data ->
  exists all,
    Island.map2list data = Ok all /\
    Island.get_pixlist data clip
    = Ok (filter (fun t : float * Z * Z => (clip <? t.1.1)%float = true) all) /\
    Forall (fun t : float * Z * Z => (t.1.1 =? t.1.1)%float = true)
      (filter (fun t : float * Z * Z => (clip <? t.1.1)%float = true) all).
Proof.
  intros Hwf. unfold Island.map2list, Island.get_pixlist.
  destruct (peaks_read data (nd_indices (nd_rows data) (nd_cols data)) Hwf)
    as (all & Hall & _).
  { apply Forall_forall. intros p. apply nd_indices_inb. }
  exists all. split; [done|]. split; [by apply res_mapM_filter|].
  apply Forall_forall. intros t [Ht _]%list_elem_of_filter.
  by eapply float_lt_not_nan.
Qed.

Lemma get_pixlist_filters_map2list_witness :
  Island.get_pixlist (NdArray 2 2 [1; nan; 3; 4]%float) 2
  = Ok [(3%float, 1, 0); (4%float, 1, 1)].
Proof.
  destruct (get_pixlist_filters_map2list (NdArray 2 2 [1; nan; 3; 4]%float) 2
              ltac:(reflexivity)) as (all & Hall & Hget & _).
  vm_compute in Hall. injection Hall as <-. exact Hget.
Defined.

(** ** The summits of an island *)

(** The curvature mask of an island, cell by cell. *)
Lemma kappa_sigma_get (data rmsimg curve : ndarray float) (csigma : float)
    (mask : ndarray float) (p : pixel) :
  nd_wf data -> nd_wf rmsimg -> nd_wf curve ->
  kappa_sigma data rmsimg curve csigma = Ok mask ->
  inb (nd_rows data) (nd_cols data) p ->
  exists c d r,
    nd_get curve p = Ok c /\ nd_get data p = Ok d /\ nd_get rmsimg p = Ok r /\
    nd_get mask p =
      Ok (if (c <? -1 * csigma)%float
          then (if (0 <? d - 5 * r)%float then d else (-1)%float)
          else (-1)%float).
Proof.
  intros Hd Hr Hc. unfold kappa_sigma, same_shape.
  destruct (_ && _) eqn:Hs; [|done]. cbn [negb]. intros [= <-] Hp.
  apply andb_true_iff in Hs as [[H1 H2]%andb_true_iff [H3 H4]%andb_true_iff].
  apply Nat.eqb_eq in H1, H2, H3, H4.
  destruct (nd_get_inb data p Hd Hp) as [d Hgd].
  destruct (nd_get_inb rmsimg p Hr) as [r Hgr]; [by rewrite <- H1, <- H2|].
  destruct (nd_get_inb curve p Hc) as [c Hgc]; [by rewrite H3, H4|].
  exists c, d, r. do 3 (split; [done|]).
  apply nd_get_lookup in Hgd; [|done].
  apply nd_get_lookup in Hgr; [|by rewrite <- H1, <- H2].
  apply nd_get_lookup in Hgc; [|by rewrite H3, H4].
  rewrite <- H2 in Hgr. rewrite H4 in Hgc.
  unfold nd_get. rewrite nd_offset_inb by done. cbn [nd_buf nd_cols].
  rewrite list_lookup_fmap, !lookup_zip_with, Hgc, Hgd, Hgr. done.
Qed.

Lemma kappa_sigma_shape (data rmsimg curve : ndarray float) (csigma : float) :
  nd_wf data -> nd_wf rmsimg -> nd_wf curve ->
  same_shape data rmsimg = true -> same_shape curve data = true ->
  exists mask,
    kappa_sigma data rmsimg curve csigma = Ok mask /\ nd_wf mask /\
    nd_rows mask = nd_rows data /\ nd_cols mask = nd_cols data.
Proof.
  intros Hd Hr Hc H1 H2. unfold kappa_sigma. rewrite H1, H2. cbn [negb andb].
  eexists. split; [done|]. split; [|done].
  unfold same_shape in H1, H2.
  apply andb_true_iff in H1 as [A1 A2]. apply andb_true_iff in H2 as [A3 A4].
  apply Nat.eqb_eq in A1, A2, A3, A4.
  unfold nd_wf in *. cbn [nd_buf nd_rows nd_cols].
  rewrite length_fmap, !length_zip, Hd, Hr, Hc, <- A1, <- A2, A3, A4. lia.
Qed.

(** X22.  What the summits of an island that is not tiny are made of.
    Every cell of a summit that is not NaN is a pixel of the island where
    the curvature is below [-csigma] and the flux is more than five times
    the noise, and the cell holds the flux of that pixel: no pixel of
    positive curvature or of low significance is part of any summit. *)
Theorem summits_are_significant (data rmsimg curve : ndarray float)
    (csigma : float) :
  nd_wf data -> nd_wf rmsimg -> nd_wf curve ->
  same_shape data rmsimg = true -> same_shape curve data = true ->
  tiny data = false ->
  exists summits,
    find_summits data rmsimg curve csigma = Ok summits /\
    forall summit xmin xmax ymin ymax,
      (summit, xmin, xmax, ymin, ymax) ∈ summits ->
      forall q v,
        inb (nd_rows summit) (nd_cols summit) q ->
        nd_get summit q = Ok v -> (v =? v)%float = true ->
        exists c r,
          nd_get curve (q.1 + xmin, q.2 + ymin) = Ok c /\
          nd_get data (q.1 + xmin, q.2 + ymin) = Ok v /\
          nd_get rmsimg (q.1 + xmin, q.2 + ymin) = Ok r /\
          (c <? -1 * csigma)%float = true /\ (0 <? v - 5 * r)%float = true.
Proof.
  intros Hd Hr Hc Hs1 Hs2 Htiny. unfold find_summits. rewrite Htiny.
  destruct (kappa_sigma_shape data rmsimg curve csigma Hd Hr Hc Hs1 Hs2)
    as (mask & Hmask & Hmw & Hmr & Hmc).
  rewrite Hmask. cbn [bind].
  set (ones := nd_full (nd_rows mask) (nd_cols mask) 1%float).
  assert (Ho : nd_wf ones)
    by (unfold nd_wf, ones, nd_full; simpl; by rewrite length_replicate).
  destruct (gen_flood_wrap_trace_inv mask ones 0%float 0%float Hmw Ho eq_refl eq_refl
              None eq_refl) as (tr & st & Hrun & G & Hgrown).
  destruct (trace_boxes mask ones 0%float None Hmw Ho eq_refl eq_refl)
    as (tr' & st' & Hrun' & Hbox).
  rewrite Hrun in Hrun'. injection Hrun' as <- <-.
  exists (snd <$> tr). split; [unfold gen_flood_wrap; by rewrite Hrun|].
  intros summit xmin xmax ymin ymax Hin q v Hq Hv Hnum.
  apply list_elem_of_fmap in Hin as ([blob y] & Hy & Hin). cbn [snd] in Hy. subst y.
  destruct (Hbox _ _ _ _ _ _ Hin) as (_ & _ & _ & _ & Hval & Hnan & _).
  rewrite Forall_forall in Hgrown.
  destruct (Hgrown _ Hin) as ((seed & tl & Hblob & Hseed & Htl) & _). cbn [fst] in Hblob.
  destruct (decide ((q.1 + xmin, q.2 + ymin) ∈ blob)) as [Hmem|Hout].
  2:{ rewrite (Hnan q Hq Hout) in Hv. injection Hv as <-. done. }
  destruct (Hval _ Hmem) as [_ Hsame]. cbn [fst snd] in Hsame.
  replace (q.1 + xmin - xmin, q.2 + ymin - ymin) with q in Hsame
    by (destruct q; simpl; f_equal; lia).
  rewrite Hv in Hsame. symmetry in Hsame.
  assert (Hp : inb (nd_rows data) (nd_cols data) (q.1 + xmin, q.2 + ymin)).
  { rewrite <- Hmr, <- Hmc. apply (g_visited _ _ _ G).
    apply list_elem_of_In, in_concat. exists blob.
    split; apply list_elem_of_In; [|done].
    apply list_elem_of_fmap. by exists (blob, (summit, xmin, xmax, ymin, ymax)). }
  destruct (kappa_sigma_get data rmsimg curve csigma mask _ Hd Hr Hc Hmask Hp)
    as (c & d & r & Hgc & Hgd & Hgr & Hgm).
  rewrite Hsame in Hgm. injection Hgm as Hvm.
  assert (Hone : nd_get ones (q.1 + xmin, q.2 + ymin) = Ok 1%float).
  { apply nd_full_get. by rewrite Hmr, Hmc. }
  assert (Hge : (0 <? v / 1)%float = true \/ (0 <=? v / 1)%float = true).
  { rewrite Hblob in Hmem. apply elem_of_cons in Hmem as [Hmem|Hmem].
    - left. rewrite <- Hmem in Hseed. unfold snr_gt in Hseed.
      by rewrite Hsame, Hone in Hseed.
    - right. rewrite Forall_forall in Htl. specialize (Htl _ Hmem).
      unfold snr_ge in Htl. by rewrite Hsame, Hone in Htl. }
  exists c, r. split; [done|].
  destruct (c <? -1 * csigma)%float.
  2:{ subst v. exfalso. by destruct Hge as [Hge|Hge]; vm_compute in Hge. }
  destruct (0 <? d - 5 * r)%float eqn:Hsig.
  2:{ subst v. exfalso. by destruct Hge as [Hge|Hge]; vm_compute in Hge. }
  subst v. done.
Qed.

Lemma summits_are_significant_witness :
  let data := NdArray 3 3 [6; 7; 6; 7; 10; 7.5; 6; 7; 6]%float in
  let rmsimg := nd_full 3 3 1%float in
  let curve := nd_full 3 3 (-20)%float in
  exists summits,
    find_summits data rmsimg curve 1 = Ok summits /\
    forall summit xmin xmax ymin ymax,
      (summit, xmin, xmax, ymin, ymax) ∈ summits ->
      forall q v,
        inb (nd_rows summit) (nd_cols summit) q ->
        nd_get summit q = Ok v -> (v =? v)%float = true ->
        exists c r,
          nd_get curve (q.1 + xmin, q.2 + ymin) = Ok c /\
          nd_get data (q.1 + xmin, q.2 + ymin) = Ok v /\
          nd_get rmsimg (q.1 + xmin, q.2 + ymin) = Ok r /\
          (c <? -1 * 1)%float = true /\ (0 <? v - 5 * r)%float = true.
Proof.
  intros data rmsimg curve.
  apply (summits_are_significant data rmsimg curve 1); reflexivity.
Defined.

(** ** The order in which islands are found *)

Ltac sf_crush :=
  unfold SFleb, SFltb, SFeqb, SFcompare;
  repeat match goal with x : spec_float |- _ => destruct x as [[]|[]| |[] ? ?] end;
  simpl; try congruence; intros; cmp_cases; subst; simpl in *;
  try congruence; try lia.

Lemma SF_lt_trans x y z : SFltb x y = true -> SFltb y z = true -> SFltb x z = true.
Proof. sf_crush. Qed.

Lemma SF_eq_lt_trans x y z : SFeqb x y = true -> SFltb y z = true -> SFltb x z = true.
Proof. sf_crush. Qed.

Lemma SF_lt_eq_trans x y z : SFltb x y = true -> SFeqb y z = true -> SFltb x z = true.
Proof. sf_crush. Qed.

Lemma SF_eq_trans x y z : SFeqb x y = true -> SFeqb y z = true -> SFeqb x z = true.
Proof. sf_crush. Qed.

Lemma SF_eq_sym x y : SFeqb x y = true -> SFeqb y x = true.
Proof. sf_crush. Qed.

Lemma SF_lt_not_eq x y : SFltb x y = true -> SFeqb x y = false.
Proof. sf_crush. Qed.

Lemma SF_total x y :
  SFeqb x x = true -> SFeqb y y = true -> SFeqb x y = false -> SFltb x y = false ->
  SFltb y x = true.
Proof. sf_crush. Qed.

Lemma float_lt_trans (x y z : float) :
  (x <? y)%float = true -> (y <? z)%float = true -> (x <? z)%float = true.
Proof. rewrite !ltb_spec. apply SF_lt_trans. Qed.

Lemma float_eq_lt_trans (x y z : float) :
  (x =? y)%float = true -> (y <? z)%float = true -> (x <? z)%float = true.
Proof. rewrite FloatAxioms.eqb_spec, !ltb_spec. apply SF_eq_lt_trans. Qed.

Lemma float_lt_eq_trans (x y z : float) :
  (x <? y)%float = true -> (y =? z)%float = true -> (x <? z)%float = true.
Proof. rewrite FloatAxioms.eqb_spec, !ltb_spec. apply SF_lt_eq_trans. Qed.

Lemma float_eq_trans (x y z : float) :
  (x =? y)%float = true -> (y =? z)%float = true -> (x =? z)%float = true.
Proof. rewrite !FloatAxioms.eqb_spec. apply SF_eq_trans. Qed.

Lemma float_eq_sym (x y : float) : (x =? y)%float = true -> (y =? x)%float = true.
Proof. rewrite !FloatAxioms.eqb_spec. apply SF_eq_sym. Qed.

Lemma float_lt_not_eq (x y : float) :
  (x <? y)%float = true -> (x =? y)%float = false /\ (y =? x)%float = false.
Proof.
  intros H. assert (Hxy : (x =? y)%float = false).
  { revert H. rewrite FloatAxioms.eqb_spec, ltb_spec. apply SF_lt_not_eq. }
  split; [done|]. destruct (y =? x)%float eqn:E; [|done].
  apply float_eq_sym in E. congruence.
Qed.

Lemma float_total (x y : float) :
  (x =? x)%float = true -> (y =? y)%float = true ->
  (x =? y)%float = false -> (x <? y)%float = false -> (y <? x)%float = true.
Proof. rewrite !FloatAxioms.eqb_spec, !ltb_spec. apply SF_total. Qed.

Lemma float_eq_not_lt (x y : float) :
  (x =? y)%float = true -> (x <? y)%float = false.
Proof.
  intros H. destruct (x <? y)%float eqn:E; [|done].
  apply float_lt_not_eq in E as [E _]. congruence.
Qed.

(** A quotient that is not NaN has a dividend that is not NaN. *)
Lemma float_div_not_nan (d r : float) :
  (d / r =? d / r)%float = true -> (d =? d)%float = true.
Proof.
  rewrite !FloatAxioms.eqb_spec, div_spec.
  destruct (Prim2SF d) as [[]|[]| |[] ? ?]; try done.
  all: unfold SFeqb, SFcompare; simpl;
    by rewrite ?Z.compare_refl, ?Pos.compare_cont_refl.
Qed.

(** The order of Python on the tuples [(flux, x, y)], for fluxes that are
    not NaN. *)
Lemma peak_lt_asym (a b : float * Z * Z) : peak_lt a b = true -> peak_lt b a = false.
Proof.
  destruct a as [[fa xa] ya], b as [[fb xb] yb]. unfold peak_lt.
  destruct (fa =? fb)%float eqn:E; cbn [negb].
  - rewrite (float_eq_sym _ _ E). cbn [negb].
    destruct (Z.eqb_spec xa xb), (Z.eqb_spec xb xa); cbn [negb]; try (exfalso; lia);
      intros H; apply Z.ltb_lt in H; apply Z.ltb_ge; lia.
  - intros H. rewrite (proj2 (float_lt_not_eq _ _ H)). cbn [negb].
    by apply float_lt_asym.
Qed.

Lemma peak_ge_trans (a b c : float * Z * Z) :
  (a.1.1 =? a.1.1)%float = true -> (b.1.1 =? b.1.1)%float = true ->
  (c.1.1 =? c.1.1)%float = true ->
  peak_lt a b = false -> peak_lt b c = false -> peak_lt a c = false.
Proof.
  destruct a as [[fa xa] ya], b as [[fb xb] yb], c as [[fc xc] yc].
  cbn [fst snd]. intros Na Nb Nc. unfold peak_lt.
  destruct (fa =? fb)%float eqn:Eab, (fb =? fc)%float eqn:Ebc; cbn [negb].
  - rewrite (float_eq_trans _ _ _ Eab Ebc). cbn [negb].
    destruct (Z.eqb_spec xa xb), (Z.eqb_spec xb xc), (Z.eqb_spec xa xc); cbn [negb];
      try (exfalso; lia);
      intros H1 H2; apply Z.ltb_ge in H1; apply Z.ltb_ge in H2;
      apply Z.ltb_ge; lia.
  - intros _ H. pose proof (float_total _ _ Nb Nc Ebc H) as Hcb.
    pose proof (float_lt_eq_trans _ _ _ Hcb (float_eq_sym _ _ Eab)) as Hca.
    rewrite (proj2 (float_lt_not_eq _ _ Hca)). cbn [negb]. by apply float_lt_asym.
  - intros H _. pose proof (float_total _ _ Na Nb Eab H) as Hba.
    pose proof (float_eq_lt_trans _ _ _ (float_eq_sym _ _ Ebc) Hba) as Hca.
    rewrite (proj2 (float_lt_not_eq _ _ Hca)). cbn [negb]. by apply float_lt_asym.
  - intros H1 H2. pose proof (float_total _ _ Na Nb Eab H1) as Hba.
    pose proof (float_total _ _ Nb Nc Ebc H2) as Hcb.
    pose proof (float_lt_trans _ _ _ Hcb Hba) as Hca.
    rewrite (proj2 (float_lt_not_eq _ _ Hca)). cbn [negb]. by apply float_lt_asym.
Qed.

Lemma peak_lt_flux (a b : float * Z * Z) :
  peak_lt a b = false -> (a.1.1 <? b.1.1)%float = false.
Proof.
  destruct a as [[fa xa] ya], b as [[fb xb] yb]. cbn [fst snd]. unfold peak_lt.
  destruct (fa =? fb)%float eqn:E; cbn [negb]; [|done].
  intros _. by apply float_eq_not_lt.
Qed.

Lemma insert_desc_sorted a l :
  (a.1.1 =? a.1.1)%float = true ->
  Forall (fun t : float * Z * Z => (t.1.1 =? t.1.1)%float = true) l ->
  desc_sorted l -> desc_sorted (insert_desc a l).
Proof.
  intros Na. induction 1 as [|b l Nb Nl IH]; intros Hs; cbn [insert_desc].
  - split; [apply Forall_nil_2|done].
  - destruct Hs as [Hb Hl]. destruct (peak_lt a b) eqn:E.
    + cbn [desc_sorted]. split; [|by apply IH].
      rewrite (insert_desc_perm a l). apply Forall_cons. split; [|done].
      by apply peak_lt_asym.
    + cbn [desc_sorted]. split; [|done]. apply Forall_cons. split; [done|].
      rewrite Forall_forall in Hb, Nl. apply Forall_forall. intros c Hc.
      apply (peak_ge_trans a b c); auto.
Qed.

Lemma sort_desc_sorted l :
  Forall (fun t : float * Z * Z => (t.1.1 =? t.1.1)%float = true) l ->
  desc_sorted (sort_desc l).
Proof.
  unfold sort_desc. induction 1 as [|a l Na Nl IH]; [done|]. cbn [foldr].
  apply insert_desc_sorted; [done| |done].
  fold (sort_desc l). by rewrite (sort_desc_perm l).
Qed.

Lemma sorted_falling (data : ndarray float) (ts : list (float * Z * Z)) :
  Forall (fun t => nd_get data (t.1.2, t.2) = Ok t.1.1) ts ->
  desc_sorted ts ->
  falling data ((fun t : float * Z * Z => (t.1.2, t.2)) <$> ts).
Proof.
  induction 1 as [|t ts Ht Hts IH]; intros Hs; [done|]. destruct Hs as [Hhead Hs].
  rewrite fmap_cons. cbn [falling]. split; [|by apply IH].
  apply Forall_fmap, Forall_forall. intros u Hu. cbn [compose].
  rewrite Forall_forall in Hts, Hhead.
  intros a b Ha Hb. rewrite Ht in Ha. rewrite (Hts u Hu) in Hb.
  injection Ha as <-. injection Hb as <-. by apply peak_lt_flux, Hhead.
Qed.

Lemma falling_sublist (data : ndarray float) (l1 l2 : list pixel) :
  l1 `sublist_of` l2 -> falling data l2 -> falling data l1.
Proof.
  induction 1 as [|x l1 l2 Hsub IH|x l1 l2 Hsub IH]; [done| |].
  - intros [Hx Hl]. split; [|by apply IH].
    rewrite Forall_forall in Hx. apply Forall_forall. intros q Hq.
    apply Hx. by eapply elem_of_sublist.
  - intros [_ Hl]. by apply IH.
Qed.

Lemma peaks_values (data : ndarray float) (l : list pixel) :
  forall peaks,
  res_mapM (fun p => v <- nd_get data p ; Ok (v, p.1, p.2)) l = Ok peaks ->
  Forall (fun t => nd_get data (t.1.2, t.2) = Ok t.1.1) peaks /\
  (fun t : float * Z * Z => (t.1.2, t.2)) <$> peaks = l.
Proof.
  induction l as [|p l IH]; intros peaks H; cbn [res_mapM] in H.
  - by injection H as <-.
  - destruct (nd_get data p) as [v| |] eqn:E; cbn [bind] in H; [|done..].
    destruct (res_mapM _ l) as [rest| |]; cbn [bind] in H; [|done..].
    injection H as <-. destruct (IH rest eq_refl) as [Hv Hp]. split.
    + apply Forall_cons. split; [|done]. cbn [fst snd]. by destruct p.
    + rewrite fmap_cons, Hp. by destruct p.
Qed.

Section Seeds.
Variables (data rmsimg : ndarray float) (cutoff : float).
Hypothesis Hdata : nd_wf data.
Hypothesis Hrms : nd_wf rmsimg.
Hypothesis Hrows : nd_rows rmsimg = nd_rows data.
Hypothesis Hcols : nd_cols rmsimg = nd_cols data.

(** The seeds of the blobs of a loop over the peaks are peaks, in the order
    of the peaks. *)
Lemma flood_peaks_seeds peaks :
  forall st done tr st',
  ginv data st done ->
  Forall (inb (nd_rows data) (nd_cols data)) peaks ->
  flood_peaks data rmsimg (Z.of_nat (nd_rows data) - 1, Z.of_nat (nd_cols data) - 1)
    cutoff false st peaks = Ok (tr, st') ->
  exists seeds,
    Forall2 (fun (y : list pixel * island_box) s => head y.1 = Some s) tr seeds /\
    seeds `sublist_of` peaks.
Proof.
  induction peaks as [|peak peaks IH]; intros st done tr st' G Hpeaks Hrun;
    cbn [flood_peaks] in Hrun.
  - injection Hrun as <- <-. exists []. split; [apply Forall2_nil_2|done].
  - apply Forall_cons in Hpeaks as [Hpeak Hpeaks].
    destruct (flood_inv data rmsimg cutoff Hdata Hrms Hrows Hcols done st peak G Hpeak)
      as (blob & st1 & E & G1 & Hvis & Hnew).
    rewrite E in Hrun. cbn [bind] in Hrun.
    destruct blob as [|b0 blob]; cbn [length Nat.leb] in Hrun.
    + destruct (IH _ _ _ _ G1 Hpeaks Hrun) as (seeds & Hs & Hsub).
      exists seeds. split; [done|]. by apply sublist_cons.
    + destruct (Island.list2map data (b0 :: blob)) as [isle| |]; cbn [bind] in Hrun;
        [|done..].
      destruct (flood_peaks _ _ _ _ _ _ _) as [[tr1 st2]| |] eqn:E'; cbn [bind] in Hrun;
        [|done..].
      injection Hrun as <- <-.
      destruct (IH _ _ _ _ G1 Hpeaks E') as (seeds & Hs & Hsub).
      assert (b0 = peak) as ->.
      { destruct (stv st peak) eqn:Hv.
        - by destruct Hvis as [? _].
        - destruct Hnew as (tl & [= -> _] & _); done. }
      exists (peak :: seeds). split; [by apply Forall2_cons|]. by apply sublist_skip.
Qed.

End Seeds.

(** X23.  Islands are found from the brightest seed down.  The peaks are
    sorted by flux, not by signal to noise, and the floods start from them in
    that order: the first pixels of the blobs of a pass, which are their
    seeds, are listed so that the flux of the image at one is never below the
    flux at a later one. *)
Theorem seeds_come_brightest_first (data rmsimg : ndarray float)
    (innerclip : float) (outerclip : option float) :
  nd_wf data -> nd_wf rmsimg ->
  nd_rows rmsimg = nd_rows data -> nd_cols rmsimg = nd_cols data ->
  exists tr st seeds,
    gen_flood_wrap_trace data rmsimg innerclip outerclip false = Ok (tr, st) /\
    Forall2 (fun (y : list pixel * island_box) s => head y.1 = Some s) tr seeds /\
    Forall (fun s => snr_gt data rmsimg innerclip s = true) seeds /\
    falling data seeds.
Proof.
  intros Hd Hr Hrows Hcols.
  destruct (gen_flood_wrap_trace_inv data rmsimg innerclip
              (default innerclip outerclip) Hd Hr Hrows Hcols outerclip eq_refl)
    as (tr & st & Hrun & G & Hgrown).
  exists tr, st.
  assert (Hseeds : exists seeds,
            Forall2 (fun (y : list pixel * island_box) s => head y.1 = Some s) tr seeds /\
            falling data seeds).
  { revert Hrun. unfold gen_flood_wrap_trace.
    unfold same_shape. rewrite Hrows, Hcols, !Nat.eqb_refl. cbn [andb negb].
    set (hot := filter _ _).
    assert (Hhot : forall p, p ∈ hot ->
              inb (nd_rows data) (nd_cols data) p /\
              snr_gt data rmsimg innerclip p = true).
    { intros p [Hsnr Hp]%list_elem_of_filter. split; [by apply nd_indices_inb|done]. }
    destruct (res_mapM _ hot) as [peaks| |] eqn:Eread; cbn [bind]; [|done..].
    destruct (peaks_values data hot peaks Eread) as [Hval Hproj].
    destruct (length peaks =? 0)%nat.
    { intros [= <- _]. exists []. split; [apply Forall2_nil_2|done]. }
    intros Hrun.
    assert (Hnum : Forall (fun t : float * Z * Z => (t.1.1 =? t.1.1)%float = true) peaks).
    { apply Forall_forall. intros t Ht.
      rewrite Forall_forall in Hval. pose proof (Hval t Ht) as Hv.
      assert (Hin : (t.1.2, t.2) ∈ hot).
      { rewrite <- Hproj. apply list_elem_of_fmap. by exists t. }
      destruct (Hhot _ Hin) as [_ Hsnr]. unfold snr_gt in Hsnr. rewrite Hv in Hsnr.
      destruct (nd_get rmsimg _) as [r| |]; [|done..].
      by eapply float_div_not_nan, float_lt_not_nan. }
    set (sorted := (fun t : float * Z * Z => (t.1.2, t.2)) <$> sort_desc peaks) in *.
    assert (Hfall : falling data sorted).
    { apply sorted_falling; [|by apply sort_desc_sorted].
      by rewrite (sort_desc_perm peaks). }
    destruct (flood_peaks_seeds data rmsimg (default innerclip outerclip)
                Hd Hr Hrows Hcols sorted _ [] tr st
                (initial_status_inv data rmsimg innerclip)) as (seeds & Hs & Hsub);
      [|exact Hrun|].
    { apply Forall_forall. intros p Hp. apply Hhot. rewrite <- Hproj.
      unfold sorted in Hp. by rewrite (fmap_Permutation _ _ _ (sort_desc_perm peaks)) in Hp. }
    exists seeds. split; [done|]. by eapply falling_sublist. }
  destruct Hseeds as (seeds & Hs & Hfall). exists seeds.
  split; [done|]. split; [done|]. split; [|done].
  clear Hfall Hrun G. revert Hgrown.
  induction Hs as [|y s tr' seeds' Hy Hs IH]; intros Hgrown; [done|].
  apply Forall_cons in Hgrown as [((seed & tl & Hblob & Hseed & _) & _) Hgrown].
  apply Forall_cons. split; [|by apply IH].
  rewrite Hblob in Hy. by injection Hy as <-.
Qed.

Lemma seeds_come_brightest_first_witness :
  exists tr st seeds,
    gen_flood_wrap_trace
      (NdArray 3 4 [1; 6; 4.5; 1; 1; 1; 7; 1; 9; 1; 1; 1]%float)
      (nd_full 3 4 1%float) 5%float (Some 4%float) false = Ok (tr, st) /\
    Forall2 (fun (y : list pixel * island_box) s => head y.1 = Some s) tr seeds /\
    Forall (fun s => snr_gt
                       (NdArray 3 4 [1; 6; 4.5; 1; 1; 1; 7; 1; 9; 1; 1; 1]%float)
                       (nd_full 3 4 1%float) 5%float s = true) seeds /\
    falling (NdArray 3 4 [1; 6; 4.5; 1; 1; 1; 7; 1; 9; 1; 1; 1]%float) seeds.
Proof.
  apply (seeds_come_brightest_first
           (NdArray 3 4 [1; 6; 4.5; 1; 1; 1; 7; 1; 9; 1; 1; 1]%float)
           (nd_full 3 4 1%float) 5%float (Some 4%float)); reflexivity.
Defined.

(** ** Reading the maps for a source *)

Lemma nd_get_nonneg_inb {A} (a : ndarray A) (p : pixel) (v : A) :
  nd_get a p = Ok v -> 0 <= p.1 -> 0 <= p.2 -> inb (nd_rows a) (nd_cols a) p.
Proof.
  unfold nd_get, nd_offset, py_index. intros H H1 H2.
  destruct (Z.leb_spec 0 p.1); [|lia]. destruct (Z.leb_spec 0 p.2); [|lia].
  destruct (Z.ltb_spec p.1 (Z.of_nat (nd_rows a))); [|done].
  destruct (Z.ltb_spec p.2 (Z.of_nat (nd_cols a))); [|done].
  split; lia.
Qed.

(** X24.  The background and the local noise of a source are read at one
    and the same pixel of the two maps: the pixel position of the source,
    each coordinate rounded to an integer and clamped to the background map
    (to 0 from below and to the last row or column from above).  That pixel
    lies inside the background map, so that a fit that ends left of or above
    the image reads the first row or column, never the far side of the maps
    through a negative index. *)
Theorem source_maps_are_read_inside (lib : Lib) (img : FitsImage)
    (bkgimg rmsimg : ndarray float) (pix2arcsec cc2arcsec : float)
    (num_isle : Z) (i : ndarray float) (xmin ymin : Z) (par : list float)
    (info : list parinfo_entry) (perr : option (list float)) (err : bool)
    (j : nat) (src : OutputSource) (perr' : list float) (err' : bool) :
  report_source lib img bkgimg rmsimg pix2arcsec cc2arcsec num_isle i xmin ymin
    par info perr err j = Ok (src, perr', err') ->
  exists p1 p2 rx ry,
    par !! (j * 6 + 1)%nat = Some p1 /\ par !! (j * 6 + 2)%nat = Some p2 /\
    Py.int (Py.round (p2 + Py.of_int ymin + 1)%float) = Ok rx /\
    Py.int (Py.round (p1 + Py.of_int xmin + 1)%float) = Ok ry /\
    let x := Z.max (Z.min rx (Z.of_nat (nd_cols bkgimg) - 1)) 0 in
    let y := Z.max (Z.min ry (Z.of_nat (nd_rows bkgimg) - 1)) 0 in
    inb (nd_rows bkgimg) (nd_cols bkgimg) (y, x) /\
    nd_get bkgimg (y, x) = Ok (background src) /\
    nd_get rmsimg (y, x) = Ok (local_rms src) /\
    (0 <= rx < Z.of_nat (nd_cols bkgimg) -> x = rx) /\
    (0 <= ry < Z.of_nat (nd_rows bkgimg) -> y = ry) /\
    (rx < 0 -> x = 0) /\ (ry < 0 -> y = 0) /\
    (Z.of_nat (nd_cols bkgimg) <= rx -> x = Z.of_nat (nd_cols bkgimg) - 1) /\
    (Z.of_nat (nd_rows bkgimg) <= ry -> y = Z.of_nat (nd_rows bkgimg) - 1).
Proof.
  unfold report_source.
  destruct (sentinel_errors par perr err) as [pe er]. intros H.
  repeat match type of H with
         | bind ?m _ = Ok _ =>
             let E := fresh "E" in
             destruct m eqn:E; cbn [bind] in H; [|discriminate..]
         end.
  injection H as <- <- <-. cbn [background local_rms].
  repeat match goal with
         | E : item par _ = Ok _ |- _ => apply item_lookup in E
         end.
  match goal with
  | Ex : Py.int (Py.round (?a + Py.of_int ymin + 1)%float) = Ok ?rx,
    Ey : Py.int (Py.round (?b + Py.of_int xmin + 1)%float) = Ok ?ry,
    Eb : nd_get bkgimg _ = Ok _, Er : nd_get rmsimg _ = Ok _ |- _ =>
      exists b, a, rx, ry;
      do 2 (split; [eassumption|]); split; [exact Ex|]; split; [exact Ey|];
      cbn zeta; unfold nd_shape in Eb, Er; cbn [fst snd] in Eb, Er;
      pose proof (nd_get_nonneg_inb _ _ _ Eb ltac:(cbn [fst snd]; lia)
                    ltac:(cbn [fst snd]; lia)) as Hin;
      split; [exact Hin|]; split; [exact Eb|]; split; [exact Er|];
      destruct Hin as [Hy Hx]; cbn [fst snd] in Hy, Hx; repeat split; lia
  end.
Qed.

Lemma source_maps_are_read_inside_witness :
  let img := Example.image (nd_full 5 5 0%float) in
  let info := [ParInfo 10 false "0:amp" (0, 20) (true, true) None;
               ParInfo 2 false "0:xo" (0, 4) (true, true) None;
               ParInfo 2 false "0:yo" (0, 4) (true, true) None;
               ParInfo 1 false "0:dx" (1, 2) (true, true) (Some 0%Z);
               ParInfo 1 false "0:dy" (1, 2) (true, true) (Some 0%Z);
               ParInfo 0 false "0:pa" (- np_pi, np_pi) (false, false) (Some 0%Z)]%float in
  let bkgimg := NdArray 5 5 [0; 1; 2; 3; 4; 5; 6; 7; 8; 9; 10; 11; 12; 13; 14;
                             15; 16; 17; 18; 19; 20; 21; 22; 23; 24]%float in
  let rmsimg := NdArray 5 5 [100; 101; 102; 103; 104; 105; 106; 107; 108; 109;
                             110; 111; 112; 113; 114; 115; 116; 117; 118; 119;
                             120; 121; 122; 123; 124]%float in
  exists src perr' err',
    report_source Example.lib img bkgimg rmsimg
      3600%float 3600%float 1 (nd_full 3 3 1%float) 1 1
      [10; -3; 1.25; 1; 1; 0]%float info None false 0 = Ok (src, perr', err') /\
    inb 5 5 (0, 3) /\
    nd_get bkgimg (0, 3) = Ok (background src) /\
    nd_get rmsimg (0, 3) = Ok (local_rms src) /\
    background src = 3%float /\ local_rms src = 103%float.
Proof.
  intros img info bkgimg rmsimg. eexists _, _, _.
  destruct (source_maps_are_read_inside Example.lib img bkgimg rmsimg
              3600%float 3600%float 1 (nd_full 3 3 1%float)
              1 1 [10; -3; 1.25; 1; 1; 0]%float info None false 0 _ _ _
              ltac:(vm_compute; reflexivity))
    as (p1 & p2 & rx & ry & H1 & H2 & Hx & Hy & Hin & Hb & Hr & _).
  injection H1 as <-. injection H2 as <-.
  vm_compute in Hx. injection Hx as <-. vm_compute in Hy. injection Hy as <-.
  split; [vm_compute; reflexivity|].
  split; [exact Hin|]. split; [exact Hb|]. split; [exact Hr|].
  split; vm_compute; reflexivity.
Defined.

(** X25.  An image without a pixel above the seed clip gives an empty
    catalogue: once the maps and the curvature clip are there, the driver
    returns no source, and neither the estimator nor the solver is
    called. *)
Theorem empty_sky_empty_catalogue (lib : Lib) (img : FitsImage)
    (rms max_summits csigma : option float) (innerclip outerclip : float)
    (bkgimg rmsimg : ndarray float) :
  nd_wf (get_pixels img) ->
  make_bkg_rms_image lib (get_pixels img) (beam img) 20 rms = Ok (bkgimg, rmsimg) ->
  (csigma = None ->
   exists c, rms_from_iqr lib (curvature lib (get_pixels img)) = Ok c) ->
  (forall p, inb (nd_rows (get_pixels img)) (nd_cols (get_pixels img)) p ->
     snr_gt (get_pixels img) rmsimg innerclip p = false) ->
  find_sources_in_image lib img rms max_summits csigma innerclip outerclip = Ok [].
Proof.
  intros Hd Hmaps Hc Hnone. unfold find_sources_in_image. rewrite Hmaps. cbn [bind].
  destruct (make_bkg_rms_image_shape _ _ _ _ _ _ _ Hmaps) as (_ & (Wr & Rr & Cr)).
  assert (Hflood : gen_flood_wrap (get_pixels img) rmsimg innerclip (Some outerclip) false
                   = Ok []).
  { unfold gen_flood_wrap.
    destruct (gen_flood_wrap_trace_unfold (get_pixels img) rmsimg innerclip
                (Some outerclip) false Hd Rr Cr) as (peaks & Hperm & ->).
    destruct peaks as [|peak peaks]; [done|]. exfalso.
    assert (Hin : peak ∈ peak :: peaks) by left.
    rewrite Hperm in Hin. apply list_elem_of_filter in Hin as [Hsnr Hi].
    rewrite Hnone in Hsnr; [done|]. by apply nd_indices_inb. }
  destruct csigma as [c|].
  - cbn [bind]. by rewrite Hflood.
  - destruct (Hc eq_refl) as [c ->]. cbn [bind]. by rewrite Hflood.
Qed.

Lemma empty_sky_empty_catalogue_witness :
  find_sources_in_image Example.lib (Example.image (NdArray 1 2 [4.5; 4]%float))
    (Some 1%float) None (Some 1%float) 5%float 4%float = Ok [].
Proof.
  apply (empty_sky_empty_catalogue Example.lib
           (Example.image (NdArray 1 2 [4.5; 4]%float))
           (Some 1%float) None (Some 1%float) 5%float 4%float
           (nd_full 1 2 0%float) (nd_full 1 2 (1 * 1)%float)).
  - reflexivity.
  - reflexivity.
  - discriminate.
  - intros [x y] [Hx Hy]; simpl in *.
    assert (x = 0) as -> by lia.
    assert (y = 0 \/ y = 1) as [-> | ->] by lia; reflexivity.
Defined.

(** ** The errors of a source *)

Lemma float_abs_not_sentinel (x : float) : abs x <> (-1)%float.
Proof.
  intros H. apply (f_equal Prim2SF) in H. rewrite abs_spec in H.
  destruct (Prim2SF x) as [[]|[]| |[] ? ?]; vm_compute in H; discriminate.
Qed.

(** C8 at a component whose second position error is the sentinel while
    the first is not.  The driver tests the first position error only; when
    that one is not negative, the sentinel -1 of the other is taken as a
    pixel error, held by [within] like any other, and added to the pixel
    position: the sky errors that come out are absolute differences, never
    the sentinel, so the undefined error is put out as a defined one. *)
Theorem ra_sentinel_is_used_as_an_offset (lib : Lib) (img : FitsImage)
    (bkgimg rmsimg : ndarray float) (pix2arcsec cc2arcsec : float)
    (num_isle : Z) (i : ndarray float) (xmin ymin : Z) (par : list float)
    (info : list parinfo_entry) (perr : option (list float)) (err : bool)
    (j : nat) (src : OutputSource) (perr' : list float) (err' : bool)
    (e1 : float) :
  report_source lib img bkgimg rmsimg pix2arcsec cc2arcsec num_isle i xmin ymin
    par info perr err j = Ok (src, perr', err') ->
  perr' !! (j * 6 + 1)%nat = Some e1 ->
  perr' !! (j * 6 + 2)%nat = Some (-1)%float ->
  (e1 <? 0)%float = false ->
  exists p1 p2,
    par !! (j * 6 + 1)%nat = Some p1 /\ par !! (j * 6 + 2)%nat = Some p2 /\
    let dec_pix := (p1 + Py.of_int xmin + 1)%float in
    let ra_pix := (p2 + Py.of_int ymin + 1)%float in
    let moved := pix2sky img
                   ((ra_pix + within (-1) (-1) (Py.of_int (nd_shape i).1))%float,
                    (dec_pix + within e1 (-1) (Py.of_int (nd_shape i).2))%float) in
    err_ra src = abs (ra src - moved.1) /\
    err_dec src = abs (dec src - moved.2) /\
    err_ra src <> (-1)%float /\ err_dec src <> (-1)%float.
Proof.
  intros Hrun He1 He2 Hpos.
  destruct (sky_position_error _ _ _ _ _ _ _ _ _ _ _ _ _ _ _ _ _ _ Hrun)
    as (p1 & p2 & e1' & e2' & H1 & H2 & H3 & H4 & _ & _ & _ & Herr).
  rewrite He1 in H3. injection H3 as <-. rewrite He2 in H4. injection H4 as <-.
  destruct (Herr Hpos) as [Hra Hdec].
  exists p1, p2. split; [done|]. split; [done|]. cbn zeta.
  split; [done|]. split; [done|].
  rewrite Hra, Hdec. split; apply float_abs_not_sentinel.
Qed.

(** The failing input: the solver reports an error of 0.25 for the first
    pixel coordinate and 0, which becomes -1, for the second.  The source
    is put out with an error of 1 in right ascension, the distance to the
    position moved by -1 pixel. *)
Lemma ra_sentinel_is_used_as_an_offset_witness :
  let img := Example.image (nd_full 5 5 0%float) in
  let info := [ParInfo 10 false "0:amp" (0, 20) (true, true) None;
               ParInfo 2 false "0:xo" (0, 4) (true, true) None;
               ParInfo 2 false "0:yo" (0, 4) (true, true) None;
               ParInfo 1 false "0:dx" (1, 2) (true, true) (Some 0%Z);
               ParInfo 1 false "0:dy" (1, 2) (true, true) (Some 0%Z);
               ParInfo 0 false "0:pa" (- np_pi, np_pi) (false, false) (Some 0%Z)]%float in
  exists src,
    report_source Example.lib img (nd_full 5 5 0%float) (nd_full 5 5 1%float)
      3600%float 3600%float 1 (nd_full 3 3 1%float) 1 1
      [10; 1; 1; 1; 1; 0]%float info (Some [0.5; 0.25; 0; 0.5; 0.5; 0.5]%float)
      false 0
    = Ok (src, [0.5; 0.25; -1; 0.5; 0.5; 0.5]%float, false) /\
    err_ra src = 1%float /\ err_dec src = 0.25%float /\
    err_ra src <> (-1)%float /\ err_dec src <> (-1)%float.
Proof.
  intros img info. eexists. split; [vm_compute; reflexivity|].
  destruct (ra_sentinel_is_used_as_an_offset Example.lib img (nd_full 5 5 0%float)
              (nd_full 5 5 1%float) 3600%float 3600%float 1 (nd_full 3 3 1%float)
              1 1 [10; 1; 1; 1; 1; 0]%float info
              (Some [0.5; 0.25; 0; 0.5; 0.5; 0.5]%float) false 0 _ _ _ 0.25%float
              ltac:(vm_compute; reflexivity) eq_refl eq_refl eq_refl)
    as (p1 & p2 & H1 & H2 & Hra & Hdec & Hnra & Hndec).
  injection H1 as <-. injection H2 as <-.
  split; [exact Hra|]. split; [exact Hdec|]. by split.
Defined.

Lemma sentinel_idem (e : float) : sentinel (sentinel e) = sentinel e.
Proof. unfold sentinel. destruct (e =? 0)%float eqn:E; [done|]. by rewrite E. Qed.

Lemma sentinel_nonzero (e : float) : (sentinel e =? 0)%float = false.
Proof. unfold sentinel. destruct (e =? 0)%float eqn:E; [done|exact E]. Qed.

(** The sentinel pass: a missing vector counts as zeros, every zero entry
    becomes -1 and every other entry is kept. *)
Lemma sentinel_errors_vector par perr err :
  (sentinel_errors par perr err).1
  = sentinel <$> default ((fun _ => 0%float) <$> par) perr.
Proof. unfold sentinel_errors. by destruct perr. Qed.

Lemma sentinel_errors_again par perr err err' :
  (sentinel_errors par (Some (sentinel_errors par perr err).1) err').1
  = (sentinel_errors par perr err).1.
Proof.
  rewrite !sentinel_errors_vector. simpl.
  rewrite <- list_fmap_compose. apply list_fmap_ext. intros _ e _.
  apply sentinel_idem.
Qed.

Lemma report_source_errors lib img bkgimg rmsimg pix2arcsec cc2arcsec num_isle
    i xmin ymin par info perr err j src perr' err' :
  report_source lib img bkgimg rmsimg pix2arcsec cc2arcsec num_isle i xmin ymin
    par info perr err j = Ok (src, perr', err') ->
  perr' = (sentinel_errors par perr err).1 /\ reported perr' cc2arcsec j src.
Proof.
  unfold report_source. destruct (sentinel_errors par perr err) as [pe er].
  cbn [fst]. intros H.
  repeat match type of H with
         | bind ?m _ = Ok _ =>
             let E := fresh "E" in
             destruct m eqn:E; cbn [bind] in H; [|discriminate..]
         end.
  injection H as <- <- <-. split; [done|].
  repeat match goal with
         | E : item pe _ = Ok _ |- _ => apply item_lookup in E
         end.
  unfold reported. cbn [err_peak_flux err_a err_b err_pa].
  do 4 eexists. do 4 (split; [eassumption|]). done.
Qed.

Lemma report_sources_errors lib img bkgimg rmsimg pix2arcsec cc2arcsec num_isle
    i xmin ymin par info pe js :
  forall perr err srcs,
  (sentinel_errors par perr err).1 = pe ->
  report_sources lib img bkgimg rmsimg pix2arcsec cc2arcsec num_isle i xmin ymin
    par info perr err js = Ok srcs ->
  Forall2 (reported pe cc2arcsec) js srcs /\
  (unfitted perr err -> Forall unfitted_source srcs).
Proof.
  induction js as [|j js IH]; intros perr err srcs Hpe H; cbn [report_sources] in H.
  - injection H as <-. split; [apply Forall2_nil_2|]. intros _. apply Forall_nil_2.
  - destruct (report_source _ _ _ _ _ _ _ _ _ _ _ _ _ _ _)
      as [[[src perr'] err']| |] eqn:E; cbn [bind] in H; [|discriminate..].
    destruct (report_sources _ _ _ _ _ _ _ _ _ _ _ _ _ _) as [rest| |] eqn:E';
      cbn [bind] in H; [|discriminate..].
    injection H as <-.
    destruct (report_source_errors _ _ _ _ _ _ _ _ _ _ _ _ _ _ _ _ _ _ E) as [Hv Hrep].
    rewrite Hpe in Hv. subst perr'.
    destruct (IH (Some pe) err' rest) as [Hall Hun]; [|done|].
    { rewrite <- Hpe. apply sentinel_errors_again. }
    split; [by apply Forall2_cons|].
    intros Hu.
    destruct (report_source_unfitted _ _ _ _ _ _ _ _ _ _ _ _ _ _ _ _ _ _ Hu E)
      as [Hsrc Hu'].
    apply Forall_cons. split; [done|]. by apply Hun.
Qed.

(** C9 fails as stated: with position errors of 2^-100 pixel, which are
    not zero and are kept, the moved position is the position itself, and
    the errors of right ascension and declination that are put out are
    exactly zero. *)
Lemma no_zero_error_counterexample :
  ~ no_zero_error_claim Example.lib (Example.image (nd_full 5 5 0%float))
      (nd_full 5 5 0%float) (nd_full 5 5 1%float) 3600%float 3600%float 1
      (nd_full 3 3 1%float) 1 1 [10; 1; 1; 1; 1; 0]%float
      [ParInfo 10 false "0:amp" (0, 20) (true, true) None;
       ParInfo 2 false "0:xo" (0, 4) (true, true) None;
       ParInfo 2 false "0:yo" (0, 4) (true, true) None;
       ParInfo 1 false "0:dx" (1, 2) (true, true) (Some 0%Z);
       ParInfo 1 false "0:dy" (1, 2) (true, true) (Some 0%Z);
       ParInfo 0 false "0:pa" (- np_pi, np_pi) (false, false) (Some 0%Z)]%float
      (Some [0.5; 0x1p-100; 0x1p-100; 0.5; 0.5; 0.5]%float) [0%nat].
Proof.
  intros H. destruct (H _ ltac:(vm_compute; reflexivity)) as [_ Hall].
  apply Forall_cons in Hall as [(Hra & _) _]. vm_compute in Hra. discriminate.
Qed.

(** C9, as the program has it.  Over the components of one island.  The
    error vector that the driver works with is the solver's, or as many
    zeros as there are parameters when the solver gave none, with every zero
    entry replaced by -1 and every other entry kept: it holds no zero.  For
    every component the peak error that is put out is its entry of that
    vector, hence never zero, and the errors of the axes and of the angle are
    their entries, turned into the units of the catalogue when they are
    positive.  When the solver gave no vector, every component carries FITERR
    and has -1 for the errors of its sky position, peak flux, axes and
    angle. *)
Theorem zero_errors_become_sentinels (lib : Lib) (img : FitsImage)
    (bkgimg rmsimg : ndarray float) (pix2arcsec cc2arcsec : float)
    (num_isle : Z) (i : ndarray float) (xmin ymin : Z) (par : list float)
    (info : list parinfo_entry) (perr : option (list float)) (err : bool)
    (js : list nat) (srcs : list OutputSource) :
  report_sources lib img bkgimg rmsimg pix2arcsec cc2arcsec num_isle i xmin ymin
    par info perr err js = Ok srcs ->
  let pe := (sentinel_errors par perr err).1 in
  pe = sentinel <$> default ((fun _ => 0%float) <$> par) perr /\
  (perr = None -> pe = replicate (length par) (-1)%float) /\
  Forall (fun e => (e =? 0)%float = false) pe /\
  Forall2 (reported pe cc2arcsec) js srcs /\
  Forall (fun s => (err_peak_flux s =? 0)%float = false) srcs /\
  (perr = None -> Forall unfitted_source srcs).
Proof.
  intros Hrun pe.
  assert (Hpe : pe = sentinel <$> default ((fun _ => 0%float) <$> par) perr)
    by apply sentinel_errors_vector.
  assert (Hnz : Forall (fun e => (e =? 0)%float = false) pe).
  { rewrite Hpe. apply Forall_fmap, Forall_forall. intros e _. apply sentinel_nonzero. }
  destruct (report_sources_errors _ _ _ _ _ _ _ _ _ _ _ _ pe js perr err srcs eq_refl Hrun)
    as [Hrep Hun].
  split; [done|]. split.
  { intros ->. rewrite Hpe. cbn [default]. rewrite <- list_fmap_compose.
    clear. induction par as [|v par IH]; [done|]. simpl. by rewrite <- IH. }
  split; [done|]. split; [done|]. split.
  - clear Hun Hrun. induction Hrep as [|j src js' srcs' Hj _ IH]; [done|].
    apply Forall_cons. split; [|done].
    destruct Hj as (e0 & e3 & e4 & e5 & H0 & _ & _ & _ & -> & _).
    rewrite Forall_forall in Hnz. apply Hnz. by eapply list_elem_of_lookup_2.
  - intros ->. by apply Hun.
Qed.

Lemma zero_errors_become_sentinels_witness :
  let img := Example.image (nd_full 5 5 0%float) in
  let info := [ParInfo 10 false "0:amp" (0, 20) (true, true) None;
               ParInfo 2 false "0:xo" (0, 4) (true, true) None;
               ParInfo 2 false "0:yo" (0, 4) (true, true) None;
               ParInfo 1 false "0:dx" (1, 2) (true, true) (Some 0%Z);
               ParInfo 1 false "0:dy" (1, 2) (true, true) (Some 0%Z);
               ParInfo 0 false "0:pa" (- np_pi, np_pi) (false, false) (Some 0%Z)]%float in
  let pe := [0.5; 0.25; 7; -1; 0.5; -1]%float in
  exists src,
    report_sources Example.lib img (nd_full 5 5 0%float) (nd_full 5 5 1%float)
      3600%float 3600%float 1 (nd_full 3 3 1%float) 1 1
      [10; 1; 1; 1; 1; 0]%float info (Some [0.5; 0.25; 7; 0; 0.5; 0]%float)
      false [0%nat] = Ok [src] /\
    Forall (fun e => (e =? 0)%float = false) pe /\
    reported pe 3600 0 src /\
    err_peak_flux src = 0.5%float /\ err_a src = (-1)%float /\
    err_b src = 1800%float /\ err_pa src = (-1)%float.
Proof.
  intros img info pe. eexists. split; [vm_compute; reflexivity|].
  destruct (zero_errors_become_sentinels Example.lib img (nd_full 5 5 0%float)
              (nd_full 5 5 1%float) 3600%float 3600%float 1 (nd_full 3 3 1%float)
              1 1 [10; 1; 1; 1; 1; 0]%float info
              (Some [0.5; 0.25; 7; 0; 0.5; 0]%float) false [0%nat] _
              ltac:(vm_compute; reflexivity)) as (_ & _ & Hnz & Hrep & _ & _).
  split; [exact Hnz|].
  apply Forall2_cons_1 in Hrep as [Hrep _]. split; [exact Hrep|].
  destruct Hrep as (e0 & e3 & e4 & e5 & H0 & H3 & H4 & H5 & Hp & Ha & Hb & Hpa).
  injection H0 as <-. injection H3 as <-. injection H4 as <-. injection H5 as <-.
  split; [exact Hp|]. split; [exact Ha|]. split; [exact Hb|exact Hpa].
Defined.
